(** * QR-code detection and replacement pipeline

    A shallow embedding of the TypeScript sources of the PDF / image
    QR-code replacement application, and the properties of its
    specification that can be settled on it.

    Conventions of the embedding.
    - Geometry that the libraries hand over (page sizes, corner points,
      pixel boxes) and the geometry kept in the records is carried as
      exact rationals ([Q]); a record holds the exact quotient where the
      source stores the binary64 quotient. The arithmetic of the
      coordinate mapping itself is modelled in binary64 in [Binary64]:
      a product or quotient is the exact result rounded to the nearest
      binary64 value, ties to even, with overflow to an infinity and
      gradual underflow.
    - Pixel indices of an [ImageData] buffer are integers ([Z]); the
      [Uint8ClampedArray] is a [list Z] updated in place with stdpp's
      list insert, which, like a typed array, ignores writes that are out
      of range.
    - The external capabilities (PDF rasteriser, QR detector, JSON
      parser, per-file extraction) are [Variable]s of a [Section]; a
      theorem therefore holds for every stand-in of the capability.
    - A [while (true)] loop is a [Fixpoint] on a fuel argument that
      returns [None] when the fuel runs out; termination statements say
      that some fuel yields [Some] result.
    - A function that takes a [File] is modelled from the point where
      its document or image has been loaded (pdf.js, jsPDF and the
      detector are present, [getDocument] has resolved), and
      [canvas.getContext('2d')] is taken to succeed; the sources throw or
      skip otherwise. The QR-code generator and the loading of the
      generated image are modelled with their failures. Images and data
      URLs are kept symbolic. *)

From Stdlib Require Import ZArith QArith Qround Qminmax Qabs Qpower Lia Lqa Ascii String.
From Stdlib Require Import Floats.
From stdpp Require Import base list strings.

Open Scope Q_scope.

(** ** types.ts *)

Record QrCodeLocation : Type := {
  x : Q;
  y : Q;
  width : Q;
  height : Q;
}.

(** The [id] template string [`${i}-${x}-${y}`] is kept as its three
    components; [imageDataUrl] is the source rectangle that was cropped
    out of the rendered page (pixel space). *)
Record QrCodeInfo : Type := {
  id : nat * Q * Q;
  data : string;
  imageDataUrl : QrCodeLocation;
  location : QrCodeLocation;
  pageNumber : nat;
  pageWidth : Q;
  pageHeight : Q;
}.

(** Field-wise rational equality of rectangles. *)
Definition rect_eq (r1 r2 : QrCodeLocation) : Prop :=
  x r1 == x r2 /\ y r1 == y r2 /\
  width r1 == width r2 /\ height r1 == height r2.

(** ** Coordinate mapping

    [toNative] is the expression
    [{ x: x / scale, y: y / scale, width: qrWidth / scale, height: qrHeight / scale }]
    of every [extractQrCodesFromPdf], with exact quotients; its binary64
    evaluation is [Binary64.toNative]. *)
Definition toNative (r : QrCodeLocation) (scale : Q) : QrCodeLocation :=
  {| x := x r / scale; y := y r / scale;
     width := width r / scale; height := height r / scale |}.

(** ** Documents, pages and viewports (pdf.js)

    [page.getViewport({ scale })] has the page's native size times the
    scale. [page_content] only tells pages of equal size apart. *)
Record PdfPage : Type := {
  view_width : Q;
  view_height : Q;
  page_content : nat;
}.

Record Viewport : Type := {
  vp_width : Q;
  vp_height : Q;
}.

Definition getViewport (page : PdfPage) (scale : Q) : Viewport :=
  {| vp_width := view_width page * scale; vp_height := view_height page * scale |}.

(** A 600 x 800 portrait page, used in the examples. *)
Definition samplePage : PdfPage :=
  {| view_width := 600; view_height := 800; page_content := 0 |}.

(** ** The jsQR-based service: [extractQrCodesFromPdf] with in-buffer
    suppression *)
Module JsQr.

(** A corner point [{ x, y }] reported by jsQR. *)
Record Point : Type := {
  pt_x : Q;
  pt_y : Q;
}.

Record Location : Type := {
  topLeftCorner : Point;
  topRightCorner : Point;
  bottomLeftCorner : Point;
  bottomRightCorner : Point;
}.

(** The object jsQR returns: [code.data] and [code.location]. *)
Record Code : Type := {
  code_data : string;
  code_location : Location;
}.

(** [ImageData]: RGBA bytes, row-major, four per pixel. *)
Record ImageData : Type := {
  img_data : list Z;
  img_width : Z;
  img_height : Z;
}.

Definition scale : Q := 3.0.

Definition padding : Z := 10.

(** [Math.min(a, b, c, d)] and [Math.max(a, b, c, d)]. *)
Definition min4 (a b c d : Q) : Q := Qmin (Qmin (Qmin a b) c) d.
Definition max4 (a b c d : Q) : Q := Qmax (Qmax (Qmax a b) c) d.

Definition minX (l : Location) : Z :=
  (Qfloor (min4 (pt_x (topLeftCorner l)) (pt_x (topRightCorner l))
                (pt_x (bottomLeftCorner l)) (pt_x (bottomRightCorner l))) - padding)%Z.
Definition maxX (l : Location) : Z :=
  (Qceiling (max4 (pt_x (topLeftCorner l)) (pt_x (topRightCorner l))
                  (pt_x (bottomLeftCorner l)) (pt_x (bottomRightCorner l))) + padding)%Z.
Definition minY (l : Location) : Z :=
  (Qfloor (min4 (pt_y (topLeftCorner l)) (pt_y (topRightCorner l))
                (pt_y (bottomLeftCorner l)) (pt_y (bottomRightCorner l))) - padding)%Z.
Definition maxY (l : Location) : Z :=
  (Qceiling (max4 (pt_y (topLeftCorner l)) (pt_y (topRightCorner l))
                  (pt_y (bottomLeftCorner l)) (pt_y (bottomRightCorner l))) + padding)%Z.

(** The three channel writes [data[pixelIndex] = 255],
    [data[pixelIndex + 1] = 255], [data[pixelIndex + 2] = 255]. *)
Definition setWhite (pixelIndex : Z) (d : list Z) : list Z :=
  <[Z.to_nat (pixelIndex + 2) := 255%Z]>
    (<[Z.to_nat (pixelIndex + 1) := 255%Z]>
       (<[Z.to_nat pixelIndex := 255%Z]> d)).

(** Body of the inner [for]: the bounds test with [continue], then the
    writes at [(yPixel * imageData.width + xPixel) * 4]. *)
Definition whiteOutPixel (w h yPixel : Z) (d : list Z) (xPixel : Z) : list Z :=
  if ((xPixel <? 0) || (xPixel >=? w) || (yPixel <? 0) || (yPixel >=? h))%Z
  then d
  else setWhite ((yPixel * w + xPixel) * 4)%Z d.

(** The values of [for (let v = lo; v < hi; v++)]. *)
Definition forRange (lo hi : Z) : list Z := seqZ lo (hi - lo).

Definition whiteOutRow (w h : Z) (l : Location) (d : list Z) (yPixel : Z) : list Z :=
  fold_left (whiteOutPixel w h yPixel) (forRange (minX l) (maxX l)) d.

(** "White out" the found QR code in the imageData. *)
Definition whiteOut (imageData : ImageData) (l : Location) : ImageData :=
  {| img_data :=
       fold_left (whiteOutRow (img_width imageData) (img_height imageData) l)
                 (forRange (minY l) (maxY l)) (img_data imageData);
     img_width := img_width imageData;
     img_height := img_height imageData |}.

(** The record pushed for a detection on page [i]: position of the
    top-left corner, width up to the top-right corner, height down to the
    bottom-left corner. *)
Definition pixelBox (code : Code) : QrCodeLocation :=
  let x0 := pt_x (topLeftCorner (code_location code)) in
  let y0 := pt_y (topLeftCorner (code_location code)) in
  let qrWidth := pt_x (topRightCorner (code_location code)) - x0 in
  let qrHeight := pt_y (bottomLeftCorner (code_location code)) - y0 in
  {| x := x0; y := y0; width := qrWidth; height := qrHeight |}.

Definition qrCodeInfo (i : nat) (viewport : Viewport) (code : Code) : QrCodeInfo :=
  let box := pixelBox code in
  {| id := (i, x box, y box);
     data := code_data code;
     imageDataUrl := box;
     location := toNative box scale;
     pageNumber := i;
     pageWidth := vp_width viewport / scale;
     pageHeight := vp_height viewport / scale |}.

Section Service.

(** The detector [window.jsQR(data, width, height)], [None] for [null],
    and the rasteriser followed by [ctx.getImageData]. *)
Variable jsQR : list Z -> Z -> Z -> option Code.
Variable getImageData : PdfPage -> Q -> ImageData.

Definition detect (imageData : ImageData) : option Code :=
  jsQR (img_data imageData) (img_width imageData) (img_height imageData).

(** The [while (true)] loop of one page. *)
Fixpoint scanLoop (fuel : nat) (i : nat) (viewport : Viewport)
  (imageData : ImageData) (allQrCodes : list QrCodeInfo)
  : option (list QrCodeInfo * ImageData) :=
  match fuel with
  | O => None
  | S fuel' =>
      match detect imageData with
      | Some code =>
          scanLoop fuel' i viewport
            (whiteOut imageData (code_location code))
            (allQrCodes ++ [qrCodeInfo i viewport code])
      | None => Some (allQrCodes, imageData)
      end
  end.

(** The [for (let i = 1; i <= numPages; i++)] loop. *)
Fixpoint pagesLoop (fuel : nat) (i : nat) (pages : list PdfPage)
  (allQrCodes : list QrCodeInfo) : option (list QrCodeInfo) :=
  match pages with
  | [] => Some allQrCodes
  | page :: rest =>
      match scanLoop fuel i (getViewport page scale) (getImageData page scale) allQrCodes with
      | Some (allQrCodes', _) => pagesLoop fuel (S i) rest allQrCodes'
      | None => None
      end
  end.

Definition extractQrCodesFromPdf (fuel : nat) (pdf : list PdfPage) : option (list QrCodeInfo) :=
  pagesLoop fuel 1 pdf [].

(** The buffer after [k] rounds of detect-and-suppress. *)
Definition suppressOnce (imageData : ImageData) : ImageData :=
  match detect imageData with
  | Some code => whiteOut imageData (code_location code)
  | None => imageData
  end.

Fixpoint bufferAfter (k : nat) (imageData : ImageData) : ImageData :=
  match k with
  | O => imageData
  | S k' => bufferAfter k' (suppressOnce imageData)
  end.

End Service.

(** Number of channel values that are not 255. *)
Definition nonWhite (d : list Z) : nat :=
  length (filter (fun v => v <> 255%Z) d).

(** A step that either leaves the data alone or lowers [nonWhite]. *)
Definition whitened (d d' : list Z) : Prop :=
  d' = d \/ (nonWhite d' < nonWhite d)%nat.

(** The data keeps its length, and a channel that is 255 stays 255. *)
Definition stays (d d' : list Z) : Prop :=
  length d' = length d /\ forall j : nat, d !! j = Some 255%Z -> d' !! j = Some 255%Z.

(** Stand-ins for the detector, used to exercise the loop.
    [stuckDetector] reports the same code whatever the buffer holds.
    [firstDarkDetector] reports a one-pixel code at the first pixel whose
    red channel is not 255. *)
Definition pointCode (px py : Z) : Code :=
  let pt := {| pt_x := inject_Z px; pt_y := inject_Z py |} in
  {| code_data := "stand-in";
     code_location := {| topLeftCorner := pt; topRightCorner := pt;
                         bottomLeftCorner := pt; bottomRightCorner := pt |} |}.

Definition stuckDetector (d : list Z) (w h : Z) : option Code := Some (pointCode 0 0).

Fixpoint firstDark (d : list Z) (k : nat) : option nat :=
  match d with
  | r :: _ :: _ :: _ :: rest => if (r =? 255)%Z then firstDark rest (S k) else Some k
  | _ => None
  end.

Definition firstDarkDetector (d : list Z) (w h : Z) : option Code :=
  match firstDark d 0 with
  | Some k =>
      if ((0 <? w) && (Z.of_nat k <? w * h))%Z
      then Some (pointCode (Z.of_nat k mod w) (Z.of_nat k / w))
      else None
  | None => None
  end.

Definition blackPixel : list Z := [0; 0; 0; 255]%Z.
Definition whitePixel : list Z := [255; 255; 255; 255]%Z.

Definition blankImage : ImageData :=
  {| img_data := whitePixel; img_width := 1; img_height := 1 |}.

(** A 25 x 1 strip with a dark pixel at each end. *)
Definition stripImage : ImageData :=
  {| img_data := blackPixel ++ concat (replicate 23 whitePixel) ++ blackPixel;
     img_width := 25; img_height := 1 |}.

(** Detections of a code turned by 45 degrees and of a code turned
    upside down, corners named as jsQR names them (by the code's own
    orientation). *)
Definition corner (px py : Q) : Point := {| pt_x := px; pt_y := py |}.

Definition tiltedCode : Code :=
  {| code_data := "https://example.com";
     code_location := {| topLeftCorner := corner 30 10;
                         topRightCorner := corner 50 30;
                         bottomLeftCorner := corner 10 30;
                         bottomRightCorner := corner 30 50 |} |}.

Definition upsideDownCode : Code :=
  {| code_data := "https://example.com";
     code_location := {| topLeftCorner := corner 60 60;
                         topRightCorner := corner 20 60;
                         bottomLeftCorner := corner 60 20;
                         bottomRightCorner := corner 20 20 |} |}.

(** The box of the four corners without the padding, as the suppression
    computes it. *)
Definition fourCornerBox (l : Location) : QrCodeLocation :=
  {| x := inject_Z (minX l + padding); y := inject_Z (minY l + padding);
     width := inject_Z ((maxX l - padding) - (minX l + padding));
     height := inject_Z ((maxY l - padding) - (minY l + padding)) |}.

End JsQr.

(** ** The ZXing-based service: [extractQrCodesFromPdf] and
    [extractQrCodesFromImage] with on-canvas suppression *)
Module ZXing.

Record ResultPoint : Type := {
  getX : Q;
  getY : Q;
}.

(** What [codeReader.decodeFromCanvas(canvas)] does: it returns a result
    with its text and result points (a QR result carries at least the
    finder patterns, so the points are a first point and the others), or
    throws [NotFoundException], or throws something else. *)
Inductive DecodeOutcome : Type :=
| Result (getText : string) (point : ResultPoint) (points : list ResultPoint)
| NotFoundException
| UnexpectedError (err : string).

Record Image : Type := {
  image_width : Q;
  image_height : Q;
  image_content : nat;
}.

(** A canvas is what was first drawn on it and the rectangles filled
    since, oldest first, each with its [fillStyle]. *)
Inductive Source : Type :=
| RenderedPage (page : PdfPage) (scale : Q)
| DrawnImage (image : Image).

Record Canvas : Type := {
  canvas_source : Source;
  canvas_fills : list (string * QrCodeLocation);
}.

Definition fillRect (canvas : Canvas) (fillStyle : string) (rx ry rw rh : Q) : Canvas :=
  {| canvas_source := canvas_source canvas;
     canvas_fills := canvas_fills canvas
                     ++ [(fillStyle, {| x := rx; y := ry; width := rw; height := rh |})] |}.

(** The unit square of pixel [(px, py)] meets the rectangle [r]. *)
Definition touchesPixel (r : QrCodeLocation) (px py : Z) : Prop :=
  x r < inject_Z (px + 1) /\ inject_Z px < x r + width r /\
  y r < inject_Z (py + 1) /\ inject_Z py < y r + height r.

(** [Math.min(...values)] and [Math.max(...values)] of a non-empty
    spread. *)
Definition mathMin (v : Q) (vs : list Q) : Q := fold_left Qmin vs v.
Definition mathMax (v : Q) (vs : list Q) : Q := fold_left Qmax vs v.

(** Bounding box from the result points: [minX], [minY], [maxX - minX],
    [maxY - minY]. *)
Definition boundingBox (p : ResultPoint) (ps : list ResultPoint) : QrCodeLocation :=
  let minX := mathMin (getX p) (map getX ps) in
  let maxX := mathMax (getX p) (map getX ps) in
  let minY := mathMin (getY p) (map getY ps) in
  let maxY := mathMax (getY p) (map getY ps) in
  {| x := minX; y := minY; width := maxX - minX; height := maxY - minY |}.

(** The result list under construction and what [console.error] has
    printed. Only [allQrCodes] is returned to the caller. *)
Record ExtractState : Type := {
  allQrCodes : list QrCodeInfo;
  console : list string;
}.

Definition push (st : ExtractState) (info : QrCodeInfo) : ExtractState :=
  {| allQrCodes := allQrCodes st ++ [info]; console := console st |}.

Definition consoleError (st : ExtractState) (err : string) : ExtractState :=
  {| allQrCodes := allQrCodes st; console := console st ++ [err] |}.

Definition pdfQrCodeInfo (scale : Q) (i : nat) (viewport : Viewport)
  (text : string) (box : QrCodeLocation) : QrCodeInfo :=
  {| id := (i, x box, y box);
     data := text;
     imageDataUrl := box;
     location := toNative box scale;
     pageNumber := i;
     pageWidth := vp_width viewport / scale;
     pageHeight := vp_height viewport / scale |}.

Definition imageQrCodeInfo (image : Image) (text : string) (box : QrCodeLocation)
  : QrCodeInfo :=
  {| id := (1%nat, x box, y box);
     data := text;
     imageDataUrl := box;
     location := {| x := x box; y := y box; width := width box; height := height box |};
     pageNumber := 1;
     pageWidth := image_width image;
     pageHeight := image_height image |}.

Section Service.

Variable decodeFromCanvas : Canvas -> DecodeOutcome.

(** The detection scale: [2.0] in one revision of the service, [3.0] in
    the revision that also handles images. *)
Variable scale : Q.

(** The [while (true) { try { ... } catch (err) { ... } }] of a page. *)
Fixpoint scanLoop (fuel : nat) (i : nat) (viewport : Viewport)
  (canvas : Canvas) (st : ExtractState) : option (ExtractState * Canvas) :=
  match fuel with
  | O => None
  | S fuel' =>
      match decodeFromCanvas canvas with
      | Result text p ps =>
          let box := boundingBox p ps in
          scanLoop fuel' i viewport
            (fillRect canvas "white" (x box) (y box) (width box) (height box))
            (push st (pdfQrCodeInfo scale i viewport text box))
      | NotFoundException => Some (st, canvas)
      | UnexpectedError err => Some (consoleError st err, canvas)
      end
  end.

Fixpoint pagesLoop (fuel : nat) (i : nat) (pages : list PdfPage)
  (st : ExtractState) : option ExtractState :=
  match pages with
  | [] => Some st
  | page :: rest =>
      match scanLoop fuel i (getViewport page scale)
              {| canvas_source := RenderedPage page scale; canvas_fills := [] |} st with
      | Some (st', _) => pagesLoop fuel (S i) rest st'
      | None => None
      end
  end.

Definition extractQrCodesFromPdf (fuel : nat) (pdf : list PdfPage) : option ExtractState :=
  pagesLoop fuel 1 pdf {| allQrCodes := []; console := [] |}.

(** The loop of [extractQrCodesFromImage]. *)
Fixpoint imageScanLoop (fuel : nat) (image : Image)
  (canvas : Canvas) (st : ExtractState) : option (ExtractState * Canvas) :=
  match fuel with
  | O => None
  | S fuel' =>
      match decodeFromCanvas canvas with
      | Result text p ps =>
          let box := boundingBox p ps in
          imageScanLoop fuel' image
            (fillRect canvas "white" (x box) (y box) (width box) (height box))
            (push st (imageQrCodeInfo image text box))
      | NotFoundException => Some (st, canvas)
      | UnexpectedError err => Some (consoleError st err, canvas)
      end
  end.

Definition extractQrCodesFromImage (fuel : nat) (image : Image) : option ExtractState :=
  match imageScanLoop fuel image
          {| canvas_source := DrawnImage image; canvas_fills := [] |}
          {| allQrCodes := []; console := [] |} with
  | Some (st, _) => Some st
  | None => None
  end.

End Service.

(** What the promise of an extraction resolves to. *)
Definition returned (r : option ExtractState) : option (list QrCodeInfo) :=
  option_map allQrCodes r.

(** Pixel [(px, py)] lies in the rectangle [r] extended by [pad] on each
    side. *)
Definition inPaddedBox (r : QrCodeLocation) (pad : Q) (px py : Z) : Prop :=
  x r - pad <= inject_Z px /\ inject_Z (px + 1) <= x r + width r + pad /\
  y r - pad <= inject_Z py /\ inject_Z (py + 1) <= y r + height r + pad.

(** Stand-ins for the decoder. [oneCodeDecoder] sees one code on a canvas
    with nothing filled yet and nothing afterwards; [failingDecoder] sees
    the same code and then fails with something other than "not found". *)
Definition finder (px py : Q) : ResultPoint := {| getX := px; getY := py |}.

Definition oneCodeDecoder (canvas : Canvas) : DecodeOutcome :=
  match canvas_fills canvas with
  | [] => Result "https://example.com" (finder 10 50) [finder 10 10; finder 50 10]
  | _ => NotFoundException
  end.

Definition failingDecoder (canvas : Canvas) : DecodeOutcome :=
  match canvas_fills canvas with
  | [] => Result "https://example.com" (finder 10 50) [finder 10 10; finder 50 10]
  | _ => UnexpectedError "ChecksumException"
  end.

(** A detector that answers "not found" wherever [decode] fails
    unexpectedly. *)
Definition errorsAsNotFound (decode : Canvas -> DecodeOutcome) (canvas : Canvas)
  : DecodeOutcome :=
  match decode canvas with
  | UnexpectedError _ => NotFoundException
  | other => other
  end.

End ZXing.

(** ** JavaScript values read from JSON *)

#[local] Set Warnings "-register-all".

Inductive JsNumber : Type :=
| Finite (q : Q)
| NaN
| PosInfinity
| NegInfinity.

Inductive Json : Type :=
| JNull
| JBool (b : bool)
| JNumber (n : JsNumber)
| JString (s : string)
| JArray (items : list Json)
| JObject (fields : list (string * Json)).

(** A value that may be [undefined] ([None]). *)
Definition JsValue : Type := option Json.

(** Own property of an object built by [JSON.parse]: a later duplicate key
    overrides an earlier one. *)
Definition lookupField (k : string) (fields : list (string * Json)) : JsValue :=
  fold_left (fun acc kv => if String.eqb k (fst kv) then Some (snd kv) else acc)
            fields None.

Inductive Completion (A : Type) : Type :=
| Normal (v : A)
| Throw (e : string).
Arguments Normal {A} v.
Arguments Throw {A} e.

Definition bind {A B : Type} (c : Completion A) (k : A -> Completion B) : Completion B :=
  match c with
  | Normal v => k v
  | Throw e => Throw e
  end.

(** [value.key] for a key that no prototype defines ([color],
    [backgroundColor], [size]): a [TypeError] on [null], the own property
    of an object, [undefined] on anything else. *)
Definition getProp (value : Json) (key : string) : Completion JsValue :=
  match value with
  | JNull => Throw "TypeError"
  | JObject fields => Normal (lookupField key fields)
  | _ => Normal None
  end.

Definition truthy (v : JsValue) : bool :=
  match v with
  | None => false
  | Some JNull => false
  | Some (JBool b) => b
  | Some (JNumber (Finite q)) => negb (Qeq_bool q 0)
  | Some (JNumber NaN) => false
  | Some (JNumber _) => true
  | Some (JString s) => negb (String.eqb s "")
  | Some (JArray _) => true
  | Some (JObject _) => true
  end.

(** [typeof v === 'number'] *)
Definition typeofIsNumber (v : JsValue) : bool :=
  match v with
  | Some (JNumber _) => true
  | _ => false
  end.

(** ** Binary64 arithmetic of the coordinate mapping

    The sources compute [x / scale] (the location of a record) and
    [x * scale] (the rectangle drawn by a preview) on JavaScript numbers.
    [round64] is rounding to nearest, ties to even, with 53 bits of
    precision, exponents from [-1022] to [1023], gradual underflow and
    overflow to an infinity. *)
Module Binary64.

(** [2 ^ e] *)
Definition pow2 (e : Z) : Q := 2 ^ e.

(** The exponent of a positive rational: the [e] with
    [2 ^ e <= q < 2 ^ (e + 1)]. *)
Definition floorLog2 (q : Q) : Z :=
  let e0 := (Z.log2 (Qnum q) - Z.log2 (Zpos (Qden q)))%Z in
  if Qle_bool (pow2 e0) q then e0 else (e0 - 1)%Z.

(** The integer nearest to [q], a tie going to the even one. *)
Definition nearestEven (q : Q) : Z :=
  let f := Qfloor q in
  match Qcompare (q - inject_Z f) (1 # 2) with
  | Lt => f
  | Gt => (f + 1)%Z
  | Eq => if Z.even f then f else (f + 1)%Z
  end.

(** Rounding of an exact result to binary64. *)
Definition round64 (q : Q) : JsNumber :=
  if Qeq_bool q 0 then Finite 0
  else
    let e := Z.max (floorLog2 (Qabs q)) (-1022) in
    let quantum := pow2 (e - 52) in
    let r := inject_Z (nearestEven (q / quantum)) * quantum in
    if Qle_bool (pow2 1024) (Qabs r)
    then (if Qle_bool 0 q then PosInfinity else NegInfinity)
    else Finite r.

(** [a * b] and [a / b] on numbers: the exact result, rounded. A zero
    carries no sign here, so that a division by zero gives the infinity
    of the sign of the dividend. *)
Definition mul (a b : JsNumber) : JsNumber :=
  match a, b with
  | NaN, _ => NaN
  | _, NaN => NaN
  | Finite p, Finite q => round64 (p * q)
  | Finite p, PosInfinity | PosInfinity, Finite p =>
      if Qeq_bool p 0 then NaN else if Qle_bool 0 p then PosInfinity else NegInfinity
  | Finite p, NegInfinity | NegInfinity, Finite p =>
      if Qeq_bool p 0 then NaN else if Qle_bool 0 p then NegInfinity else PosInfinity
  | PosInfinity, PosInfinity => PosInfinity
  | NegInfinity, NegInfinity => PosInfinity
  | PosInfinity, NegInfinity => NegInfinity
  | NegInfinity, PosInfinity => NegInfinity
  end.

Definition div (a b : JsNumber) : JsNumber :=
  match a, b with
  | NaN, _ => NaN
  | _, NaN => NaN
  | Finite p, Finite q =>
      if Qeq_bool q 0
      then (if Qeq_bool p 0 then NaN
            else if Qle_bool 0 p then PosInfinity else NegInfinity)
      else round64 (p / q)
  | Finite _, PosInfinity => Finite 0
  | Finite _, NegInfinity => Finite 0
  | PosInfinity, Finite q => if Qle_bool 0 q then PosInfinity else NegInfinity
  | NegInfinity, Finite q => if Qle_bool 0 q then NegInfinity else PosInfinity
  | _, _ => NaN
  end.

Definition sub (a b : JsNumber) : JsNumber :=
  match a, b with
  | NaN, _ => NaN
  | _, NaN => NaN
  | Finite p, Finite q => round64 (p - q)
  | Finite _, PosInfinity => NegInfinity
  | Finite _, NegInfinity => PosInfinity
  | PosInfinity, PosInfinity => NaN
  | NegInfinity, NegInfinity => NaN
  | PosInfinity, _ => PosInfinity
  | NegInfinity, _ => NegInfinity
  end.

(** A rectangle of numbers. *)
Record Rect : Type := {
  rx : JsNumber;
  ry : JsNumber;
  rwidth : JsNumber;
  rheight : JsNumber;
}.

Definition toNative (r : Rect) (scale : JsNumber) : Rect :=
  {| rx := div (rx r) scale; ry := div (ry r) scale;
     rwidth := div (rwidth r) scale; rheight := div (rheight r) scale |}.

Definition toPixelsAtScale (r : Rect) (scale : JsNumber) : Rect :=
  {| rx := mul (rx r) scale; ry := mul (ry r) scale;
     rwidth := mul (rwidth r) scale; rheight := mul (rheight r) scale |}.

(** [a] is the finite number [b] up to the relative error [tol]. *)
Definition within (tol : Q) (a b : JsNumber) : Prop :=
  match a, b with
  | Finite p, Finite q => Qabs (p - q) <= tol * Qabs q
  | _, _ => False
  end.

(** Two roundings: [(1 + 2^-53)^2 - 1]. *)
Definition tolerance : Q := pow2 (-52) + pow2 (-106).

(** The coordinate [f] and its product with the scale [s] are zero or
    well inside the normal range of binary64. *)
Definition inRange (f s : Q) : Prop :=
  f == 0
  \/ (pow2 (-1021) <= Qabs f /\ Qabs f < pow2 1022
      /\ pow2 (-1022) <= Qabs (f * s) /\ Qabs (f * s) < pow2 1023).

(** Equality of numbers (of the values, for finite ones). *)
Definition sameNumber (a b : JsNumber) : bool :=
  match a, b with
  | Finite p, Finite q => Qeq_bool p q
  | NaN, NaN => true
  | PosInfinity, PosInfinity => true
  | NegInfinity, NegInfinity => true
  | _, _ => false
  end.

(** [x] is a binary64 value. *)
Definition representable (x : Q) : Prop := sameNumber (round64 x) (Finite x) = true.

(** The coordinate [f] is zero, or a binary64 value such that [f] and
    [f * s] are in the normal range. *)
Definition exactAt (f s : Q) : Prop :=
  f == 0
  \/ (representable f
      /\ pow2 (-1022) <= Qabs f /\ Qabs f < pow2 1024
      /\ pow2 (-1022) <= Qabs (f * s) /\ Qabs (f * s) < pow2 1024).

(** A rectangle of finite numbers. *)
Definition ofLocation (r : QrCodeLocation) : Rect :=
  {| rx := Finite (x r); ry := Finite (y r);
     rwidth := Finite (width r); rheight := Finite (height r) |}.

(** The predicates above on the four fields of a rectangle. *)
Definition rectWithin (tol : Q) (a b : Rect) : Prop :=
  within tol (rx a) (rx b) /\ within tol (ry a) (ry b)
  /\ within tol (rwidth a) (rwidth b) /\ within tol (rheight a) (rheight b).

Definition rectSame (a b : Rect) : Prop :=
  sameNumber (rx a) (rx b) = true /\ sameNumber (ry a) (ry b) = true
  /\ sameNumber (rwidth a) (rwidth b) = true
  /\ sameNumber (rheight a) (rheight b) = true.

Definition rectInRange (r : QrCodeLocation) (s : Q) : Prop :=
  inRange (x r) s /\ inRange (y r) s /\ inRange (width r) s /\ inRange (height r) s.

Definition rectExactAt (r : QrCodeLocation) (s : Q) : Prop :=
  exactAt (x r) s /\ exactAt (y r) s /\ exactAt (width r) s /\ exactAt (height r) s.

(** The [location] of the record that the jsQR extraction pushes for a
    detection, as the source computes it: the top-left corner and the two
    differences [qrWidth] and [qrHeight], each divided by the detection
    scale. *)
Definition locationOf (code : JsQr.Code) : Rect :=
  let x0 := Finite (JsQr.pt_x (JsQr.topLeftCorner (JsQr.code_location code))) in
  let y0 := Finite (JsQr.pt_y (JsQr.topLeftCorner (JsQr.code_location code))) in
  let qrWidth :=
    sub (Finite (JsQr.pt_x (JsQr.topRightCorner (JsQr.code_location code)))) x0 in
  let qrHeight :=
    sub (Finite (JsQr.pt_y (JsQr.bottomLeftCorner (JsQr.code_location code)))) y0 in
  toNative {| rx := x0; ry := y0; rwidth := qrWidth; rheight := qrHeight |}
           (Finite JsQr.scale).

(** The value of a primitive binary64 float, used to compare [round64]
    with the arithmetic of the machine. *)
Definition ofFloat (f : float) : JsNumber :=
  match Prim2SF f with
  | S754_zero _ => Finite 0
  | S754_infinity s => if s then NegInfinity else PosInfinity
  | S754_nan => NaN
  | S754_finite s m e =>
      Finite ((if s then -1 else 1) * inject_Z (Zpos m) * pow2 e)
  end.

(** Numbers of the examples: the largest binary64 value, the binary64
    value nearest to one tenth, and the smallest positive one. *)
Definition maxValue : Q := inject_Z ((2 ^ 53 - 1) * 2 ^ 971).
Definition tenth : Q := 3602879701896397 # (2 ^ 55).
Definition minValue : Q := pow2 (-1074).

(** Rectangles of the examples: a rectangle at the far end of the range,
    and an ordinary one with a tenth as a coordinate. *)
Definition farRect : QrCodeLocation :=
  {| x := maxValue; y := 0; width := 100; height := 100 |}.

Definition tenthRect : QrCodeLocation :=
  {| x := tenth; y := 50; width := 100; height := 100 |}.

Definition evenRect : QrCodeLocation :=
  {| x := 803 # 8; y := 50; width := 100; height := 100 |}.

End Binary64.

(** ** [generateQrCodeDataUrl] and [replaceQrCodeInPdf] (the same in
    every revision of the service) *)
Module Replace.

(** jsPDF orientations: ['l'] is [Landscape], ['p'] is [Portrait]. *)
Inductive Orientation : Type :=
| Landscape
| Portrait.

(** The options that [generateQrCodeDataUrl(url, customization, scale)]
    hands to [QRCode.toDataURL]; [width] is [customization.size * scale],
    kept as its two factors. *)
Record QrOptions : Type := {
  qr_errorCorrectionLevel : string;
  qr_width : JsValue * Q;
  qr_margin : Z;
  qr_dark : JsValue;
  qr_light : JsValue;
}.

(** [customization.size], [customization.color],
    [customization.backgroundColor] of the object held by the caller. *)
Definition field (customization : Json) (key : string) : JsValue :=
  match getProp customization key with
  | Normal v => v
  | Throw _ => None
  end.

Definition qrOptions (customization : Json) (scale : Q) : QrOptions :=
  {| qr_errorCorrectionLevel := "H";
     qr_width := (field customization "size", scale);
     qr_margin := 1;
     qr_dark := field customization "color";
     qr_light := field customization "backgroundColor" |}.

(** [ctx.drawImage(image, dx, dy, dWidth, dHeight)]; the image is named
    by the data URL it was loaded from. *)
Record DrawImage : Type := {
  di_image : string;
  di_x : Q;
  di_y : Q;
  di_width : JsValue;
  di_height : JsValue;
}.

(** A page canvas: the page rendered at scale 1.0 and, on the page of the
    replaced code, the new code drawn over it. *)
Record PageCanvas : Type := {
  pc_page : PdfPage;
  pc_overlay : option DrawImage;
}.

(** [newPdf.addImage(pageDataUrl, 'JPEG', x, y, w, h)] *)
Record AddedImage : Type := {
  ai_canvas : PageCanvas;
  ai_x : Q;
  ai_y : Q;
  ai_width : Q;
  ai_height : Q;
}.

Record OutputPage : Type := {
  format : Q * Q;
  orientation : Orientation;
  images : list AddedImage;
}.

(** [a > b] on numbers. *)
Definition gt (a b : Q) : bool := negb (Qle_bool a b).

Definition orientationOf (w h : Q) : Orientation := if gt w h then Landscape else Portrait.

(** [new jsPDF({ orientation, unit: 'pt', format })]: a document with one
    page. *)
Definition jsPDF (o : Orientation) (fmt : Q * Q) : list OutputPage :=
  [ {| format := fmt; orientation := o; images := [] |} ].

Definition addPage (newPdf : list OutputPage) (fmt : Q * Q) (o : Orientation)
  : list OutputPage :=
  newPdf ++ [ {| format := fmt; orientation := o; images := [] |} ].

(** [addImage] draws on the current page, the last one added. *)
Fixpoint addImage (newPdf : list OutputPage) (img : AddedImage) : list OutputPage :=
  match newPdf with
  | [] => []
  | [pg] => [ {| format := format pg; orientation := orientation pg;
                 images := images pg ++ [img] |} ]
  | pg :: rest => pg :: addImage rest img
  end.

(** The [drawImage] of the replacement: at the stored native position,
    [customization.size] wide and high. *)
Definition replacementDraw (qrToReplace : QrCodeInfo) (newQrImg : string)
  (customization : Json) : DrawImage :=
  {| di_image := newQrImg;
     di_x := x (location qrToReplace);
     di_y := y (location qrToReplace);
     di_width := field customization "size";
     di_height := field customization "size" |}.

Section Library.

(** [window.QRCode]: [None] when the library is not loaded, otherwise its
    [toDataURL], whose promise resolves with a data URL or rejects (the
    text does not fit a code of level H, the options are refused).
    [imageLoads src]: an [Image] given this [src] fires [onload] and not
    [onerror]. *)
Variable QRCode : option (string -> QrOptions -> Completion string).
Variable imageLoads : string -> bool.

Definition generateQrCodeDataUrl (url : string) (customization : Json) (scale : Q)
  : Completion string :=
  match QRCode with
  | None => Throw "QRCode generation library not loaded."
  | Some toDataURL => toDataURL url (qrOptions customization scale)
  end.

(** [await new Promise((resolve, reject) => { img.onload = () => resolve();
    img.onerror = reject; img.src = src })]; the rejection carries the
    error event. *)
Definition loadImage (src : string) : Completion string :=
  if imageLoads src then Normal src else Throw "error event".

(** The [for (let i = 1; i <= pdfDoc.numPages; i++)] loop. *)
Fixpoint replaceLoop (i : nat) (pages : list PdfPage) (qrToReplace : QrCodeInfo)
  (newQrDataUrl : string) (customization : Json) (newPdf : list OutputPage)
  : Completion (list OutputPage) :=
  match pages with
  | [] => Normal newPdf
  | page :: rest =>
      let viewport := getViewport page 1.0 in
      let newPdf1 :=
        if (1 <? i)%nat
        then addPage newPdf (vp_width viewport, vp_height viewport)
                     (orientationOf (vp_width viewport) (vp_height viewport))
        else newPdf in
      bind (if (i =? pageNumber qrToReplace)%nat
            then bind (loadImage newQrDataUrl)
                   (fun newQrImg =>
                      Normal (Some (replacementDraw qrToReplace newQrImg customization)))
            else Normal None)
        (fun overlay =>
           replaceLoop (S i) rest qrToReplace newQrDataUrl customization
             (addImage newPdf1
                {| ai_canvas := {| pc_page := page; pc_overlay := overlay |};
                   ai_x := 0; ai_y := 0;
                   ai_width := vp_width viewport; ai_height := vp_height viewport |}))
  end.

Definition replaceQrCodeInPdf (pdfDoc : list PdfPage) (qrToReplace : QrCodeInfo)
  (newUrl : string) (customization : Json) : Completion (list OutputPage) :=
  let newPdf :=
    jsPDF (orientationOf (pageWidth qrToReplace) (pageHeight qrToReplace))
          (pageWidth qrToReplace, pageHeight qrToReplace) in
  bind (generateQrCodeDataUrl newUrl customization 2)
    (fun newQrDataUrl =>
       replaceLoop 1 pdfDoc qrToReplace newQrDataUrl customization newPdf).

End Library.

(** The native size and orientation the output page of [page] should have. *)
Definition sameSizeAndOrientation (out : OutputPage) (page : PdfPage) : Prop :=
  fst (format out) == view_width page /\
  snd (format out) == view_height page /\
  orientation out = orientationOf (view_width page) (view_height page).

(** Size and orientation of an output page, and those of a page added
    by the loop from the viewport at scale 1.0. *)
Definition shape (out : OutputPage) : Q * Q * Orientation :=
  (format out, orientation out).

Definition viewportShape (page : PdfPage) : Q * Q * Orientation :=
  let viewport := getViewport page 1.0 in
  ((vp_width viewport, vp_height viewport),
   orientationOf (vp_width viewport) (vp_height viewport)).

(** A document whose first page is portrait and whose second page is
    landscape, and a code found on the second page. *)
Definition landscapePage : PdfPage :=
  {| view_width := 800; view_height := 600; page_content := 1 |}.

Definition mixedDocument : list PdfPage := [samplePage; landscapePage].

Definition codeOnSecondPage : QrCodeInfo :=
  {| id := (2%nat, 150, 150);
     data := "https://example.com";
     imageDataUrl := {| x := 150; y := 150; width := 300; height := 300 |};
     location := {| x := 50; y := 50; width := 100; height := 100 |};
     pageNumber := 2;
     pageWidth := 800;
     pageHeight := 600 |}.

Definition defaultCustomization : Json :=
  JObject [("color", JString "#000000");
           ("backgroundColor", JString "#FFFFFF");
           ("size", JNumber (Finite 100))].

(** Stand-ins for the generator: one that resolves for every text, one
    that rejects a text of more than 1000 characters; and images that
    load. *)
Definition workingQRCode : option (string -> QrOptions -> Completion string) :=
  Some (fun url options => Normal ("data:image/png;qr=" ++ url)%string).

Definition boundedQRCode : option (string -> QrOptions -> Completion string) :=
  Some (fun url options =>
          if (1000 <? String.length url)%nat
          then Throw "The amount of data is too big to be stored in a QR Code"
          else Normal ("data:image/png;qr=" ++ url)%string).

Definition everyImageLoads (src : string) : bool := true.

End Replace.

(** ** App.tsx: the file-batch handler, the settings import *)
Module App.

Record File : Type := {
  name : string;
  type : string;
  lastModified : Z;
  file_content : nat;
}.

(** [{ file, qrCodes, id }]; the [id] template
    [`${file.name}-${file.lastModified}`] is kept as its components. *)
Record ProcessedFile : Type := {
  file : File;
  qrCodes : list QrCodeInfo;
  pf_id : string * Z;
}.

(** The reason of a rejected promise, of which the handler reads
    [message] (absent when the reason is not an [Error]). *)
Record Reason : Type := {
  message : option string;
}.

(** An element of the array [Promise.allSettled] resolves to. *)
Inductive Settled (A : Type) : Type :=
| fulfilled (value : A)
| rejected (reason : Reason).
Arguments fulfilled {A} value.
Arguments rejected {A} reason.

(** [promise.then(f)] *)
Definition then_ {A B : Type} (pr : Settled A) (f : A -> B) : Settled B :=
  match pr with
  | fulfilled v => fulfilled (f v)
  | rejected r => rejected r
  end.

(** String helpers. [toLowerCase] maps the letters A-Z; no other
    character lowers to one of [.pdf], the only use made of it. *)
Definition lowerAscii (c : ascii) : ascii :=
  let n := nat_of_ascii c in
  if ((65 <=? n) && (n <=? 90))%nat then ascii_of_nat (n + 32) else c.

Fixpoint toLowerCase (s : string) : string :=
  match s with
  | EmptyString => EmptyString
  | String c rest => String (lowerAscii c) (toLowerCase rest)
  end.

Definition startsWith (s pre : string) : bool := String.prefix pre s.

Definition endsWith (s suffix : string) : bool :=
  let n := String.length s in
  let m := String.length suffix in
  if (m <=? n)%nat then String.eqb (String.substring (n - m) m s) suffix else false.

Fixpoint trimStart (s : string) : string :=
  match s with
  | EmptyString => EmptyString
  | String c rest => if Ascii.is_space c then trimStart rest else s
  end.

Definition trim (s : string) : string :=
  String.rev (trimStart (String.rev (trimStart s))).

Definition isPdf (f : File) : bool :=
  String.eqb (type f) "application/pdf" || endsWith (toLowerCase (name f)) ".pdf".

Definition isImage (f : File) : bool := startsWith (type f) "image/".

(** The state set by the handlers modelled here (the loading caption,
    the preview modal and the URL field are left out). *)
Record AppState : Type := {
  processedFiles : list ProcessedFile;
  selectedQr : option ((string * Z) * (nat * Q * Q));
  isLoading : bool;
  error : option string;
  modifiedFileUrl : option string;
  customization : Json;
}.

Definition initialState : AppState :=
  {| processedFiles := [];
     selectedQr := None;
     isLoading := false;
     error := None;
     modifiedFileUrl := None;
     customization :=
       JObject [("color", JString "#000000");
                ("backgroundColor", JString "#FFFFFF");
                ("size", JNumber (Finite 100))] |}.

Definition setError (st : AppState) (e : option string) : AppState :=
  {| processedFiles := processedFiles st; selectedQr := selectedQr st;
     isLoading := isLoading st; error := e;
     modifiedFileUrl := modifiedFileUrl st; customization := customization st |}.

Definition setCustomization (st : AppState) (c : Json) : AppState :=
  {| processedFiles := processedFiles st; selectedQr := selectedQr st;
     isLoading := isLoading st; error := error st;
     modifiedFileUrl := modifiedFileUrl st; customization := c |}.

Definition setProcessedFiles (st : AppState) (fs : list ProcessedFile) : AppState :=
  {| processedFiles := fs; selectedQr := selectedQr st;
     isLoading := isLoading st; error := error st;
     modifiedFileUrl := modifiedFileUrl st; customization := customization st |}.

Definition setIsLoading (st : AppState) (b : bool) : AppState :=
  {| processedFiles := processedFiles st; selectedQr := selectedQr st;
     isLoading := b; error := error st;
     modifiedFileUrl := modifiedFileUrl st; customization := customization st |}.

Definition resetState (st : AppState) : AppState :=
  {| processedFiles := []; selectedQr := None; isLoading := false; error := None;
     modifiedFileUrl := None; customization := customization st |}.

(** [result.reason.message || 'Невідома помилка'] *)
Definition messageOr (r : Reason) : string :=
  match message r with
  | Some m => if String.eqb m "" then "Невідома помилка" else m
  | None => "Невідома помилка"
  end.

(** One step of [settledResults.forEach((result, index) => ...)] on the
    pair (successfulFiles, failedFileMessages). *)
Definition collectStep (acc : list ProcessedFile * list string)
  (entry : Settled ProcessedFile * File) : list ProcessedFile * list string :=
  match fst entry with
  | fulfilled v => (fst acc ++ [v], snd acc)
  | rejected r =>
      (fst acc, snd acc ++ [(name (snd entry) ++ ": " ++ messageOr r)%string])
  end.

Definition currentError (successfulFiles : list ProcessedFile)
  (failedFileMessages : list string) : string :=
  let e0 :=
    if (0 <? length failedFileMessages)%nat
    then ("Не вдалося обробити деякі файли: "
            ++ String.concat "; " failedFileMessages ++ ". ")%string
    else ""%string in
  if ((length successfulFiles =? 0) && (0 <? length failedFileMessages))%nat
  then ("Не вдалося обробити жодного з вибраних файлів. " ++ e0)%string
  else if ((0 <? length successfulFiles)%nat
           && forallb (fun res => (length (qrCodes res) =? 0)%nat) successfulFiles)
  then (e0 ++ "QR-кодів не знайдено в жодному з успішно оброблених файлів.")%string
  else e0.

(** What a settled promise contributes to [successfulFiles] and to
    [failedFileMessages]. *)
Definition fulfilledValue (pr : Settled ProcessedFile) : option ProcessedFile :=
  match pr with
  | fulfilled v => Some v
  | rejected _ => None
  end.

Definition failureEntry (f : File) (pr : Settled ProcessedFile) : option string :=
  match pr with
  | fulfilled _ => None
  | rejected r => Some (name f ++ ": " ++ messageOr r)%string
  end.

(** The string has a character that [trim] does not remove. *)
Fixpoint hasInk (s : string) : bool :=
  match s with
  | EmptyString => false
  | String c rest => negb (Ascii.is_space c) || hasInk rest
  end.

Section Handlers.

(** What the extraction promises of the services settle to for a file. *)
Variable extractQrCodesFromPdf : File -> Settled (list QrCodeInfo).
Variable extractQrCodesFromImage : File -> Settled (list QrCodeInfo).

(** The promise built for one file by [fileList.map(file => ...)]. *)
Definition processPromise (f : File) : Settled ProcessedFile :=
  if isPdf f then
    then_ (extractQrCodesFromPdf f)
      (fun qrs => {| file := f; qrCodes := qrs; pf_id := (name f, lastModified f) |})
  else if isImage f then
    then_ (extractQrCodesFromImage f)
      (fun qrs => {| file := f; qrCodes := qrs; pf_id := (name f, lastModified f) |})
  else rejected {| message := Some ("Непідтримуваний тип файлу: " ++ name f)%string |}.

Definition settledResults (fileList : list File) : list (Settled ProcessedFile) :=
  map processPromise fileList.

Definition collected (fileList : list File) : list ProcessedFile * list string :=
  fold_left collectStep (combine (settledResults fileList) fileList) ([], []).

Definition successfulFiles (fileList : list File) : list ProcessedFile :=
  fst (collected fileList).

Definition failedFileMessages (fileList : list File) : list string :=
  snd (collected fileList).

Definition handleFileChange (st : AppState) (files : list File) : AppState :=
  match files with
  | [] => st
  | _ =>
      let st1 := setIsLoading (resetState st) true in
      let st2 := setProcessedFiles st1 (successfulFiles files) in
      let e := trim (currentError (successfulFiles files) (failedFileMessages files)) in
      let st3 := setError st2 (if String.eqb e "" then None else Some e) in
      setIsLoading st3 false
  end.

(** The settings import. [JSON.parse] is [None] when it throws. *)
Variable JSON_parse : string -> option Json.
Variable readAsText : File -> option string.

(** [settings.color && settings.backgroundColor && typeof settings.size === 'number'] *)
Definition settingsCondition (settings : Json) : Completion bool :=
  bind (getProp settings "color") (fun color =>
  if truthy color then
    bind (getProp settings "backgroundColor") (fun backgroundColor =>
    if truthy backgroundColor then
      bind (getProp settings "size") (fun size => Normal (typeofIsNumber size))
    else Normal false)
  else Normal false).

(** [reader.onload]: the [try] block and its [catch]. *)
Definition onload (st : AppState) (result : option string) : AppState :=
  match result with
  | None => setError st (Some "Не вдалося прочитати файл налаштувань.")
  | Some text =>
      match JSON_parse text with
      | None => setError st (Some "Не вдалося прочитати файл налаштувань.")
      | Some settings =>
          match settingsCondition settings with
          | Normal true => setCustomization st settings
          | Normal false => setError st (Some "Невірний формат файлу налаштувань.")
          | Throw _ => setError st (Some "Не вдалося прочитати файл налаштувань.")
          end
      end
  end.

Definition handleSettingsFileChange (st : AppState) (files : list File) : AppState :=
  match files with
  | [] => st
  | f :: _ => onload st (readAsText f)
  end.

End Handlers.

(** Stand-ins used in the examples: settings files and a parser that
    knows them, a batch of three files and extractions that succeed. *)
Definition dq : string := String (ascii_of_nat 34) EmptyString.

Definition quoted (s : string) : string := (dq ++ s ++ dq)%string.

Definition settingsWithoutSize : string :=
  ("{" ++ quoted "color" ++ ":" ++ quoted "#111111" ++ ","
       ++ quoted "backgroundColor" ++ ":" ++ quoted "#eeeeee" ++ "}")%string.

Definition settingsWithNegativeSize : string :=
  ("{" ++ quoted "color" ++ ":" ++ quoted "#111111" ++ ","
       ++ quoted "backgroundColor" ++ ":" ++ quoted "#eeeeee" ++ ","
       ++ quoted "size" ++ ":-5,"
       ++ quoted "note" ++ ":" ++ quoted "kept" ++ "}")%string.

Definition parseStandIn (text : string) : option Json :=
  if String.eqb text settingsWithoutSize then
    Some (JObject [("color", JString "#111111"); ("backgroundColor", JString "#eeeeee")])
  else if String.eqb text settingsWithNegativeSize then
    Some (JObject [("color", JString "#111111"); ("backgroundColor", JString "#eeeeee");
                   ("size", JNumber (Finite (-5))); ("note", JString "kept")])
  else None.

Definition reportPdf : File :=
  {| name := "report.PDF"; type := ""; lastModified := 1700000000000;
     file_content := 1 |}.

Definition notesTxt : File :=
  {| name := "notes.txt"; type := "text/plain"; lastModified := 1700000000001;
     file_content := 2 |}.

Definition photoPng : File :=
  {| name := "photo.png"; type := "image/png"; lastModified := 1700000000002;
     file_content := 3 |}.

Definition foundCode : QrCodeInfo :=
  {| id := (1%nat, 150, 150);
     data := "https://example.com";
     imageDataUrl := {| x := 150; y := 150; width := 300; height := 300 |};
     location := {| x := 50; y := 50; width := 100; height := 100 |};
     pageNumber := 1;
     pageWidth := 600;
     pageHeight := 800 |}.

Definition extractStandIn (f : File) : Settled (list QrCodeInfo) :=
  fulfilled [foundCode].

End App.

(** ** Auxiliary notions for the properties of the services *)
Module Facts.

(** Index [j] of the data is one of the three colour channels of an
    in-image pixel of the padded box of [l]. *)
Definition coveredIndex (imageData : JsQr.ImageData) (l : JsQr.Location) (j : nat) : Prop :=
  exists xP yP c : Z,
    (JsQr.minX l <= xP < JsQr.maxX l)%Z /\ (JsQr.minY l <= yP < JsQr.maxY l)%Z
    /\ (0 <= xP < JsQr.img_width imageData)%Z
    /\ (0 <= yP < JsQr.img_height imageData)%Z
    /\ (0 <= c <= 2)%Z
    /\ j = Z.to_nat ((yP * JsQr.img_width imageData + xP) * 4 + c).

(** What is true of a record found on page number [n], whose native page
    is [page], at detection scale [scale]. *)
Definition recordOfPage (scale : Q) (n : nat) (page : PdfPage) (info : QrCodeInfo) : Prop :=
  pageNumber info = n
  /\ pageWidth info == view_width page
  /\ pageHeight info == view_height page
  /\ location info = toNative (imageDataUrl info) scale
  /\ id info = (n, x (imageDataUrl info), y (imageDataUrl info)).


End Facts.

(** ** Auxiliary notions for the output of [replaceQrCodeInPdf] *)
Module ReplaceFacts.

Import Replace.

(** The image that round [i] of the loop adds for [page]: the page canvas
    at scale 1.0, with the replacement on the page of the code, placed at
    the origin with the size of the viewport. *)
Definition roundImage (qrToReplace : QrCodeInfo) (newQrDataUrl : string)
  (customization : Json) (i : nat) (page : PdfPage) : AddedImage :=
  {| ai_canvas :=
       {| pc_page := page;
          pc_overlay :=
            if (i =? pageNumber qrToReplace)%nat
            then Some (replacementDraw qrToReplace newQrDataUrl customization)
            else None |};
     ai_x := 0; ai_y := 0;
     ai_width := vp_width (getViewport page 1.0);
     ai_height := vp_height (getViewport page 1.0) |}.

(** The pages that the rounds [i], [i + 1], ... add when [i > 1]. *)
Fixpoint laterPages (qrToReplace : QrCodeInfo) (newQrDataUrl : string)
  (customization : Json) (i : nat) (pages : list PdfPage) : list OutputPage :=
  match pages with
  | [] => []
  | page :: rest =>
      {| format := (vp_width (getViewport page 1.0), vp_height (getViewport page 1.0));
         orientation := orientationOf (vp_width (getViewport page 1.0))
                                      (vp_height (getViewport page 1.0));
         images := [roundImage qrToReplace newQrDataUrl customization i page] |}
      :: laterPages qrToReplace newQrDataUrl customization (S i) rest
  end.

(** The replacements drawn in a document, in page order. *)
Definition overlayList (newPdf : list OutputPage) : list DrawImage :=
  concat (map (fun pg => omap (fun img => pc_overlay (ai_canvas img)) (images pg)) newPdf).

End ReplaceFacts.

(** ** Previews and the replacement in a standalone image:
    [generatePreviewPageAsDataUrl], [modifyImage],
    [generatePreviewImageAsDataUrl], [replaceQrCodeInImage] *)
Module Preview.

(** ToNumber on what [customization.size] can hold. The conversions of
    strings and of arrays go through the string grammar of numbers and are
    parameters; a plain object converts to NaN. *)
Definition toNumber (stringToNumber : string -> JsNumber)
  (arrayToNumber : list Json -> JsNumber) (v : JsValue) : JsNumber :=
  match v with
  | None => NaN
  | Some JNull => Finite 0
  | Some (JBool b) => Finite (if b then 1 else 0)
  | Some (JNumber n) => n
  | Some (JString s) => stringToNumber s
  | Some (JArray items) => arrayToNumber items
  | Some (JObject _) => NaN
  end.

(** [ctx.drawImage(newQrImg, dx, dy, dWidth, dHeight)] with computed
    arguments; the image is named by the data URL it was loaded from. *)
Record ScaledDraw : Type := {
  sd_image : string;
  sd_rect : Binary64.Rect;
}.

(** The preview canvas of a page: the page rendered with the viewport of
    [pv_scale], and the replacement drawn on it. *)
Record PagePreview : Type := {
  pv_page : PdfPage;
  pv_scale : Q;
  pv_draw : ScaledDraw;
}.

(** The canvas made by [modifyImage]: its stored width and height, the
    image drawn over the whole of it, then the replacement. *)
Record ImageCanvas : Type := {
  ic_image : ZXing.Image;
  ic_width : Z;
  ic_height : Z;
  ic_draw : ScaledDraw;
}.

(** [pdfDoc.getPage(n)] rejects a number that is not a page. *)
Definition getPage (pdfDoc : list PdfPage) (n : nat) : Completion PdfPage :=
  match n with
  | O => Throw "Invalid page request."
  | S k =>
      match pdfDoc !! k with
      | Some page => Normal page
      | None => Throw "Invalid page request."
      end
  end.

Section Library.

Variable QRCode : option (string -> Replace.QrOptions -> Completion string).
Variable imageLoads : string -> bool.
Variable stringToNumber : string -> JsNumber.
Variable arrayToNumber : list Json -> JsNumber.

(** [loadImageFromFile(file)], and the integer that a canvas stores when
    a number is assigned to its [width] or [height]. *)
Variable loadImageFromFile : App.File -> Completion ZXing.Image.
Variable canvasSize : JsNumber -> Z.

Definition sizeOf (customization : Json) : JsNumber :=
  toNumber stringToNumber arrayToNumber (Replace.field customization "size").

(** The arguments
    [(location.x * scale, location.y * scale, size * scale, size * scale)]
    of the [drawImage] of a preview: the rectangle of the replacement
    mapped to pixels at [scale]. *)
Definition drawnRect (qrToReplace : QrCodeInfo) (customization : Json) (scale : Q)
  : Binary64.Rect :=
  Binary64.toPixelsAtScale
    {| Binary64.rx := Finite (x (location qrToReplace));
       Binary64.ry := Finite (y (location qrToReplace));
       Binary64.rwidth := sizeOf customization;
       Binary64.rheight := sizeOf customization |}
    (Finite scale).

Definition generatePreviewPageAsDataUrl (pdfDoc : list PdfPage)
  (qrToReplace : QrCodeInfo) (newUrl : string) (customization : Json)
  : Completion PagePreview :=
  match QRCode with
  | None => Throw "PDF processing libraries (pdf.js or QRCode) not loaded."
  | Some _ =>
      if (length pdfDoc <? pageNumber qrToReplace)%nat
      then Throw "Page number is out of bounds."
      else
        bind (Replace.generateQrCodeDataUrl QRCode newUrl customization 2)
          (fun newQrDataUrl =>
        bind (getPage pdfDoc (pageNumber qrToReplace))
          (fun page =>
        bind (Replace.loadImage imageLoads newQrDataUrl)
          (fun newQrImg =>
             Normal {| pv_page := page;
                       pv_scale := 1.5;
                       pv_draw := {| sd_image := newQrImg;
                                     sd_rect := drawnRect qrToReplace customization 1.5 |} |})))
  end.

Definition modifyImage (file : App.File) (qrToReplace : QrCodeInfo)
  (newUrl : string) (customization : Json) (scale : Q) : Completion ImageCanvas :=
  match QRCode with
  | None => Throw "QRCode generation library not loaded."
  | Some _ =>
      bind (loadImageFromFile file)
        (fun image =>
      bind (Replace.generateQrCodeDataUrl QRCode newUrl customization 2)
        (fun newQrDataUrl =>
      bind (Replace.loadImage imageLoads newQrDataUrl)
        (fun newQrImg =>
           Normal {| ic_image := image;
                     ic_width :=
                       canvasSize (Binary64.mul (Finite (ZXing.image_width image))
                                                (Finite scale));
                     ic_height :=
                       canvasSize (Binary64.mul (Finite (ZXing.image_height image))
                                                (Finite scale));
                     ic_draw := {| sd_image := newQrImg;
                                   sd_rect := drawnRect qrToReplace customization scale |} |})))
  end.

Definition generatePreviewImageAsDataUrl (file : App.File)
  (qrToReplace : QrCodeInfo) (newUrl : string) (customization : Json)
  : Completion ImageCanvas :=
  modifyImage file qrToReplace newUrl customization 1.5.

(** [replaceQrCodeInImage]; [blobCreated] tells whether [canvas.toBlob]
    handed over a blob. *)
Definition replaceQrCodeInImage (blobCreated : bool) (file : App.File)
  (qrToReplace : QrCodeInfo) (newUrl : string) (customization : Json)
  : Completion ImageCanvas :=
  bind (modifyImage file qrToReplace newUrl customization 1.0)
    (fun canvas =>
       if blobCreated then Normal canvas
       else Throw "Failed to create blob from canvas").

End Library.

(** Stand-ins for the string conversions in the examples. *)
Definition noStrings (s : string) : JsNumber := NaN.
Definition noArrays (items : list Json) : JsNumber := NaN.

End Preview.

(** ** Auxiliary notions for the messages, the settings import and the
    download name *)
Module AppFacts.

(** A record that the import accepts: an object with truthy [color] and
    [backgroundColor] and a [size] of type number. *)
Definition acceptable (settings : Json) : Prop :=
  exists fields c b n,
    settings = JObject fields
    /\ lookupField "color" fields = Some c /\ truthy (Some c) = true
    /\ lookupField "backgroundColor" fields = Some b /\ truthy (Some b) = true
    /\ lookupField "size" fields = Some (JNumber n).

(** [sub] occurs in [s]. *)
Definition includes (s sub : string) : Prop :=
  exists before after, s = (before ++ sub ++ after)%string.

End AppFacts.

(** ** The name of the downloaded file ([handleConfirmReplace]) *)
Module Download.

(** The character occurs in the string. *)
Fixpoint hasChar (c : ascii) (s : string) : bool :=
  match s with
  | EmptyString => false
  | String c' rest => Ascii.eqb c c' || hasChar c rest
  end.

(** What follows the last ['.'] of the string, if it has one. *)
Fixpoint afterLastDot (s : string) : option string :=
  match s with
  | EmptyString => None
  | String c rest =>
      match afterLastDot rest with
      | Some t => Some t
      | None => if Ascii.eqb c "." then Some rest else None
      end
  end.

(** What precedes the last ['.'] of the string (the string itself if it
    has none). *)
Fixpoint beforeLastDot (s : string) : string :=
  match s with
  | EmptyString => EmptyString
  | String c rest =>
      match afterLastDot rest with
      | Some _ => String c (beforeLastDot rest)
      | None => if Ascii.eqb c "." then EmptyString else String c (beforeLastDot rest)
      end
  end.

(** [name.split('.').pop() || 'file'] *)
Definition extension (name : string) : string :=
  let last := match afterLastDot name with
              | Some t => t
              | None => name
              end in
  if String.eqb last "" then "file"%string else last.

(** [name.replace(/\.[^/.]+$/, "")]: the pattern can only match at the
    last dot, and does when what follows is not empty and has no ['/']. *)
Definition withoutExtension (name : string) : string :=
  match afterLastDot name with
  | Some t => if String.eqb t "" || hasChar "/" t then name else beforeLastDot name
  | None => name
  end.

(** [`modified_${...}.${extension}`] *)
Definition filename (name : string) : string :=
  ("modified_" ++ withoutExtension name ++ "." ++ extension name)%string.

End Download.

(** ** The first revision of the service: one detection per page *)
Module FirstService.

Definition scale : Q := 2.

Definition qrCodeInfo (i : nat) (viewport : Viewport) (code : JsQr.Code) : QrCodeInfo :=
  let box := JsQr.pixelBox code in
  {| id := (i, x box, y box);
     data := JsQr.code_data code;
     imageDataUrl := box;
     location := {| x := x box / 2; y := y box / 2;
                    width := width box / 2; height := height box / 2 |};
     pageNumber := i;
     pageWidth := vp_width viewport / 2;
     pageHeight := vp_height viewport / 2 |}.

Section Service.

Variable jsQR : list Z -> Z -> Z -> option JsQr.Code.
Variable getImageData : PdfPage -> Q -> JsQr.ImageData.

(** The [for] loop over the pages: one call of the detector per page. *)
Fixpoint pagesLoop (i : nat) (pages : list PdfPage) (qrCodes : list QrCodeInfo)
  : list QrCodeInfo :=
  match pages with
  | [] => qrCodes
  | page :: rest =>
      let viewport := getViewport page 2 in
      let imageData := getImageData page 2 in
      match jsQR (JsQr.img_data imageData) (JsQr.img_width imageData)
                 (JsQr.img_height imageData) with
      | Some code => pagesLoop (S i) rest (qrCodes ++ [qrCodeInfo i viewport code])
      | None => pagesLoop (S i) rest qrCodes
      end
  end.

Definition extractQrCodesFromPdf (pdf : list PdfPage) : list QrCodeInfo :=
  pagesLoop 1 pdf [].

End Service.

End FirstService.

From stdpp Require pretty.

(** ** The first revision of App.tsx: PDF files only *)
Module FirstApp.

Import App.

(** One step of [outcomes.forEach((outcome, index) => ...)] on the pair
    (successfulResults, failedFiles). *)
Definition collectStep (acc : list ProcessedFile * list File)
  (entry : Settled ProcessedFile * File) : list ProcessedFile * list File :=
  match fst entry with
  | fulfilled v => (fst acc ++ [v], snd acc)
  | rejected _ => (fst acc, snd acc ++ [snd entry])
  end.

(** [outcome.status] is ['rejected']. *)
Definition isRejected {A : Type} (pr : Settled A) : bool :=
  match pr with
  | fulfilled _ => false
  | rejected _ => true
  end.

Section Handlers.

(** The first five bytes of the file as characters, [None] when reading
    them fails; and the extraction promise of a file. *)
Variable header : File -> option string.
Variable extractQrCodesFromPdf : File -> Settled (list QrCodeInfo).

Definition isPdfFile (f : File) : bool :=
  if endsWith (toLowerCase (name f)) ".pdf" || String.eqb (type f) "application/pdf"
  then true
  else match header f with
       | Some h => String.eqb h "%PDF-"
       | None => false
       end.

Definition outcome (f : File) : Settled ProcessedFile :=
  then_ (extractQrCodesFromPdf f)
    (fun qrs => {| file := f; qrCodes := qrs; pf_id := (name f, lastModified f) |}).

Definition collected (pdfFiles : list File) : list ProcessedFile * list File :=
  fold_left collectStep (combine (map outcome pdfFiles) pdfFiles) ([], []).

Definition handleFileChange (st : AppState) (files : list File) : AppState :=
  match files with
  | [] => setError st (Some "Будь ласка, виберіть хоча б один PDF файл.")
  | _ =>
      let st1 := setIsLoading (setError (resetState st) None) true in
      let pdfFiles := List.filter isPdfFile files in
      match pdfFiles with
      | [] =>
          setIsLoading
            (setIsLoading
               (setError st1
                  (Some "У вашому виборі не знайдено файлів PDF. Будь ласка, спробуйте ще раз."))
               false)
            false
      | _ =>
          let successfulResults := fst (collected pdfFiles) in
          let failedFiles := snd (collected pdfFiles) in
          let st2 :=
            if (length successfulResults =? 0)%nat
            then setError st1
                   (Some "Не вдалося обробити жодного PDF файлу. Переконайтеся, що файли не пошкоджено.")
            else
              let st' := setProcessedFiles st1 successfulResults in
              if (0 <? length failedFiles)%nat
              then setError st'
                     (Some ("Попередження: Не вдалося обробити "
                              ++ pretty.pretty (length failedFiles) ++ " файл(и).")%string)
              else st' in
          setIsLoading st2 false
      end
  end.

End Handlers.

(** A file that is a PDF by its first bytes only, for the examples. *)
Definition unnamedPdf : File :=
  {| name := "download"; type := ""; lastModified := 1700000000003; file_content := 4 |}.

Definition headerStandIn (f : File) : option string :=
  if String.eqb (name f) "download" then Some "%PDF-"%string else Some "hello"%string.

End FirstApp.

(** ** The customization controls of App.tsx *)
Module Customize.

Import App.

(** [Math.round] *)
Definition mathRound (q : Q) : Z := Qfloor (q + (1 # 2)).

Section Controls.

(** The own enumerable entries of a string or an array, which a spread
    copies; and [parseInt(value, 10)], [None] for NaN. *)
Variable indexedEntries : Json -> list (string * Json).
Variable parseInt : string -> option Z.

(** The entries that [{...value}] copies. *)
Definition spread (value : Json) : list (string * Json) :=
  match value with
  | JObject fields => fields
  | JString _ => indexedEntries value
  | JArray _ => indexedEntries value
  | _ => []
  end.

(** [{...customization, key: v}]: the new entry comes last, so that it
    overrides an entry of the same key. *)
Definition withField (customization : Json) (key : string) (v : Json) : Json :=
  JObject (spread customization ++ [(key, v)]).

Definition numberOfParse (r : option Z) : JsNumber :=
  match r with
  | Some z => Finite (inject_Z z)
  | None => NaN
  end.

(** The colour pickers. *)
Definition onColorChange (st : AppState) (value : string) : AppState :=
  setCustomization st (withField (customization st) "color" (JString value)).

Definition onBackgroundColorChange (st : AppState) (value : string) : AppState :=
  setCustomization st (withField (customization st) "backgroundColor" (JString value)).

(** The range input: the size becomes whatever [parseInt] gives. *)
Definition onSizeRangeChange (st : AppState) (value : string) : AppState :=
  setCustomization st
    (withField (customization st) "size" (JNumber (numberOfParse (parseInt value)))).

(** The number input: guarded by [!isNaN(newSize) && newSize > 0]. *)
Definition onSizeNumberChange (st : AppState) (value : string) : AppState :=
  match parseInt value with
  | Some newSize =>
      if (0 <? newSize)%Z
      then setCustomization st
             (withField (customization st) "size" (JNumber (Finite (inject_Z newSize))))
      else st
  | None => st
  end.

(** The effect on a change of the active code: the size follows the
    rounded native width of the code. *)
Definition syncSize (st : AppState) (activeFileInfo : option QrCodeInfo) : AppState :=
  match activeFileInfo with
  | Some info =>
      setCustomization st
        (withField (customization st) "size"
           (JNumber (Finite (inject_Z (mathRound (width (location info)))))))
  | None => st
  end.

Variable JSON_parse : string -> option Json.
Variable extractQrCodesFromPdf : File -> Settled (list QrCodeInfo).
Variable extractQrCodesFromImage : File -> Settled (list QrCodeInfo).

(** One action of the user or of the effect: a control, the effect, an
    import, a selection of files, or starting over. *)
Inductive step : AppState -> AppState -> Prop :=
| step_color (st : AppState) (value : string) : step st (onColorChange st value)
| step_background (st : AppState) (value : string) :
    step st (onBackgroundColorChange st value)
| step_range (st : AppState) (value : string) : step st (onSizeRangeChange st value)
| step_number (st : AppState) (value : string) : step st (onSizeNumberChange st value)
| step_sync (st : AppState) (info : option QrCodeInfo) : step st (syncSize st info)
| step_import (st : AppState) (result : option string) :
    step st (onload JSON_parse st result)
| step_files (st : AppState) (files : list File) :
    step st (handleFileChange extractQrCodesFromPdf extractQrCodesFromImage st files)
| step_reset (st : AppState) : step st (resetState st).

Inductive reachable : AppState -> Prop :=
| reach_init : reachable initialState
| reach_step (st st' : AppState) : reachable st -> step st st' -> reachable st'.

(** The customization is an object whose [size] is of type number. *)
Definition sizeIsNumber (st : AppState) : Prop :=
  exists fields n,
    customization st = JObject fields /\ lookupField "size" fields = Some (JNumber n).

End Controls.

(** [parseInt] on the few strings of the examples. *)
Definition parseIntStandIn (value : string) : option Z :=
  if String.eqb value "120" then Some 120%Z
  else if String.eqb value "0" then Some 0%Z
  else if String.eqb value "-7" then Some (-7)%Z
  else None.

End Customize.

(** ** A measure for the termination of the ZXing scan *)
Module ZXingMeasure.

(** The stand-in decoders see a code only on a canvas with no fill. *)
Definition codesLeft (canvas : ZXing.Canvas) : nat :=
  match ZXing.canvas_fills canvas with
  | [] => 1
  | _ => 0
  end.

End ZXingMeasure.

(** ** The canvases of a ZXing page scan *)
Module ZXingRun.

Import ZXing.

Section Run.

Variable decodeFromCanvas : Canvas -> DecodeOutcome.

(** The decoder returns a result on the canvas. *)
Definition found (canvas : Canvas) : bool :=
  match decodeFromCanvas canvas with
  | Result _ _ _ => true
  | _ => false
  end.

(** The canvas after one round of the loop, and after [k] rounds. *)
Definition suppressOnce (canvas : Canvas) : Canvas :=
  match decodeFromCanvas canvas with
  | Result _ p ps =>
      let box := boundingBox p ps in
      fillRect canvas "white" (x box) (y box) (width box) (height box)
  | _ => canvas
  end.

Fixpoint canvasAfter (k : nat) (canvas : Canvas) : Canvas :=
  match k with
  | O => canvas
  | S k' => canvasAfter k' (suppressOnce canvas)
  end.

(** What the end of a page scan adds to the console: nothing after "not
    found", the error after any other failure. *)
Definition logged (canvas : Canvas) : list string :=
  match decodeFromCanvas canvas with
  | UnexpectedError err => [err]
  | _ => []
  end.

End Run.

(** A decoder that sees a code on a canvas with fewer than two fills and
    then fails with something other than "not found"; it finds a code on
    the canvas of the examples filled once elsewhere, where the run never
    comes. *)
Definition twoCodesThenError (canvas : Canvas) : DecodeOutcome :=
  match canvas_fills canvas with
  | [] => Result "https://example.com/1" (finder 10 50) [finder 10 10; finder 50 10]
  | [_] => Result "https://example.com/2" (finder 110 50) [finder 110 10; finder 150 10]
  | _ => UnexpectedError "ChecksumException"
  end.

Definition fillsLeft (canvas : Canvas) : nat := 2 - length (canvas_fills canvas).

End ZXingRun.

(** ** A detector that is stuck on a buffer outside the run *)
Module JsQrRun.

Import JsQr.

(** [moodyDetector] keeps reporting a code on a buffer of one white
    pixel, as [stuckDetector] does, and is [firstDarkDetector] on every
    other buffer. *)
Definition moodyDetector (d : list Z) (w h : Z) : option Code :=
  if ((length d =? 4)%nat && forallb (Z.eqb 255) d)%bool
  then Some (pointCode 0 0)
  else firstDarkDetector d w h.

End JsQrRun.
(** * Properties *)

(** ** Exact arithmetic of the records *)

Lemma Qpos_neq0 (s : Q) : 0 < s -> ~ s == 0.
Proof. intros Hs E. rewrite E in Hs. exact (Qlt_irrefl 0 Hs). Qed.

Lemma Qmult_div_cancel (a s : Q) : 0 < s -> a * s / s == a.
Proof. intros Hs. field. now apply Qpos_neq0. Qed.

(** ** Coordinate mapping in binary64 *)
Section Binary64Facts.

Import Binary64.

Lemma pow2_pos (e : Z) : 0 < pow2 e.
Proof. unfold pow2. now apply Qpower_0_lt. Qed.

Lemma pow2_plus (a b : Z) : pow2 (a + b) == pow2 a * pow2 b.
Proof. unfold pow2. now apply Qpower_plus. Qed.

Lemma pow2_le (a b : Z) : (a <= b)%Z -> pow2 a <= pow2 b.
Proof. intros H. unfold pow2. now apply Qpower_le_compat_l. Qed.

Lemma pow2_lt (a b : Z) : (a < b)%Z -> pow2 a < pow2 b.
Proof. intros H. unfold pow2. now apply Qpower_lt_compat_l. Qed.

Lemma pow2_lt_inv (a b : Z) : pow2 a < pow2 b -> (a < b)%Z.
Proof. intros H. unfold pow2 in H. now apply Qpower_lt_compat_l_inv in H. Qed.

Lemma pow2_inject (n : Z) : (0 <= n)%Z -> inject_Z (2 ^ n) == pow2 n.
Proof. intros H. unfold pow2. now rewrite Zpower_Qpower. Qed.

(** [2 ^ log2 n <= n < 2 ^ (log2 n + 1)] on rationals. *)
Lemma log2_bounds (n : Z) :
  (0 < n)%Z -> pow2 (Z.log2 n) <= inject_Z n /\ inject_Z n < pow2 (Z.log2 n + 1).
Proof.
  intros Hn. destruct (Z.log2_spec n Hn) as [Hlo Hhi].
  pose proof (Z.log2_nonneg n) as H0.
  split.
  - rewrite <- pow2_inject by lia. now rewrite <- Zle_Qle.
  - rewrite <- pow2_inject by lia. rewrite <- Zlt_Qlt.
    now replace (Z.log2 n + 1)%Z with (Z.succ (Z.log2 n)) by lia.
Qed.

Lemma Q_as_quotient (q : Q) : q == inject_Z (Qnum q) / inject_Z (Zpos (Qden q)).
Proof. destruct q as [n d]. simpl. now rewrite Qmake_Qdiv. Qed.

Lemma floorLog2_spec (q : Q) :
  0 < q -> pow2 (floorLog2 q) <= q /\ q < pow2 (floorLog2 q + 1).
Proof.
  intros Hq. unfold floorLog2.
  set (n := Qnum q). set (d := Zpos (Qden q)).
  assert (Hn : (0 < n)%Z).
  { unfold n. destruct q as [qn qd]. unfold Qlt in Hq. simpl in *. lia. }
  assert (Hd : (0 < d)%Z) by (unfold d; lia).
  destruct (log2_bounds n Hn) as [Hn1 Hn2].
  destruct (log2_bounds d Hd) as [Hd1 Hd2].
  pose proof (Q_as_quotient q) as Eq. fold n d in Eq.
  assert (Hdq : 0 < inject_Z d) by (rewrite (Zlt_Qlt 0 d) in Hd; exact Hd).
  assert (Hmul : q * inject_Z d == inject_Z n).
  { rewrite Eq. field. intros E. rewrite E in Hdq. now apply Qlt_irrefl in Hdq. }
  set (a := Z.log2 n) in *. set (b := Z.log2 d) in *.
  destruct (Qle_bool (pow2 (a - b)) q) eqn:Hle.
  - apply Qle_bool_iff in Hle. split; [exact Hle|].
    (* q * d = n < 2^(a+1) <= 2^(a-b+1) * 2^b <= 2^(a-b+1) * d *)
    apply Qmult_lt_r with (z := inject_Z d); [exact Hdq|].
    rewrite Hmul. apply Qlt_le_trans with (y := pow2 (a + 1)); [exact Hn2|].
    replace (a + 1)%Z with ((a - b + 1) + b)%Z by lia. rewrite pow2_plus.
    apply Qmult_le_l; [apply pow2_pos|exact Hd1].
  - assert (Hlt : q < pow2 (a - b)).
    { apply Qnot_le_lt. intros H. apply Qle_bool_iff in H. congruence. }
    split.
    + (* 2^(a-b-1) * d <= 2^(a-b-1) * 2^(b+1) = 2^a <= n = q * d *)
      apply Qmult_le_r with (z := inject_Z d); [exact Hdq|].
      rewrite Hmul. apply Qle_trans with (y := pow2 a); [|exact Hn1].
      replace a with ((a - b - 1) + (b + 1))%Z at 2 by lia. rewrite pow2_plus.
      apply Qmult_le_l; [apply pow2_pos|]. now apply Qlt_le_weak.
    + now replace (a - b - 1 + 1)%Z with (a - b)%Z by lia.
Qed.

Lemma nearestEven_spec (q : Q) : Qabs (inject_Z (nearestEven q) - q) <= 1 # 2.
Proof.
  unfold nearestEven.
  pose proof (Qfloor_le q) as Hlo. pose proof (Qlt_floor q) as Hhi.
  rewrite inject_Z_plus in Hhi. change (inject_Z 1) with 1 in Hhi.
  set (f := Qfloor q) in *.
  apply Qabs_Qle_condition.
  destruct (Qcompare_spec (q - inject_Z f) (1 # 2)) as [E|E|E].
  - destruct (Z.even f).
    + split; lra.
    + rewrite inject_Z_plus. change (inject_Z 1) with 1. split; lra.
  - split; lra.
  - rewrite inject_Z_plus. change (inject_Z 1) with 1. split; lra.
Qed.

Lemma Qabs_pos_nonzero (q : Q) : ~ q == 0 -> 0 < Qabs q.
Proof.
  intros Hq. destruct (Qlt_le_dec 0 (Qabs q)) as [H|H]; [exact H|].
  exfalso. apply Hq. apply Qabs_Qle_condition in H. lra.
Qed.

(** The exponent used by [round64] and the spacing of binary64 values
    around [q]. *)
Lemma exponent_bounds (q : Q) :
  ~ q == 0 ->
  let e := Z.max (floorLog2 (Qabs q)) (-1022) in
  Qabs q < pow2 (e + 1)
  /\ (pow2 (-1022) <= Qabs q -> pow2 e <= Qabs q).
Proof.
  intros Hq e. destruct (floorLog2_spec (Qabs q) (Qabs_pos_nonzero q Hq)) as [Hlo Hhi].
  split.
  - apply Qlt_le_trans with (y := pow2 (floorLog2 (Qabs q) + 1)); [exact Hhi|].
    apply pow2_le. unfold e. lia.
  - intros Hnormal.
    assert (Hfl : (-1022 < floorLog2 (Qabs q) + 1)%Z).
    { apply pow2_lt_inv. now apply Qle_lt_trans with (y := Qabs q). }
    replace e with (floorLog2 (Qabs q)) by (unfold e; lia). exact Hlo.
Qed.

Lemma round64_zero (q : Q) : q == 0 -> round64 q = Finite 0.
Proof. intros Hq. unfold round64. apply Qeq_bool_iff in Hq. now rewrite Hq. Qed.

(** A finite result of [round64] is within half a quantum of the exact
    value. *)
Lemma round64_close (q r : Q) :
  ~ q == 0 ->
  round64 q = Finite r ->
  Qabs (r - q) <= pow2 (Z.max (floorLog2 (Qabs q)) (-1022) - 53).
Proof.
  intros Hq. unfold round64.
  destruct (Qeq_bool q 0) eqn:E0; [apply Qeq_bool_iff in E0; contradiction|].
  set (e := Z.max (floorLog2 (Qabs q)) (-1022)).
  set (quantum := pow2 (e - 52)).
  set (m := nearestEven (q / quantum)).
  destruct (Qle_bool (pow2 1024) (Qabs (inject_Z m * quantum))); [destruct (Qle_bool 0 q); discriminate|].
  intros [= <-].
  pose proof (pow2_pos (e - 52)) as Hquantum. fold quantum in Hquantum.
  pose proof (nearestEven_spec (q / quantum)) as Hm. fold m in Hm.
  assert (Ehalf : pow2 (e - 53) == quantum * (1 # 2)).
  { unfold quantum. replace (e - 53)%Z with ((e - 52) + (-1))%Z by lia.
    rewrite pow2_plus. reflexivity. }
  rewrite Ehalf.
  assert (Ediff : inject_Z m * quantum - q == (inject_Z m - q / quantum) * quantum).
  { field. intros E. rewrite E in Hquantum. now apply Qlt_irrefl in Hquantum. }
  rewrite Ediff, Qabs_Qmult, (Qabs_pos quantum) by lra.
  rewrite (Qmult_comm quantum). apply Qmult_le_compat_r; [exact Hm|lra].
Qed.

(** In the normal range the relative error of [round64] is at most
    [2 ^ -53]. *)
Lemma round64_relative (q r : Q) :
  pow2 (-1022) <= Qabs q ->
  round64 q = Finite r ->
  Qabs (r - q) <= pow2 (-53) * Qabs q.
Proof.
  intros Hnormal Hr.
  assert (Hq : ~ q == 0).
  { intros E. rewrite E in Hnormal. pose proof (pow2_pos (-1022)) as Hp.
    change (Qabs 0) with 0 in Hnormal. lra. }
  pose proof (round64_close q r Hq Hr) as Hclose.
  destruct (exponent_bounds q Hq) as [_ He]. specialize (He Hnormal).
  set (e := Z.max (floorLog2 (Qabs q)) (-1022)) in *.
  apply Qle_trans with (y := pow2 (e - 53)); [exact Hclose|].
  replace (e - 53)%Z with (-53 + e)%Z by lia. rewrite pow2_plus.
  apply Qmult_le_l; [apply pow2_pos|exact He].
Qed.

(** Below [2 ^ 1023] in absolute value, [round64] gives a finite
    number. *)
Lemma round64_finite (q : Q) :
  Qabs q < pow2 1023 -> exists r, round64 q = Finite r.
Proof.
  intros Hbound. destruct (Qeq_dec q 0) as [E|Hq].
  - exists 0. now apply round64_zero.
  - unfold round64.
    destruct (Qeq_bool q 0) eqn:E0; [apply Qeq_bool_iff in E0; contradiction|].
    destruct (exponent_bounds q Hq) as [Hhi _].
    destruct (floorLog2_spec (Qabs q) (Qabs_pos_nonzero q Hq)) as [Hlo _].
    assert (Hfl : (floorLog2 (Qabs q) < 1023)%Z).
    { apply pow2_lt_inv. now apply Qle_lt_trans with (y := Qabs q). }
    set (e := Z.max (floorLog2 (Qabs q)) (-1022)) in *.
    assert (He : (e <= 1022)%Z) by (unfold e; lia).
    set (quantum := pow2 (e - 52)).
    set (m := nearestEven (q / quantum)).
    pose proof (pow2_pos (e - 52)) as Hquantum. fold quantum in Hquantum.
    pose proof (nearestEven_spec (q / quantum)) as Hm. fold m in Hm.
    assert (Hne : ~ quantum == 0).
    { intros E. rewrite E in Hquantum. now apply Qlt_irrefl in Hquantum. }
    assert (Ediff : inject_Z m * quantum - q == (inject_Z m - q / quantum) * quantum)
      by (field; exact Hne).
    assert (Hdiff : Qabs (inject_Z m * quantum - q) <= quantum * (1 # 2)).
    { rewrite Ediff, Qabs_Qmult, (Qabs_pos quantum) by lra.
      rewrite (Qmult_comm quantum). apply Qmult_le_compat_r; [exact Hm|lra]. }
    assert (Hr : Qabs (inject_Z m * quantum) < pow2 1024).
    { assert (Htri : Qabs (inject_Z m * quantum)
                     <= Qabs (inject_Z m * quantum - q) + Qabs q).
      { assert (E : inject_Z m * quantum == (inject_Z m * quantum - q) + q) by ring.
        rewrite E at 1. apply Qabs_triangle. }
      assert (Hq1 : pow2 (e + 1) <= pow2 1023) by (apply pow2_le; lia).
      assert (Hq2 : quantum <= pow2 1023) by (apply pow2_le; lia).
      assert (E24 : pow2 1024 == pow2 1023 + pow2 1023).
      { change 1024%Z with (1 + 1023)%Z. rewrite pow2_plus. change (pow2 1) with 2. ring. }
      rewrite E24. lra. }
    destruct (Qle_bool (pow2 1024) (Qabs (inject_Z m * quantum))) eqn:Hover.
    + apply Qle_bool_iff in Hover. lra.
    + eauto.
Qed.

(** One coordinate through the round trip. *)
Lemma round_trip_field (f s : Q) :
  0 < s -> inRange f s ->
  within tolerance (div (mul (Finite f) (Finite s)) (Finite s)) (Finite f).
Proof.
  intros Hs [Hzero|(Hf1 & Hf2 & Hp1 & Hp2)].
  - cbn [mul]. rewrite round64_zero by (rewrite Hzero; ring).
    cbn [div]. destruct (Qeq_bool s 0) eqn:Es; [apply Qeq_bool_iff in Es; lra|].
    rewrite round64_zero by (field; lra).
    cbn [within]. rewrite Hzero. change (Qabs (0 - 0)) with 0. change (Qabs 0) with 0.
    unfold tolerance. lra.
  - cbn [mul]. destruct (round64_finite (f * s) Hp2) as [p Hp]. rewrite Hp.
    cbn [div]. destruct (Qeq_bool s 0) eqn:Es; [apply Qeq_bool_iff in Es; lra|].
    pose proof (round64_relative (f * s) p Hp1 Hp) as Hrel1.
    pose proof (pow2_pos (-53)) as Hu. set (u := pow2 (-53)) in *.
    assert (Hu1 : u <= 1 # 2).
    { unfold u. change (1 # 2) with (pow2 (-1)). apply pow2_le. lia. }
    (* the quotient p / s is f up to u *)
    assert (Eq1 : p / s - f == (p - f * s) / s) by (field; lra).
    assert (Hq1 : Qabs (p / s - f) <= u * Qabs f).
    { rewrite Eq1. unfold Qdiv. rewrite Qabs_Qmult, (Qabs_pos (/ s)).
      - apply Qle_trans with (y := u * Qabs (f * s) * / s).
        + apply Qmult_le_compat_r; [exact Hrel1|]. apply Qlt_le_weak, Qinv_lt_0_compat, Hs.
        + rewrite Qabs_Qmult, (Qabs_pos s) by lra.
          assert (E : u * (Qabs f * s) * / s == u * Qabs f) by (field; lra).
          rewrite E. lra.
      - apply Qlt_le_weak, Qinv_lt_0_compat, Hs. }
    assert (Habs_f : 0 <= Qabs f) by apply Qabs_nonneg.
    assert (Hq_lo : Qabs f - u * Qabs f <= Qabs (p / s)).
    { assert (Htri : Qabs f <= Qabs (f - p / s) + Qabs (p / s)).
      { assert (E : f == (f - p / s) + p / s) by ring. rewrite E at 1. apply Qabs_triangle. }
      assert (Esym : Qabs (f - p / s) == Qabs (p / s - f)).
      { rewrite <- Qabs_opp. apply Qabs_wd. ring. }
      lra. }
    assert (Hq_hi : Qabs (p / s) <= Qabs f + u * Qabs f).
    { assert (Htri : Qabs (p / s) <= Qabs (p / s - f) + Qabs f).
      { assert (E : p / s == (p / s - f) + f) by ring. rewrite E at 1. apply Qabs_triangle. }
      lra. }
    assert (E1021 : pow2 (-1021) == pow2 (-1022) + pow2 (-1022)).
    { change (-1021)%Z with (1 + -1022)%Z. rewrite pow2_plus. change (pow2 1) with 2. ring. }
    assert (E1023 : pow2 1023 == pow2 1022 + pow2 1022).
    { change 1023%Z with (1 + 1022)%Z. rewrite pow2_plus. change (pow2 1) with 2. ring. }
    assert (Hmul_u : u * Qabs f <= (1 # 2) * Qabs f)
      by (apply Qmult_le_compat_r; [exact Hu1|exact Habs_f]).
    assert (Hn2 : pow2 (-1022) <= Qabs (p / s)) by lra.
    assert (Hb2 : Qabs (p / s) < pow2 1023) by lra.
    destruct (round64_finite (p / s) Hb2) as [f' Hf']. rewrite Hf'.
    pose proof (round64_relative (p / s) f' Hn2 Hf') as Hrel2. fold u in Hrel2.
    cbn [within].
    assert (Htri : Qabs (f' - f) <= Qabs (f' - p / s) + Qabs (p / s - f)).
    { assert (E : f' - f == (f' - p / s) + (p / s - f)) by ring. rewrite E. apply Qabs_triangle. }
    assert (Hprod : u * Qabs (p / s) <= u * (Qabs f + u * Qabs f))
      by (apply Qmult_le_l; [exact Hu|exact Hq_hi]).
    assert (Etol : tolerance == u + u + u * u).
    { unfold tolerance, u. change (-52)%Z with (1 + -53)%Z. change (-106)%Z with (-53 + -53)%Z.
      rewrite !pow2_plus. change (pow2 1) with 2. ring. }
    rewrite Etol.
    assert (Eexp : (u + u + u * u) * Qabs f == u * (Qabs f + u * Qabs f) + u * Qabs f) by ring.
    rewrite Eexp. lra.
Qed.

Lemma floorLog2_unique (q : Q) (e : Z) :
  0 < q -> pow2 e <= q -> q < pow2 (e + 1) -> floorLog2 q = e.
Proof.
  intros Hq Hlo Hhi. destruct (floorLog2_spec q Hq) as [Hlo' Hhi'].
  assert (H1 : (e < floorLog2 q + 1)%Z)
    by (apply pow2_lt_inv; now apply Qle_lt_trans with (y := q)).
  assert (H2 : (floorLog2 q < e + 1)%Z)
    by (apply pow2_lt_inv; now apply Qle_lt_trans with (y := q)).
  lia.
Qed.

Lemma floorLog2_comp (q q' : Q) : 0 < q -> q == q' -> floorLog2 q = floorLog2 q'.
Proof.
  intros Hq E. assert (Hq' : 0 < q') by now rewrite <- E.
  destruct (floorLog2_spec q' Hq') as [Hlo Hhi].
  apply floorLog2_unique; [exact Hq| |]; now rewrite E.
Qed.

Lemma nearestEven_comp (q q' : Q) : q == q' -> nearestEven q = nearestEven q'.
Proof.
  intros E. unfold nearestEven. rewrite (Qfloor_comp q q' E).
  assert (Ec : Qcompare (q - inject_Z (Qfloor q')) (1 # 2)
               = Qcompare (q' - inject_Z (Qfloor q')) (1 # 2)).
  { apply Qcompare_comp; [now rewrite E|reflexivity]. }
  now rewrite Ec.
Qed.

Lemma nearestEven_integer (m : Z) : nearestEven (inject_Z m) = m.
Proof.
  unfold nearestEven. rewrite Qfloor_Z.
  assert (Ec : Qcompare (inject_Z m - inject_Z m) (1 # 2) = Lt).
  { rewrite <- Qlt_alt. lra. }
  now rewrite Ec.
Qed.

Lemma round64_comp (q q' : Q) :
  q == q' -> sameNumber (round64 q) (round64 q') = true.
Proof.
  intros E. unfold round64.
  assert (E0 : Qeq_bool q 0 = Qeq_bool q' 0).
  { apply eq_true_iff_eq. rewrite !Qeq_bool_iff. now rewrite E. }
  rewrite <- E0. destruct (Qeq_bool q 0) eqn:Hq0; [reflexivity|].
  assert (Hq : ~ q == 0) by (intros H; apply Qeq_bool_iff in H; congruence).
  assert (Efl : floorLog2 (Qabs q) = floorLog2 (Qabs q')).
  { apply floorLog2_comp; [now apply Qabs_pos_nonzero|now rewrite E]. }
  rewrite <- Efl.
  set (quantum := pow2 (Z.max (floorLog2 (Qabs q)) (-1022) - 52)).
  assert (Em : nearestEven (q / quantum) = nearestEven (q' / quantum)).
  { apply nearestEven_comp. now rewrite E. }
  rewrite <- Em.
  assert (El : Qle_bool 0 q = Qle_bool 0 q').
  { apply eq_true_iff_eq. rewrite !Qle_bool_iff. now rewrite E. }
  rewrite <- El.
  destruct (Qle_bool (pow2 1024) _); [now destruct (Qle_bool 0 q)|].
  cbn. apply Qeq_bool_iff. reflexivity.
Qed.

Lemma sameNumber_finite (a : JsNumber) (x : Q) :
  sameNumber a (Finite x) = true -> exists r, a = Finite r /\ r == x.
Proof.
  destruct a as [r| | |]; try discriminate. cbn. intros H. apply Qeq_bool_iff in H. eauto.
Qed.

(** A binary64 value of the normal range times a power of two is a
    binary64 value, as long as the product stays in the normal range. *)
Lemma round64_scale_pow2 (x : Q) (k : Z) :
  representable x ->
  pow2 (-1022) <= Qabs x ->
  pow2 (-1022) <= Qabs (x * pow2 k) ->
  Qabs (x * pow2 k) < pow2 1024 ->
  representable (x * pow2 k).
Proof.
  intros Hrep Hnx Hnq Hbq. unfold representable in *.
  pose proof (pow2_pos (-1022)) as Hmin. pose proof (pow2_pos k) as Hk.
  assert (Hx : ~ x == 0).
  { intros E. rewrite E in Hnx. change (Qabs 0) with 0 in Hnx. lra. }
  assert (Hq : ~ x * pow2 k == 0).
  { intros E. rewrite E in Hnq. change (Qabs 0) with 0 in Hnq. lra. }
  destruct (floorLog2_spec (Qabs x) (Qabs_pos_nonzero x Hx)) as [Hlo Hhi].
  destruct (exponent_bounds x Hx) as [_ Hex]. specialize (Hex Hnx).
  set (fl := floorLog2 (Qabs x)) in *.
  assert (Hfl : (-1022 <= fl)%Z).
  { assert ((-1022 < fl + 1)%Z); [|lia].
    apply pow2_lt_inv. now apply Qle_lt_trans with (y := Qabs x). }
  assert (Eabs : Qabs (x * pow2 k) == Qabs x * pow2 k).
  { rewrite Qabs_Qmult, (Qabs_pos (pow2 k)) by lra. reflexivity. }
  assert (Eflq : floorLog2 (Qabs (x * pow2 k)) = (fl + k)%Z).
  { apply floorLog2_unique.
    - now apply Qabs_pos_nonzero.
    - rewrite Eabs, pow2_plus. apply Qmult_le_compat_r; [exact Hlo|lra].
    - rewrite Eabs. replace (fl + k + 1)%Z with ((fl + 1) + k)%Z by lia.
      rewrite pow2_plus. apply Qmult_lt_r; [exact Hk|exact Hhi]. }
  assert (Hflq : (-1022 <= fl + k)%Z).
  { assert ((-1022 < fl + k + 1)%Z); [|lia].
    apply pow2_lt_inv. apply Qle_lt_trans with (y := Qabs (x * pow2 k)); [exact Hnq|].
    rewrite Eabs. replace (fl + k + 1)%Z with ((fl + 1) + k)%Z by lia.
    rewrite pow2_plus. apply Qmult_lt_r; [exact Hk|exact Hhi]. }
  (* what [x] rounds to *)
  unfold round64 in Hrep.
  destruct (Qeq_bool x 0) eqn:Ex0; [apply Qeq_bool_iff in Ex0; contradiction|].
  fold fl in Hrep. replace (Z.max fl (-1022)) with fl in Hrep by lia.
  set (quantum := pow2 (fl - 52)) in *.
  set (m := nearestEven (x / quantum)) in *.
  pose proof (pow2_pos (fl - 52)) as Hquantum. fold quantum in Hquantum.
  destruct (Qle_bool (pow2 1024) (Qabs (inject_Z m * quantum)));
    [destruct (Qle_bool 0 x); discriminate|].
  cbn in Hrep. apply Qeq_bool_iff in Hrep.
  (* what the product rounds to *)
  unfold round64.
  destruct (Qeq_bool (x * pow2 k) 0) eqn:Eq0; [apply Qeq_bool_iff in Eq0; contradiction|].
  rewrite Eflq. replace (Z.max (fl + k) (-1022)) with (fl + k)%Z by lia.
  assert (Equantum : pow2 (fl + k - 52) == quantum * pow2 k).
  { unfold quantum. replace (fl + k - 52)%Z with ((fl - 52) + k)%Z by lia.
    apply pow2_plus. }
  assert (Em : nearestEven (x * pow2 k / pow2 (fl + k - 52)) = m).
  { transitivity (nearestEven (inject_Z m)).
    - apply nearestEven_comp. rewrite Equantum, <- Hrep. field. split; lra.
    - apply nearestEven_integer. }
  rewrite Em.
  assert (Er : inject_Z m * pow2 (fl + k - 52) == x * pow2 k).
  { rewrite Equantum, <- Hrep. ring. }
  destruct (Qle_bool (pow2 1024) (Qabs (inject_Z m * pow2 (fl + k - 52)))) eqn:Hover.
  - apply Qle_bool_iff in Hover. rewrite Er in Hover. lra.
  - cbn. apply Qeq_bool_iff. exact Er.
Qed.

(** One coordinate through the round trip at a scale that is a power of
    two: the result is the coordinate itself. *)
Lemma round_trip_field_pow2 (x : Q) (k : Z) :
  representable x ->
  pow2 (-1022) <= Qabs x -> Qabs x < pow2 1024 ->
  pow2 (-1022) <= Qabs (x * pow2 k) -> Qabs (x * pow2 k) < pow2 1024 ->
  sameNumber (div (mul (Finite x) (Finite (pow2 k))) (Finite (pow2 k))) (Finite x) = true.
Proof.
  intros Hrep Hnx Hbx Hnq Hbq.
  pose proof (pow2_pos k) as Hk.
  pose proof (round64_scale_pow2 x k Hrep Hnx Hnq Hbq) as Hprod.
  cbn [mul]. destruct (sameNumber_finite _ _ Hprod) as (p & Hp & Ep). rewrite Hp.
  cbn [div]. destruct (Qeq_bool (pow2 k) 0) eqn:Ek; [apply Qeq_bool_iff in Ek; lra|].
  assert (Eback : p / pow2 k == p * pow2 (- k)).
  { unfold pow2. rewrite Qpower_opp. reflexivity. }
  assert (Hrep_p : representable p).
  { unfold representable. rewrite <- Hp.
    pose proof (round64_comp (x * pow2 k) p) as Hc.
    assert (Epp : x * pow2 k == p) by now symmetry.
    specialize (Hc Epp). rewrite Hp in Hc |- *.
    destruct (round64 p) as [r| | |]; try discriminate.
    cbn in *. apply Qeq_bool_iff in Hc. apply Qeq_bool_iff. now rewrite <- Hc. }
  assert (Eorig : p * pow2 (- k) == x).
  { rewrite Ep. rewrite <- Qmult_assoc, <- pow2_plus.
    replace (k + - k)%Z with 0%Z by lia. change (pow2 0) with 1. ring. }
  assert (Hback : representable (p * pow2 (- k))).
  { apply round64_scale_pow2; [exact Hrep_p| | |].
    - now rewrite Ep.
    - now rewrite Eorig.
    - now rewrite Eorig. }
  unfold representable in Hback.
  pose proof (round64_comp (p / pow2 k) (p * pow2 (- k)) Eback) as Hc.
  destruct (round64 (p / pow2 k)) as [r| | |], (round64 (p * pow2 (- k))) as [r'| | |];
    try discriminate.
  cbn in *. apply Qeq_bool_iff in Hc, Hback. apply Qeq_bool_iff.
  now rewrite Hc, Hback.
Qed.

Lemma round_trip_field_exact (f : Q) (k : Z) :
  exactAt f (pow2 k) ->
  sameNumber (div (mul (Finite f) (Finite (pow2 k))) (Finite (pow2 k))) (Finite f) = true.
Proof.
  intros [Hzero|(Hrep & Hn & Hb & Hnq & Hbq)].
  - pose proof (pow2_pos k) as Hk.
    cbn [mul]. rewrite round64_zero by (rewrite Hzero; ring).
    cbn [div]. destruct (Qeq_bool (pow2 k) 0) eqn:Ek; [apply Qeq_bool_iff in Ek; lra|].
    rewrite round64_zero by (field; lra).
    cbn. apply Qeq_bool_iff. now symmetry.
  - now apply round_trip_field_pow2.
Qed.

Lemma div_rounds (p s : Q) : ~ s == 0 -> div (Finite p) (Finite s) = round64 (p / s).
Proof.
  intros Hs. cbn [div]. destruct (Qeq_bool s 0) eqn:Es; [|reflexivity].
  apply Qeq_bool_iff in Es. contradiction.
Qed.

(** A quotient of a difference that is a binary64 value is the rounding
    of the exact quotient. *)
Lemma div_difference (a b s : Q) :
  ~ s == 0 -> representable (a - b) ->
  sameNumber (div (sub (Finite a) (Finite b)) (Finite s)) (round64 ((a - b) / s)) = true.
Proof.
  intros Hs Hrep. cbn [sub]. destruct (sameNumber_finite _ _ Hrep) as (d & -> & Ed).
  rewrite (div_rounds _ _ Hs). apply round64_comp. now rewrite Ed.
Qed.

End Binary64Facts.

Section CoordinateMapping.

Import Binary64.

(** C1 (amended). In binary64 the round trip of the coordinate mapper is
    the identity up to two roundings, not for every rectangle and scale
    but where nothing overflows or falls below the normal range: for a
    scale [s > 0] and a rectangle whose coordinates and their products
    with [s] are zero or in the normal range, every coordinate of
    [toNative (toPixelsAtScale r s) s] is the coordinate of [r] up to the
    relative error [2^-52 + 2^-106]; at a scale that is a power of two
    (the 2.0 of one revision of the extraction) the round trip of binary64
    coordinates is exact. The two maps are those of the code: the location
    that the extraction computes ([locationOf], which is [toNative] at the
    detection scale) is the rounding of the exact quotients kept in the
    record, for the width and the height when the difference of corner
    coordinates is a binary64 value; and the rectangle that a page preview
    draws is
    [toPixelsAtScale], at the render scale 1.5, of the rectangle that the
    replacement has in native units (stored position, [size] by
    [size]). *)
Theorem round_trip_within_tolerance :
  (forall (r : QrCodeLocation) (s : Q),
     0 < s -> rectInRange r s ->
     rectWithin tolerance
       (toNative (toPixelsAtScale (ofLocation r) (Finite s)) (Finite s))
       (ofLocation r))
  /\ (forall (r : QrCodeLocation) (k : Z),
        rectExactAt r (pow2 k) ->
        rectSame
          (toNative (toPixelsAtScale (ofLocation r) (Finite (pow2 k))) (Finite (pow2 k)))
          (ofLocation r))
  /\ (forall (i : nat) (viewport : Viewport) (code : JsQr.Code),
        let record := JsQr.qrCodeInfo i viewport code in
        rx (locationOf code) = round64 (x (location record))
        /\ ry (locationOf code) = round64 (y (location record))
        /\ (representable (width (imageDataUrl record)) ->
            sameNumber (rwidth (locationOf code)) (round64 (width (location record)))
            = true)
        /\ (representable (height (imageDataUrl record)) ->
            sameNumber (rheight (locationOf code)) (round64 (height (location record)))
            = true))
  /\ (forall QRCode imageLoads stringToNumber arrayToNumber
             (pdfDoc : list PdfPage) (qrToReplace : QrCodeInfo) (newUrl : string)
             (customization : Json) (preview : Preview.PagePreview),
        Preview.generatePreviewPageAsDataUrl QRCode imageLoads stringToNumber
          arrayToNumber pdfDoc qrToReplace newUrl customization = Normal preview ->
        Preview.sd_rect (Preview.pv_draw preview)
        = toPixelsAtScale
            {| rx := Finite (x (location qrToReplace));
               ry := Finite (y (location qrToReplace));
               rwidth := Preview.sizeOf stringToNumber arrayToNumber customization;
               rheight := Preview.sizeOf stringToNumber arrayToNumber customization |}
            (Finite 1.5)).
Proof.
  split; [|split; [|split]].
  - intros r s Hs (Hx & Hy & Hw & Hh).
    unfold rectWithin, toNative, toPixelsAtScale, ofLocation.
    cbn [rx ry rwidth rheight].
    repeat split; now apply round_trip_field.
  - intros r k (Hx & Hy & Hw & Hh).
    unfold rectSame, toNative, toPixelsAtScale, ofLocation.
    cbn [rx ry rwidth rheight].
    repeat split; now apply round_trip_field_exact.
  - intros i viewport code record.
    assert (Hs : ~ JsQr.scale == 0) by (intros E; vm_compute in E; discriminate).
    split; [exact (div_rounds _ _ Hs)|]. split; [exact (div_rounds _ _ Hs)|].
    split; intros Hrep; now apply div_difference.
  - intros QRCode imageLoads stringToNumber arrayToNumber pdfDoc qrToReplace newUrl
      customization preview.
    unfold Preview.generatePreviewPageAsDataUrl.
    destruct QRCode as [toDataURL|]; [|discriminate].
    destruct (length pdfDoc <? pageNumber qrToReplace)%nat; [discriminate|].
    destruct (Replace.generateQrCodeDataUrl _ _ _ _) as [newQrDataUrl|]; [|discriminate].
    cbn [bind].
    destruct (Preview.getPage pdfDoc (pageNumber qrToReplace)) as [page|]; [|discriminate].
    cbn [bind].
    destruct (Replace.loadImage imageLoads newQrDataUrl) as [newQrImg|]; [|discriminate].
    cbn [bind]. intros [= <-]. reflexivity.
Qed.

End CoordinateMapping.

Section Binary64Examples.

Import Binary64.

(** C1 as stated fails in binary64. At scale 3 the coordinate
    [maxValue], the largest binary64 value, becomes [Infinity] and stays
    so, which no tolerance covers; at the scale [minValue], the smallest
    positive binary64 value, the coordinate 100.375 comes back as 100. *)
Lemma round_trip_fails_outside_range :
  0 < 3
  /\ rx (toNative (toPixelsAtScale (ofLocation farRect) (Finite 3)) (Finite 3))
     = PosInfinity
  /\ (forall tol,
        ~ rectWithin tol
            (toNative (toPixelsAtScale (ofLocation farRect) (Finite 3)) (Finite 3))
            (ofLocation farRect))
  /\ 0 < minValue
  /\ sameNumber
       (rx (toNative (toPixelsAtScale (ofLocation evenRect) (Finite minValue))
              (Finite minValue)))
       (Finite 100) = true
  /\ ~ rectWithin tolerance
        (toNative (toPixelsAtScale (ofLocation evenRect) (Finite minValue))
           (Finite minValue))
        (ofLocation evenRect).
Proof.
  assert (Hfar : rx (toNative (toPixelsAtScale (ofLocation farRect) (Finite 3)) (Finite 3))
                 = PosInfinity) by (vm_compute; reflexivity).
  split; [reflexivity|]. split; [exact Hfar|]. split.
  - intros tol (Hx & _). rewrite Hfar in Hx. exact Hx.
  - split; [vm_compute; reflexivity|]. split; [vm_compute; reflexivity|].
    intros (Hx & _). vm_compute in Hx. now apply Hx.
Qed.

Lemma tenthRect_inRange : rectInRange tenthRect 3.
Proof.
  unfold rectInRange, tenthRect; cbn [x y width height].
  repeat split; right; repeat split; vm_compute; congruence.
Qed.

Lemma evenRect_exactAt : rectExactAt evenRect (pow2 1).
Proof.
  unfold rectExactAt, evenRect; cbn [x y width height].
  repeat split; right; repeat split; vm_compute; congruence.
Qed.

Lemma round_trip_within_tolerance_witness :
  0 < 3 /\ rectInRange tenthRect 3
  /\ rectWithin tolerance
       (toNative (toPixelsAtScale (ofLocation tenthRect) (Finite 3)) (Finite 3))
       (ofLocation tenthRect)
  /\ rectExactAt evenRect (pow2 1)
  /\ rectSame
       (toNative (toPixelsAtScale (ofLocation evenRect) (Finite (pow2 1)))
          (Finite (pow2 1)))
       (ofLocation evenRect).
Proof.
  destruct round_trip_within_tolerance as (Hclose & Hexact & _).
  split; [reflexivity|]. split; [exact tenthRect_inRange|].
  split; [exact (Hclose tenthRect 3 eq_refl tenthRect_inRange)|].
  split; [exact evenRect_exactAt|].
  exact (Hexact evenRect 1%Z evenRect_exactAt).
Defined.

(** At scale 3 the tenth does not come back as itself: the tolerance is
    needed. *)
Example round_trip_of_a_tenth_is_inexact :
  sameNumber (div (mul (Finite tenth) (Finite 3)) (Finite 3)) (Finite tenth) = false
  /\ sameNumber (div (mul (Finite tenth) (Finite 3)) (Finite 3))
       (Finite (tenth + pow2 (-56))) = true.
Proof. split; vm_compute; reflexivity. Qed.

(** [round64] against the binary64 arithmetic of the machine, on
    products, quotients and differences that are inexact, that overflow, that fall in
    the subnormal range with a tie, and that underflow to zero. *)
Example round64_agrees_with_primitive_floats :
  forallb (fun ab => sameNumber (ofFloat (fst ab * snd ab)%float)
                                (mul (ofFloat (fst ab)) (ofFloat (snd ab)))
                     && sameNumber (ofFloat (fst ab / snd ab)%float)
                                   (div (ofFloat (fst ab)) (ofFloat (snd ab)))
                     && sameNumber (ofFloat (fst ab - snd ab)%float)
                                   (sub (ofFloat (fst ab)) (ofFloat (snd ab))))
    [ (0x1.999999999999ap-4, 3);
      (0x1.29a353f7ced91p+9, 3);
      (0x1.29a353f7ced91p+9, 1.5);
      (0x1.fffffffffffffp+1023, 3);
      (0x1.fffffffffffffp+1023, 0x1.0000000000001p+0);
      (0x1.fffffffffffffp+1023, 0x1p-1);
      (0x1p-1074, 0x1p-1);
      (0x3p-1074, 0x1p-1);
      (0x1.919999999999ap+6, 0x1p-1074);
      (0x1.4d55555555555p+5, 1.5);
      (-0x1.dp+2, 0x1.3333333333333p-2);
      (0x1p-1022, 3);
      (100, 0x1p+1000) ]%float
  = true.
Proof. vm_compute. reflexivity. Qed.

End Binary64Examples.

(** ** The jsQR-based service *)
Section JsQrBuffer.

Import JsQr.

(** Writing 255 never makes a channel value non-white. *)
Lemma nonWhite_insert (i : nat) (d : list Z) :
  <[i := 255%Z]> d = d \/ (nonWhite (<[i := 255%Z]> d) < nonWhite d)%nat.
Proof.
  unfold nonWhite. revert i. induction d as [|v d IH]; intros [|i]; simpl; auto.
  - destruct (decide (v = 255%Z)) as [->|Hv]; [now left|right].
    rewrite !filter_cons. repeat case_decide; try done. simpl; lia.
  - destruct (IH i) as [E|Hlt]; [left; now rewrite E|right].
    rewrite !filter_cons. case_decide; simpl; lia.
Qed.

Lemma whitened_refl (d : list Z) : whitened d d.
Proof. now left. Qed.

Lemma whitened_trans (d1 d2 d3 : list Z) :
  whitened d1 d2 -> whitened d2 d3 -> whitened d1 d3.
Proof.
  unfold whitened. intros [->|H12] [->|H23]; auto. right. lia.
Qed.

Lemma whitened_fold {B : Type} (f : list Z -> B -> list Z) (bs : list B) :
  (forall d b, whitened d (f d b)) ->
  forall d, whitened d (fold_left f bs d).
Proof.
  intros Hf. induction bs as [|b bs IH]; intros d; simpl.
  - apply whitened_refl.
  - eapply whitened_trans; [apply Hf|apply IH].
Qed.

Lemma whitened_setWhite (idx : Z) (d : list Z) : whitened d (setWhite idx d).
Proof.
  unfold setWhite.
  eapply whitened_trans; [|apply nonWhite_insert].
  eapply whitened_trans; [|apply nonWhite_insert].
  apply nonWhite_insert.
Qed.

Lemma whitened_whiteOutPixel (w h yP : Z) (d : list Z) (xP : Z) :
  whitened d (whiteOutPixel w h yP d xP).
Proof.
  unfold whiteOutPixel. destruct (_ || _)%bool.
  - apply whitened_refl.
  - apply whitened_setWhite.
Qed.

Lemma whitened_whiteOut (imageData : ImageData) (l : Location) :
  whitened (img_data imageData) (img_data (whiteOut imageData l)).
Proof.
  unfold whiteOut; simpl. apply whitened_fold. intros d yP.
  unfold whiteOutRow. apply whitened_fold. intros d' xP.
  apply whitened_whiteOutPixel.
Qed.

(** Suppression never darkens: a changed buffer has strictly fewer
    non-white channel values. *)
Lemma whiteOut_changed_lt (imageData : ImageData) (l : Location) :
  img_data (whiteOut imageData l) <> img_data imageData ->
  (nonWhite (img_data (whiteOut imageData l)) < nonWhite (img_data imageData))%nat.
Proof.
  intros Hne. destruct (whitened_whiteOut imageData l) as [E|Hlt]; [congruence|exact Hlt].
Qed.

Lemma stays_refl (d : list Z) : stays d d.
Proof. split; auto. Qed.

Lemma stays_trans (d1 d2 d3 : list Z) : stays d1 d2 -> stays d2 d3 -> stays d1 d3.
Proof. intros [L1 H1] [L2 H2]. split; [congruence|auto]. Qed.

Lemma stays_insert (i : nat) (d : list Z) : stays d (<[i := 255%Z]> d).
Proof.
  split; [apply length_insert|]. intros j Hj.
  destruct (decide (i = j)) as [->|Hne].
  - rewrite list_lookup_insert_eq; [reflexivity|]. now apply lookup_lt_Some in Hj.
  - now rewrite list_lookup_insert_ne.
Qed.

Lemma stays_fold {B : Type} (f : list Z -> B -> list Z) (bs : list B) :
  (forall d b, stays d (f d b)) ->
  forall d, stays d (fold_left f bs d).
Proof.
  intros Hf. induction bs as [|b bs IH]; intros d; simpl.
  - apply stays_refl.
  - eapply stays_trans; [apply Hf|apply IH].
Qed.

Lemma stays_setWhite (idx : Z) (d : list Z) : stays d (setWhite idx d).
Proof.
  unfold setWhite.
  eapply stays_trans; [|apply stays_insert].
  eapply stays_trans; [|apply stays_insert].
  apply stays_insert.
Qed.

Lemma stays_whiteOutPixel (w h yP : Z) (d : list Z) (xP : Z) :
  stays d (whiteOutPixel w h yP d xP).
Proof.
  unfold whiteOutPixel. destruct (_ || _)%bool.
  - apply stays_refl.
  - apply stays_setWhite.
Qed.

Lemma stays_whiteOutRow (w h : Z) (l : Location) (d : list Z) (yP : Z) :
  stays d (whiteOutRow w h l d yP).
Proof.
  unfold whiteOutRow. apply stays_fold. intros d' xP. apply stays_whiteOutPixel.
Qed.

Lemma stays_whiteOut (imageData : ImageData) (l : Location) :
  stays (img_data imageData) (img_data (whiteOut imageData l)).
Proof.
  unfold whiteOut; simpl. apply stays_fold. intros d yP. apply stays_whiteOutRow.
Qed.

(** Once a loop step has made channel [j] white, the rest of the loop
    keeps it white. *)
Lemma fold_left_sets {B : Type} (f : list Z -> B -> list Z) (bs : list B) (b : B)
  (n j : nat) :
  (forall d b', stays d (f d b')) ->
  (forall d, length d = n -> f d b !! j = Some 255%Z) ->
  b ∈ bs ->
  forall d, length d = n -> fold_left f bs d !! j = Some 255%Z.
Proof.
  intros Hstay Hset. induction bs as [|b0 bs IH]; intros Hin d Hlen.
  - now apply elem_of_nil in Hin.
  - simpl. apply elem_of_cons in Hin as [->|Hin].
    + apply (stays_fold f bs Hstay (f d b0)). now apply Hset.
    + apply IH; [exact Hin|]. destruct (Hstay d b0) as [HL _]. congruence.
Qed.

Lemma elem_of_forRange (lo hi v : Z) : v ∈ forRange lo hi <-> (lo <= v < hi)%Z.
Proof. unfold forRange. rewrite elem_of_seqZ. lia. Qed.

Lemma setWhite_sets (idx : Z) (d : list Z) (c : Z) :
  (0 <= idx)%Z -> (0 <= c <= 2)%Z ->
  (Z.to_nat (idx + c) < length d)%nat ->
  setWhite idx d !! Z.to_nat (idx + c) = Some 255%Z.
Proof.
  intros Hidx Hc Hlen. unfold setWhite.
  assert (c = 0 \/ c = 1 \/ c = 2)%Z as [-> | [-> | ->]] by lia.
  - apply (stays_trans _ _ _ (stays_insert _ _) (stays_insert _ _)).
    rewrite Z.add_0_r in *. now apply list_lookup_insert_eq.
  - apply (stays_insert (Z.to_nat (idx + 2))).
    apply list_lookup_insert_eq. now rewrite length_insert.
  - apply list_lookup_insert_eq. now rewrite !length_insert.
Qed.

(** C2, the jsQR service: after the suppression, every pixel of the image
    that lies in the bounding box of the four corners, extended by
    [padding] on each side, has its three colour channels at 255. *)
Lemma whiteOut_covers_padded_box (imageData : ImageData) (l : Location) (xP yP c : Z) :
  (minX l <= xP < maxX l)%Z -> (minY l <= yP < maxY l)%Z ->
  (0 <= xP < img_width imageData)%Z -> (0 <= yP < img_height imageData)%Z ->
  (0 <= c <= 2)%Z ->
  (Z.to_nat ((yP * img_width imageData + xP) * 4 + c) < length (img_data imageData))%nat ->
  img_data (whiteOut imageData l) !! Z.to_nat ((yP * img_width imageData + xP) * 4 + c)
  = Some 255%Z.
Proof.
  intros Hx Hy Hxb Hyb Hc Hlen. unfold whiteOut; simpl.
  eapply (fold_left_sets _ _ yP); [intros; apply stays_whiteOutRow | |
    now apply elem_of_forRange | reflexivity].
  intros d Hd. unfold whiteOutRow.
  eapply (fold_left_sets _ _ xP); [intros; apply stays_whiteOutPixel | |
    now apply elem_of_forRange | exact Hd].
  intros d' Hd'. unfold whiteOutPixel.
  replace (_ || _)%bool with false
    by (symmetry; rewrite !orb_false_iff, !Z.ltb_ge, !Z.geb_leb, !Z.leb_gt; lia).
  apply setWhite_sets; [nia|lia|congruence].
Qed.

End JsQrBuffer.

Section JsQrLoop.

Import JsQr.

Variable jsQR : list Z -> Z -> Z -> option Code.

Lemma bufferAfter_S (k : nat) (imageData : ImageData) :
  bufferAfter jsQR (S k) imageData = bufferAfter jsQR k (suppressOnce jsQR imageData).
Proof. reflexivity. Qed.

(** The loop follows the detector: [n] detections in a row and then a
    "not found" make it return, after exactly [n] suppressions, with [n]
    new records. *)
Lemma scanLoop_runs (n : nat) :
  forall (imageData : ImageData) (allQrCodes : list QrCodeInfo) (fuel i : nat)
         (viewport : Viewport),
  (forall k, (k < n)%nat -> detect jsQR (bufferAfter jsQR k imageData) <> None) ->
  detect jsQR (bufferAfter jsQR n imageData) = None ->
  (n < fuel)%nat ->
  exists found,
    scanLoop jsQR fuel i viewport imageData allQrCodes
    = Some (allQrCodes ++ found, bufferAfter jsQR n imageData)
    /\ length found = n.
Proof.
  induction n as [|n IH]; intros imageData allQrCodes fuel i viewport Hfound Hend Hfuel;
    destruct fuel as [|fuel]; try lia; simpl in *.
  - rewrite Hend. exists []. now rewrite app_nil_r.
  - assert (H0 := Hfound 0%nat ltac:(lia)). simpl in H0.
    unfold suppressOnce in Hend.
    destruct (detect jsQR imageData) as [code|] eqn:Hd; [|congruence].
    destruct (IH (whiteOut imageData (code_location code))
                 (allQrCodes ++ [qrCodeInfo i viewport code]) fuel i viewport)
      as (found & Hrun & Hlen).
    + intros k Hk. specialize (Hfound (S k) ltac:(lia)). simpl in Hfound.
      unfold suppressOnce in Hfound. now rewrite Hd in Hfound.
    + exact Hend.
    + lia.
    + exists (qrCodeInfo i viewport code :: found). split.
      * unfold suppressOnce. rewrite Hd, Hrun. now rewrite <- app_assoc.
      * simpl. now rewrite Hlen.
Qed.

(** With less fuel than detections the model has not finished: the loop
    itself puts no bound on the number of rounds. *)
Lemma scanLoop_needs_fuel (n : nat) :
  forall (imageData : ImageData) (allQrCodes : list QrCodeInfo) (fuel i : nat)
         (viewport : Viewport),
  (forall k, (k < n)%nat -> detect jsQR (bufferAfter jsQR k imageData) <> None) ->
  (fuel <= n)%nat ->
  scanLoop jsQR fuel i viewport imageData allQrCodes = None.
Proof.
  induction n as [|n IH]; intros imageData allQrCodes fuel i viewport Hfound Hfuel;
    destruct fuel as [|fuel]; try lia; simpl; try reflexivity.
  assert (H0 := Hfound 0%nat ltac:(lia)). simpl in H0.
  destruct (detect jsQR imageData) as [code|] eqn:Hd; [|congruence].
  apply IH; [|lia]. intros k Hk. specialize (Hfound (S k) ltac:(lia)). simpl in Hfound.
  unfold suppressOnce in Hfound. now rewrite Hd in Hfound.
Qed.

(** When every suppression of the run changes the buffer, the detections
    of the run are bounded by the number of channel values that are not
    white. *)
Lemma detections_bounded (m : nat) :
  forall imageData : ImageData,
  (nonWhite (img_data imageData) <= m)%nat ->
  (forall k code,
     detect jsQR (bufferAfter jsQR k imageData) = Some code ->
     img_data (whiteOut (bufferAfter jsQR k imageData) (code_location code))
     <> img_data (bufferAfter jsQR k imageData)) ->
  exists n, (n <= m)%nat
    /\ (forall k, (k < n)%nat -> detect jsQR (bufferAfter jsQR k imageData) <> None)
    /\ detect jsQR (bufferAfter jsQR n imageData) = None.
Proof.
  induction m as [|m IH]; intros imageData Hm Hrun.
  - exists 0%nat. split; [lia|]. split; [intros k Hk; lia|]. simpl.
    destruct (detect jsQR imageData) as [code|] eqn:Hd; [|reflexivity].
    apply (Hrun 0%nat), whiteOut_changed_lt in Hd. cbn [bufferAfter] in Hd. lia.
  - destruct (detect jsQR imageData) as [code|] eqn:Hd.
    + assert (Hnext : suppressOnce jsQR imageData = whiteOut imageData (code_location code))
        by (unfold suppressOnce; now rewrite Hd).
      destruct (IH (whiteOut imageData (code_location code))) as (n & Hn & Hfound & Hend).
      { apply (Hrun 0%nat), whiteOut_changed_lt in Hd. cbn [bufferAfter] in Hd. lia. }
      { intros k code' Hd'. rewrite <- Hnext, <- bufferAfter_S in Hd' |- *.
        now apply Hrun. }
      exists (S n). split; [lia|]. split.
      * intros [|k] Hk; simpl; [congruence|].
        rewrite Hnext. apply Hfound. lia.
      * simpl. now rewrite Hnext.
    + exists 0%nat. split; [lia|]. split; [intros k Hk; lia|exact Hd].
Qed.

End JsQrLoop.

Section JsQrStandIns.

Import JsQr.

Lemma firstDark_found (d : list Z) :
  forall k0 k : nat,
  firstDark d k0 = Some k ->
  (k0 <= k)%nat /\ exists r, d !! (4 * (k - k0))%nat = Some r /\ r <> 255%Z.
Proof.
  induction d as [d IH] using (induction_ltof1 _ (@length Z)); unfold ltof in IH.
  intros k0 k. destruct d as [|r [|g [|b [|a rest]]]]; cbn [firstDark]; try discriminate.
  destruct (Z.eqb_spec r 255) as [->|Hr].
  - intros Hk. apply IH in Hk as (Hle & r' & Hr' & Hne); [|simpl; lia].
    split; [lia|]. exists r'. split; [|exact Hne].
    replace (4 * (k - k0))%nat with (S (S (S (S (4 * (k - S k0))))))%nat by lia.
    exact Hr'.
  - intros [= <-]. split; [lia|]. exists r. rewrite Nat.sub_diag. now split.
Qed.

Lemma Qmin_same (q : Q) : Qmin q q = q.
Proof. unfold Qmin, GenericMinMax.gmin. now destruct (q ?= q). Qed.

Lemma Qmax_same (q : Q) : Qmax q q = q.
Proof. unfold Qmax, GenericMinMax.gmax. now destruct (q ?= q). Qed.

Lemma min4_same (q : Q) : min4 q q q q = q.
Proof. unfold min4. now rewrite !Qmin_same. Qed.

Lemma max4_same (q : Q) : max4 q q q q = q.
Proof. unfold max4. now rewrite !Qmax_same. Qed.

Lemma pointCode_box (px py : Z) :
  minX (code_location (pointCode px py)) = (px - padding)%Z
  /\ maxX (code_location (pointCode px py)) = (px + padding)%Z
  /\ minY (code_location (pointCode px py)) = (py - padding)%Z
  /\ maxY (code_location (pointCode px py)) = (py + padding)%Z.
Proof.
  unfold minX, maxX, minY, maxY; simpl.
  now rewrite !min4_same, !max4_same, !Qfloor_Z, !Qceiling_Z.
Qed.

(** The stand-in [firstDarkDetector] satisfies the premise of
    termination: the suppression whitens the pixel it reported. *)
Lemma firstDarkDetector_suppression_removes (imageData : ImageData) (code : Code) :
  detect firstDarkDetector imageData = Some code ->
  img_data (whiteOut imageData (code_location code)) <> img_data imageData.
Proof.
  unfold detect, firstDarkDetector.
  destruct (firstDark (img_data imageData) 0) as [k|] eqn:Hk; [|discriminate].
  destruct (_ && _)%bool eqn:Hb; [|discriminate]. intros [= <-].
  apply andb_true_iff in Hb as [Hw Hkb]. apply Z.ltb_lt in Hw, Hkb.
  apply firstDark_found in Hk as (_ & r & Hr & Hne).
  rewrite Nat.sub_0_r in Hr.
  set (w := img_width imageData) in *. set (h := img_height imageData) in *.
  set (xP := (Z.of_nat k mod w)%Z). set (yP := (Z.of_nat k / w)%Z).
  assert (Hxb : (0 <= xP < w)%Z) by (apply Z.mod_pos_bound; lia).
  assert (Hyb : (0 <= yP < h)%Z).
  { split; [apply Z.div_pos; lia|]. apply Z.div_lt_upper_bound; lia. }
  assert (Hidx : Z.to_nat ((yP * w + xP) * 4 + 0) = (4 * k)%nat).
  { unfold xP, yP. rewrite Z.add_0_r.
    replace (Z.of_nat k / w * w + Z.of_nat k mod w)%Z with (Z.of_nat k)
      by (rewrite (Z.div_mod (Z.of_nat k) w) at 1; lia).
    lia. }
  destruct (pointCode_box xP yP) as (HminX & HmaxX & HminY & HmaxY).
  assert (Hset := whiteOut_covers_padded_box imageData
                    (code_location (pointCode xP yP)) xP yP 0).
  fold w in Hset. rewrite Hidx, HminX, HmaxX, HminY, HmaxY in Hset.
  unfold padding in Hset.
  intros E. rewrite E, Hr in Hset.
  assert (Some r = Some 255%Z) as [= ->]; [|congruence].
  apply Hset; try lia. now apply lookup_lt_Some in Hr.
Qed.

(** With [stuckDetector] the loop never returns, whatever the fuel. *)
Lemma scanLoop_stuck (fuel : nat) :
  forall (i : nat) (viewport : Viewport) (imageData : ImageData)
         (allQrCodes : list QrCodeInfo),
  scanLoop stuckDetector fuel i viewport imageData allQrCodes = None.
Proof.
  induction fuel as [|fuel IH]; intros; simpl; [reflexivity|apply IH].
Qed.

(** C4 as stated fails: for the stand-in detector that keeps reporting a
    code, no amount of fuel makes the scan loop of a blank one-pixel page
    return. *)
Lemma stuck_detector_scan_never_returns :
  ~ exists fuel result,
      scanLoop stuckDetector fuel 1 (getViewport {| view_width := 1; view_height := 1;
                                                    page_content := 0 |} scale)
               blankImage [] = Some result.
Proof.
  intros (fuel & result & H). now rewrite scanLoop_stuck in H.
Qed.

(** Pages with zero, one and two codes under the stand-in detector. *)
Example scan_blank_page :
  option_map (fun r => length (fst r))
    (scanLoop firstDarkDetector 1 1 {| vp_width := 3; vp_height := 3 |} blankImage [])
  = Some 0%nat.
Proof. reflexivity. Qed.

Example scan_strip_page :
  option_map (fun r => (length (fst r), nonWhite (img_data (snd r))))
    (scanLoop firstDarkDetector 3 1 {| vp_width := 75; vp_height := 3 |} stripImage [])
  = Some (2%nat, 0%nat).
Proof. vm_compute. reflexivity. Qed.

Example scan_strip_page_short_of_fuel :
  scanLoop firstDarkDetector 2 1 {| vp_width := 75; vp_height := 3 |} stripImage [] = None.
Proof. vm_compute. reflexivity. Qed.

End JsQrStandIns.

(** ** Bounding boxes: two corners (jsQR service) against all points
    (ZXing service) *)
Section BoundingBoxes.

Import JsQr.

(** The geometry recorded by the jsQR service is its two-corner box in
    native units. *)
Lemma jsqr_location_native (i : nat) (viewport : Viewport) (code : Code) :
  location (qrCodeInfo i viewport code) = toNative (pixelBox code) scale
  /\ imageDataUrl (qrCodeInfo i viewport code) = pixelBox code.
Proof. now split. Qed.

(** For an upright detection the recorded size is positive. *)
Lemma jsqr_upright_positive (i : nat) (viewport : Viewport) (code : Code) :
  pt_x (topLeftCorner (code_location code)) < pt_x (topRightCorner (code_location code)) ->
  pt_y (topLeftCorner (code_location code)) < pt_y (bottomLeftCorner (code_location code)) ->
  0 < width (location (qrCodeInfo i viewport code))
  /\ 0 < height (location (qrCodeInfo i viewport code)).
Proof.
  intros Hx Hy. simpl. unfold Qdiv. split.
  - apply Qmult_lt_0_compat; [|reflexivity]. unfold Qminus. now rewrite <- Qlt_minus_iff.
  - apply Qmult_lt_0_compat; [|reflexivity]. unfold Qminus. now rewrite <- Qlt_minus_iff.
Qed.

(** C3, the jsQR service at a tilted detection: the preview crop and the
    recorded geometry are the box from the top-left corner to the x of
    the top-right and the y of the bottom-left corner, (30, 10, 20, 20),
    and not the min/max box of the four corners, (10, 10, 40, 40), which
    the suppression of the same round uses. *)
Theorem jsqr_box_from_two_corners :
  let info := qrCodeInfo 1 (getViewport samplePage scale) tiltedCode in
  imageDataUrl info = {| x := 30; y := 10; width := 20; height := 20 |}
  /\ rect_eq (location info)
             (toNative {| x := 30; y := 10; width := 20; height := 20 |} scale)
  /\ fourCornerBox (code_location tiltedCode)
     = {| x := 10; y := 10; width := 40; height := 40 |}
  /\ ~ rect_eq (imageDataUrl info) (fourCornerBox (code_location tiltedCode)).
Proof.
  repeat split.
  intros (Hx & _). vm_compute in Hx. discriminate.
Qed.

(** C9, the jsQR service at a detection turned upside down: the recorded
    width and height are negative. *)
Theorem jsqr_upside_down_negative_size :
  let info := qrCodeInfo 1 (getViewport samplePage scale) upsideDownCode in
  width (location info) < 0 /\ height (location info) < 0
  /\ rect_eq (location info)
             {| x := 20; y := 20; width := - (40 # 3); height := - (40 # 3) |}.
Proof. repeat split. Qed.

End BoundingBoxes.

Section ZXingBoxes.

Import ZXing.

Lemma mathMin_le_init (vs : list Q) : forall v, mathMin v vs <= v.
Proof.
  unfold mathMin. induction vs as [|u vs IH]; intros v; simpl.
  - apply Qle_refl.
  - eapply Qle_trans; [apply IH|apply Q.le_min_l].
Qed.



Lemma mathMax_ge_init (vs : list Q) : forall v, v <= mathMax v vs.
Proof.
  unfold mathMax. induction vs as [|u vs IH]; intros v; simpl.
  - apply Qle_refl.
  - eapply Qle_trans; [apply Q.le_max_l|apply IH].
Qed.




(** The box of the ZXing service never has a negative size. *)
Lemma boundingBox_nonneg (p : ResultPoint) (ps : list ResultPoint) :
  0 <= width (boundingBox p ps) /\ 0 <= height (boundingBox p ps).
Proof.
  simpl. unfold Qminus. split; rewrite <- Qle_minus_iff.
  - eapply Qle_trans; [apply mathMin_le_init|apply mathMax_ge_init].
  - eapply Qle_trans; [apply mathMin_le_init|apply mathMax_ge_init].
Qed.

End ZXingBoxes.

(** ** The ZXing-based service: suppression and detector failures *)
Section ZXingLoop.

Import ZXing.

Variable decodeFromCanvas : Canvas -> DecodeOutcome.
Variable scale : Q.

(** One round of the loop on a decoded result: the rectangle filled with
    white is exactly the bounding box of the result points, with no
    margin around it. *)
Lemma scanLoop_fills_bounding_box (fuel i : nat) (viewport : Viewport)
  (canvas : Canvas) (st : ExtractState) (text : string) (p : ResultPoint)
  (ps : list ResultPoint) :
  decodeFromCanvas canvas = Result text p ps ->
  scanLoop decodeFromCanvas scale (S fuel) i viewport canvas st
  = scanLoop decodeFromCanvas scale fuel i viewport
      {| canvas_source := canvas_source canvas;
         canvas_fills := canvas_fills canvas ++ [("white", boundingBox p ps)] |}
      (push st (pdfQrCodeInfo scale i viewport text (boundingBox p ps))).
Proof. intros H. simpl. now rewrite H. Qed.

(** The loop returns as soon as the decoder does not return a result,
    be it "not found" or any other failure. *)
Lemma scanLoop_stops (fuel i : nat) (viewport : Viewport) (canvas : Canvas)
  (st : ExtractState) :
  (decodeFromCanvas canvas = NotFoundException ->
   scanLoop decodeFromCanvas scale (S fuel) i viewport canvas st = Some (st, canvas))
  /\ (forall err, decodeFromCanvas canvas = UnexpectedError err ->
      scanLoop decodeFromCanvas scale (S fuel) i viewport canvas st
      = Some (consoleError st err, canvas)).
Proof. split; [intros H|intros err H]; simpl; now rewrite H. Qed.

(** Records already in the list are never dropped by a page scan. *)
Lemma scanLoop_keeps (fuel : nat) :
  forall (i : nat) (viewport : Viewport) (canvas canvas' : Canvas) (st st' : ExtractState),
  scanLoop decodeFromCanvas scale fuel i viewport canvas st = Some (st', canvas') ->
  exists more, allQrCodes st' = allQrCodes st ++ more.
Proof.
  induction fuel as [|fuel IH]; intros i viewport canvas canvas' st st'; simpl;
    [discriminate|].
  destruct (decodeFromCanvas canvas) as [text p ps| |err].
  - intros H. apply IH in H as [more Hmore]. simpl in Hmore.
    exists (pdfQrCodeInfo scale i viewport text (boundingBox p ps) :: more).
    now rewrite Hmore, <- app_assoc.
  - intros [= <- <-]. exists []. now rewrite app_nil_r.
  - intros [= <- <-]. exists []. now rewrite app_nil_r.
Qed.

Lemma pagesLoop_keeps (fuel : nat) (pages : list PdfPage) :
  forall (i : nat) (st st' : ExtractState),
  pagesLoop decodeFromCanvas scale fuel i pages st = Some st' ->
  exists more, allQrCodes st' = allQrCodes st ++ more.
Proof.
  induction pages as [|page pages IH]; intros i st st'; simpl.
  - intros [= <-]. exists []. now rewrite app_nil_r.
  - destruct (scanLoop _ _ _ _ _ _ _) as [[st1 c1]|] eqn:Hscan; [|discriminate].
    intros H. apply IH in H as [more2 H2].
    apply scanLoop_keeps in Hscan as [more1 H1].
    exists (more1 ++ more2). now rewrite H2, H1, <- app_assoc.
Qed.

(** What the caller receives does not tell a failure from "not found":
    the page scan, the image scan and the page loop return the same
    records when every unexpected failure of the decoder is replaced by
    "not found". *)
Lemma scanLoop_errorsAsNotFound (fuel : nat) :
  forall (i : nat) (viewport : Viewport) (canvas : Canvas) (st1 st2 : ExtractState),
  allQrCodes st1 = allQrCodes st2 ->
  option_map (fun r => (allQrCodes (fst r), snd r))
    (scanLoop decodeFromCanvas scale fuel i viewport canvas st1)
  = option_map (fun r => (allQrCodes (fst r), snd r))
      (scanLoop (errorsAsNotFound decodeFromCanvas) scale fuel i viewport canvas st2).
Proof.
  induction fuel as [|fuel IH]; intros i viewport canvas st1 st2 Hst; simpl;
    [reflexivity|].
  unfold errorsAsNotFound at 1.
  destruct (decodeFromCanvas canvas) as [text p ps| |err]; simpl.
  - apply IH. simpl. now rewrite Hst.
  - now rewrite Hst.
  - now rewrite Hst.
Qed.

Lemma imageScanLoop_errorsAsNotFound (fuel : nat) :
  forall (image : Image) (canvas : Canvas) (st1 st2 : ExtractState),
  allQrCodes st1 = allQrCodes st2 ->
  option_map (fun r => (allQrCodes (fst r), snd r))
    (imageScanLoop decodeFromCanvas fuel image canvas st1)
  = option_map (fun r => (allQrCodes (fst r), snd r))
      (imageScanLoop (errorsAsNotFound decodeFromCanvas) fuel image canvas st2).
Proof.
  induction fuel as [|fuel IH]; intros image canvas st1 st2 Hst; simpl;
    [reflexivity|].
  unfold errorsAsNotFound at 1.
  destruct (decodeFromCanvas canvas) as [text p ps| |err]; simpl.
  - apply IH. simpl. now rewrite Hst.
  - now rewrite Hst.
  - now rewrite Hst.
Qed.

Lemma pagesLoop_errorsAsNotFound (fuel : nat) (pages : list PdfPage) :
  forall (i : nat) (st1 st2 : ExtractState),
  allQrCodes st1 = allQrCodes st2 ->
  returned (pagesLoop decodeFromCanvas scale fuel i pages st1)
  = returned (pagesLoop (errorsAsNotFound decodeFromCanvas) scale fuel i pages st2).
Proof.
  induction pages as [|page pages IH]; intros i st1 st2 Hst; simpl.
  - now rewrite Hst.
  - assert (Hscan := scanLoop_errorsAsNotFound fuel i (getViewport page scale)
                       {| canvas_source := RenderedPage page scale; canvas_fills := [] |}
                       st1 st2 Hst).
    destruct (scanLoop decodeFromCanvas _ _ _ _ _ _) as [[a1 c1]|];
      destruct (scanLoop (errorsAsNotFound decodeFromCanvas) _ _ _ _ _ _) as [[a2 c2]|];
      simpl in Hscan; try discriminate; [|reflexivity].
    apply IH. congruence.
Qed.

(** With the failures replaced, nothing is ever printed on the console. *)
Lemma scanLoop_errorsAsNotFound_console (fuel : nat) :
  forall (i : nat) (viewport : Viewport) (canvas canvas' : Canvas) (st st' : ExtractState),
  scanLoop (errorsAsNotFound decodeFromCanvas) scale fuel i viewport canvas st
  = Some (st', canvas') ->
  console st' = console st.
Proof.
  induction fuel as [|fuel IH]; intros i viewport canvas canvas' st st'; simpl;
    [discriminate|].
  unfold errorsAsNotFound at 1.
  destruct (decodeFromCanvas canvas) as [text p ps| |err].
  - intros H. now apply IH in H.
  - now intros [= <- <-].
  - now intros [= <- <-].
Qed.

(** C5 (amended). An unexpected failure of the decoder ends the scan of
    the current page like a "not found": the records found so far are
    kept and the failure is printed on the console; the following pages
    are scanned; and the list returned to the caller is the one an
    extraction returns in which every such failure is a plain "not found",
    so the caller is not told that a page was scanned only in part. This
    holds for documents and for standalone images. *)
Theorem unexpected_failure_ends_page_and_is_only_logged
  (fuel : nat) (pdf : list PdfPage) (image : Image) :
  (forall i viewport canvas st err,
      decodeFromCanvas canvas = UnexpectedError err ->
      scanLoop decodeFromCanvas scale (S fuel) i viewport canvas st
      = Some ({| allQrCodes := allQrCodes st; console := console st ++ [err] |}, canvas))
  /\ (forall i page rest st st' canvas',
      scanLoop decodeFromCanvas scale fuel i (getViewport page scale)
        {| canvas_source := RenderedPage page scale; canvas_fills := [] |} st
      = Some (st', canvas') ->
      pagesLoop decodeFromCanvas scale fuel i (page :: rest) st
      = pagesLoop decodeFromCanvas scale fuel (S i) rest st'
      /\ forall final, pagesLoop decodeFromCanvas scale fuel (S i) rest st' = Some final ->
           exists more, allQrCodes final = allQrCodes st' ++ more)
  /\ returned (extractQrCodesFromPdf decodeFromCanvas scale fuel pdf)
     = returned (extractQrCodesFromPdf (errorsAsNotFound decodeFromCanvas) scale fuel pdf)
  /\ returned (extractQrCodesFromImage decodeFromCanvas fuel image)
     = returned (extractQrCodesFromImage (errorsAsNotFound decodeFromCanvas) fuel image).
Proof.
  repeat split.
  - intros i viewport canvas st err H. now apply scanLoop_stops.
  - simpl. now rewrite H.
  - intros final Hfinal. now apply pagesLoop_keeps in Hfinal.
  - now apply pagesLoop_errorsAsNotFound.
  - unfold extractQrCodesFromImage.
    assert (H := imageScanLoop_errorsAsNotFound fuel image
                   {| canvas_source := DrawnImage image; canvas_fills := [] |}
                   {| allQrCodes := []; console := [] |}
                   {| allQrCodes := []; console := [] |} eq_refl).
    destruct (imageScanLoop decodeFromCanvas _ _ _ _) as [[a1 c1]|];
      destruct (imageScanLoop (errorsAsNotFound decodeFromCanvas) _ _ _ _) as [[a2 c2]|];
      simpl in *; congruence.
Qed.

End ZXingLoop.

Section ZXingStandIns.

Import ZXing.

(** C2, the ZXing service at a page with one code whose finder patterns
    are at (10, 50), (10, 10) and (50, 10): the scan fills exactly the
    rectangle (10, 10, 40, 40) with white. Pixel (5, 5) lies within 10
    pixels of that box and is not touched by the fill. *)
Theorem zxing_suppression_has_no_padding :
  exists st canvas,
    scanLoop oneCodeDecoder 2.0 2 1 (getViewport samplePage 2.0)
      {| canvas_source := RenderedPage samplePage 2.0; canvas_fills := [] |}
      {| allQrCodes := []; console := [] |}
    = Some (st, canvas)
    /\ canvas_fills canvas
       = [("white", {| x := 10; y := 10; width := 40; height := 40 |})]
    /\ inPaddedBox {| x := 10; y := 10; width := 40; height := 40 |} 10 5 5
    /\ forall fill, fill ∈ canvas_fills canvas -> ~ touchesPixel (snd fill) 5 5.
Proof.
  eexists _, _. split; [reflexivity|]. split; [reflexivity|]. split.
  - unfold inPaddedBox; simpl. repeat split; discriminate.
  - intros fill Hin. simpl in Hin. apply list_elem_of_singleton in Hin as ->.
    unfold touchesPixel; simpl. intros (H & _). vm_compute in H. discriminate.
Qed.

(** C5 as stated fails: the decoder that fails after the first code and
    the decoder that answers "not found" after the first code give the
    caller the same list, although only the former scan was cut short
    (its failure is on the console, which the caller does not receive). *)
Lemma failed_scan_returns_like_complete_scan :
  returned (extractQrCodesFromPdf failingDecoder 2.0 2 [samplePage])
  = returned (extractQrCodesFromPdf oneCodeDecoder 2.0 2 [samplePage])
  /\ option_map (fun st => length (allQrCodes st))
       (extractQrCodesFromPdf failingDecoder 2.0 2 [samplePage]) = Some 1%nat
  /\ option_map console (extractQrCodesFromPdf failingDecoder 2.0 2 [samplePage])
     = Some ["ChecksumException"]
  /\ option_map console (extractQrCodesFromPdf oneCodeDecoder 2.0 2 [samplePage])
     = Some [].
Proof. repeat split. Qed.

End ZXingStandIns.

(** ** Termination of the page scans *)
Section ZXingRuns.

Import ZXing ZXingRun.

Variable decodeFromCanvas : Canvas -> DecodeOutcome.
Variable scale : Q.

Lemma canvasAfter_S (k : nat) (canvas : Canvas) :
  canvasAfter decodeFromCanvas (S k) canvas
  = canvasAfter decodeFromCanvas k (suppressOnce decodeFromCanvas canvas).
Proof. reflexivity. Qed.

Lemma canvasAfter_next (k : nat) :
  forall canvas : Canvas,
  canvasAfter decodeFromCanvas (S k) canvas
  = suppressOnce decodeFromCanvas (canvasAfter decodeFromCanvas k canvas).
Proof.
  induction k as [|k IH]; intros canvas; [reflexivity|].
  rewrite canvasAfter_S, IH. reflexivity.
Qed.

(** The loop follows the decoder: [n] results in a row and then anything
    else make it return after exactly [n] fills, with [n] new records and
    with the failure, if it is one, on the console. *)
Lemma zxing_scanLoop_runs (n : nat) :
  forall (canvas : Canvas) (st : ExtractState) (fuel i : nat) (viewport : Viewport),
  (forall k, (k < n)%nat ->
     found decodeFromCanvas (canvasAfter decodeFromCanvas k canvas) = true) ->
  found decodeFromCanvas (canvasAfter decodeFromCanvas n canvas) = false ->
  (n < fuel)%nat ->
  exists st',
    scanLoop decodeFromCanvas scale fuel i viewport canvas st
    = Some (st', canvasAfter decodeFromCanvas n canvas)
    /\ length (allQrCodes st') = (length (allQrCodes st) + n)%nat
    /\ console st'
       = console st ++ logged decodeFromCanvas (canvasAfter decodeFromCanvas n canvas).
Proof.
  induction n as [|n IH]; intros canvas st fuel i viewport Hfound Hend Hfuel;
    destruct fuel as [|fuel]; try lia; cbn [scanLoop canvasAfter] in *.
  - unfold found in Hend. unfold logged.
    destruct (decodeFromCanvas canvas) as [text p ps| |err]; [discriminate| |].
    + exists st. split; [reflexivity|]. split; [lia|now rewrite app_nil_r].
    + exists (consoleError st err). split; [reflexivity|]. split; [cbn; lia|reflexivity].
  - assert (H0 := Hfound 0%nat ltac:(lia)). cbn [canvasAfter] in H0.
    unfold found in H0. unfold suppressOnce in Hend, Hfound |- *.
    destruct (decodeFromCanvas canvas) as [text p ps| |err] eqn:Hd; try discriminate.
    destruct (IH (fillRect canvas "white" (x (boundingBox p ps)) (y (boundingBox p ps))
                    (width (boundingBox p ps)) (height (boundingBox p ps)))
                 (push st (pdfQrCodeInfo scale i viewport text (boundingBox p ps)))
                 fuel i viewport)
      as (st' & Hrun & Hlen & Hlog).
    + intros k Hk. specialize (Hfound (S k) ltac:(lia)). cbn [canvasAfter] in Hfound.
      unfold suppressOnce in Hfound. now rewrite Hd in Hfound.
    + exact Hend.
    + lia.
    + exists st'. split; [exact Hrun|]. split; [|exact Hlog].
      rewrite Hlen. cbn [push allQrCodes]. rewrite length_app. cbn [length]. lia.
Qed.

Lemma zxing_scanLoop_needs_fuel (n : nat) :
  forall (canvas : Canvas) (st : ExtractState) (fuel i : nat) (viewport : Viewport),
  (forall k, (k < n)%nat ->
     found decodeFromCanvas (canvasAfter decodeFromCanvas k canvas) = true) ->
  (fuel <= n)%nat ->
  scanLoop decodeFromCanvas scale fuel i viewport canvas st = None.
Proof.
  induction n as [|n IH]; intros canvas st fuel i viewport Hfound Hfuel;
    destruct fuel as [|fuel]; try lia; cbn [scanLoop]; try reflexivity.
  assert (H0 := Hfound 0%nat ltac:(lia)). cbn [canvasAfter] in H0. unfold found in H0.
  destruct (decodeFromCanvas canvas) as [text p ps| |err] eqn:Hd; try discriminate.
  apply IH; [|lia]. intros k Hk. specialize (Hfound (S k) ltac:(lia)).
  cbn [canvasAfter] in Hfound. unfold suppressOnce in Hfound. now rewrite Hd in Hfound.
Qed.

(** When every fill of the run lowers the measure, the results of the run
    are bounded by the measure of the first canvas. *)
Lemma zxing_detections_bounded (measure : Canvas -> nat) (m : nat) :
  forall canvas : Canvas,
  (measure canvas <= m)%nat ->
  (forall k,
     found decodeFromCanvas (canvasAfter decodeFromCanvas k canvas) = true ->
     (measure (canvasAfter decodeFromCanvas (S k) canvas)
      < measure (canvasAfter decodeFromCanvas k canvas))%nat) ->
  exists n, (n <= m)%nat
    /\ (forall k, (k < n)%nat ->
          found decodeFromCanvas (canvasAfter decodeFromCanvas k canvas) = true)
    /\ found decodeFromCanvas (canvasAfter decodeFromCanvas n canvas) = false.
Proof.
  induction m as [|m IH]; intros canvas Hm Hrun.
  - exists 0%nat. split; [lia|]. split; [intros k Hk; lia|]. cbn [canvasAfter].
    destruct (found decodeFromCanvas canvas) eqn:Hf; [|reflexivity].
    apply (Hrun 0%nat) in Hf. cbn [canvasAfter] in Hf. lia.
  - destruct (found decodeFromCanvas canvas) eqn:Hf.
    + destruct (IH (suppressOnce decodeFromCanvas canvas)) as (n & Hn & Hfound & Hend).
      { apply (Hrun 0%nat) in Hf. cbn [canvasAfter] in Hf. lia. }
      { intros k Hk. rewrite <- !canvasAfter_S. now apply Hrun. }
      exists (S n). split; [lia|]. split.
      * intros [|k] Hk; [exact Hf|]. rewrite canvasAfter_S. apply Hfound. lia.
      * now rewrite canvasAfter_S.
    + exists 0%nat. split; [lia|]. split; [intros k Hk; lia|exact Hf].
Qed.

End ZXingRuns.

Section ScanTermination.

Import JsQr.

(** C4 (amended). A run of the per-page scan loop terminates when every
    suppression of that run removes something. For the jsQR loop: when
    each suppression of the run changes the buffer (turns at least one
    colour channel white), the loop makes [n] rounds, [n] at most the
    number of non-white channel values of the page, stops exactly at the
    first buffer on which the detector signals "not found", returns the
    [n] new records, and never returns before (there is no cap of its
    own). For the ZXing loop: when each fill of the run lowers a measure
    of the canvas, the loop makes [n] rounds, [n] at most the measure of
    the first canvas, and stops exactly at the first canvas on which the
    decoder does not return a result, be it "not found" or any other
    failure, which is then printed on the console. *)
Theorem scan_terminates_when_suppression_removes :
  (forall (jsQR : list Z -> Z -> Z -> option Code) (i : nat) (viewport : Viewport)
          (imageData : ImageData) (allQrCodes : list QrCodeInfo),
     (forall k code,
        detect jsQR (bufferAfter jsQR k imageData) = Some code ->
        img_data (whiteOut (bufferAfter jsQR k imageData) (code_location code))
        <> img_data (bufferAfter jsQR k imageData)) ->
     exists n,
       (n <= nonWhite (img_data imageData))%nat
       /\ (forall k, (k < n)%nat -> detect jsQR (bufferAfter jsQR k imageData) <> None)
       /\ detect jsQR (bufferAfter jsQR n imageData) = None
       /\ (forall fuel, (n < fuel)%nat ->
             exists found,
               scanLoop jsQR fuel i viewport imageData allQrCodes
               = Some (allQrCodes ++ found, bufferAfter jsQR n imageData)
               /\ length found = n)
       /\ (forall fuel, (fuel <= n)%nat ->
             scanLoop jsQR fuel i viewport imageData allQrCodes = None))
  /\ (forall (decodeFromCanvas : ZXing.Canvas -> ZXing.DecodeOutcome) (scale : Q)
            (measure : ZXing.Canvas -> nat) (i : nat) (viewport : Viewport)
            (canvas : ZXing.Canvas) (st : ZXing.ExtractState),
        (forall k,
           ZXingRun.found decodeFromCanvas
             (ZXingRun.canvasAfter decodeFromCanvas k canvas) = true ->
           (measure (ZXingRun.canvasAfter decodeFromCanvas (S k) canvas)
            < measure (ZXingRun.canvasAfter decodeFromCanvas k canvas))%nat) ->
        exists n,
          (n <= measure canvas)%nat
          /\ (forall k, (k < n)%nat ->
                ZXingRun.found decodeFromCanvas
                  (ZXingRun.canvasAfter decodeFromCanvas k canvas) = true)
          /\ ZXingRun.found decodeFromCanvas
               (ZXingRun.canvasAfter decodeFromCanvas n canvas) = false
          /\ (forall fuel, (n < fuel)%nat ->
                exists st',
                  ZXing.scanLoop decodeFromCanvas scale fuel i viewport canvas st
                  = Some (st', ZXingRun.canvasAfter decodeFromCanvas n canvas)
                  /\ length (ZXing.allQrCodes st')
                     = (length (ZXing.allQrCodes st) + n)%nat
                  /\ ZXing.console st'
                     = ZXing.console st
                         ++ ZXingRun.logged decodeFromCanvas
                              (ZXingRun.canvasAfter decodeFromCanvas n canvas))
          /\ (forall fuel, (fuel <= n)%nat ->
                ZXing.scanLoop decodeFromCanvas scale fuel i viewport canvas st = None)).
Proof.
  split.
  - intros jsQR i viewport imageData allQrCodes Hrun.
    destruct (detections_bounded jsQR (nonWhite (img_data imageData)) imageData
                (le_n _) Hrun) as (n & Hn & Hfound & Hend).
    exists n. repeat split; try assumption.
    + intros fuel Hfuel. now apply scanLoop_runs.
    + intros fuel Hfuel. now apply (scanLoop_needs_fuel jsQR n).
  - intros decodeFromCanvas scale measure i viewport canvas st Hrun.
    destruct (zxing_detections_bounded decodeFromCanvas measure (measure canvas) canvas
                (le_n _) Hrun) as (n & Hn & Hfound & Hend).
    exists n. repeat split; try assumption.
    + intros fuel Hfuel. now apply zxing_scanLoop_runs.
    + intros fuel Hfuel. now apply (zxing_scanLoop_needs_fuel decodeFromCanvas scale n).
Qed.

End ScanTermination.

Section ScanTerminationExamples.

Import JsQr JsQrRun.

(** The buffers of a run keep the length of the first one. *)
Lemma bufferAfter_length (jsQR : list Z -> Z -> Z -> option Code) (k : nat) :
  forall imageData : ImageData,
  length (img_data (bufferAfter jsQR k imageData)) = length (img_data imageData).
Proof.
  induction k as [|k IH]; intros imageData; [reflexivity|].
  rewrite bufferAfter_S, IH. unfold suppressOnce.
  destruct (detect jsQR imageData) as [code|]; [|reflexivity].
  apply stays_whiteOut.
Qed.

(** On the strip, every suppression of the run of [moodyDetector] changes
    the buffer, although the detector is stuck on another buffer. *)
Lemma moodyDetector_strip_run (k : nat) (code : Code) :
  detect moodyDetector (bufferAfter moodyDetector k stripImage) = Some code ->
  img_data (whiteOut (bufferAfter moodyDetector k stripImage) (code_location code))
  <> img_data (bufferAfter moodyDetector k stripImage).
Proof.
  pose proof (bufferAfter_length moodyDetector k stripImage) as Hlen.
  set (buffer := bufferAfter moodyDetector k stripImage) in *.
  intros Hd. apply firstDarkDetector_suppression_removes.
  unfold detect, moodyDetector in Hd |- *. rewrite Hlen in Hd. exact Hd.
Qed.

Lemma moodyDetector_is_stuck_elsewhere :
  detect moodyDetector blankImage = Some (pointCode 0 0)
  /\ img_data (whiteOut blankImage (code_location (pointCode 0 0))) = img_data blankImage.
Proof. split; vm_compute; reflexivity. Qed.

Lemma twoCodesThenError_run (canvas : ZXing.Canvas) (k : nat) :
  ZXingRun.found ZXingRun.twoCodesThenError
    (ZXingRun.canvasAfter ZXingRun.twoCodesThenError k canvas) = true ->
  (ZXingRun.fillsLeft (ZXingRun.canvasAfter ZXingRun.twoCodesThenError (S k) canvas)
   < ZXingRun.fillsLeft (ZXingRun.canvasAfter ZXingRun.twoCodesThenError k canvas))%nat.
Proof.
  rewrite canvasAfter_next.
  generalize (ZXingRun.canvasAfter ZXingRun.twoCodesThenError k canvas).
  intros [source fills].
  unfold ZXingRun.found, ZXingRun.suppressOnce, ZXingRun.twoCodesThenError,
    ZXingRun.fillsLeft, ZXing.fillRect.
  cbn [ZXing.canvas_fills ZXing.canvas_source].
  destruct fills as [|fill1 [|fill2 fills]]; [| |discriminate];
    intros _; cbn; lia.
Qed.

Lemma scan_terminates_when_suppression_removes_witness :
  (forall k code,
      detect moodyDetector (bufferAfter moodyDetector k stripImage) = Some code ->
      img_data (whiteOut (bufferAfter moodyDetector k stripImage) (code_location code))
      <> img_data (bufferAfter moodyDetector k stripImage))
  /\ (exists n,
        (n <= nonWhite (img_data stripImage))%nat
        /\ forall fuel, (n < fuel)%nat ->
             exists found,
               scanLoop moodyDetector fuel 1 {| vp_width := 75; vp_height := 3 |}
                 stripImage []
               = Some ([] ++ found, bufferAfter moodyDetector n stripImage)
               /\ length found = n)
  /\ (exists n,
        (n <= 2)%nat
        /\ forall fuel, (n < fuel)%nat ->
             exists st',
               ZXing.scanLoop ZXingRun.twoCodesThenError 2 fuel 1
                 {| vp_width := 1200; vp_height := 1600 |}
                 {| ZXing.canvas_source := ZXing.RenderedPage samplePage 2;
                    ZXing.canvas_fills := [] |}
                 {| ZXing.allQrCodes := []; ZXing.console := [] |}
               = Some (st', ZXingRun.canvasAfter ZXingRun.twoCodesThenError n
                              {| ZXing.canvas_source := ZXing.RenderedPage samplePage 2;
                                 ZXing.canvas_fills := [] |})
               /\ length (ZXing.allQrCodes st') = (0 + n)%nat).
Proof.
  destruct scan_terminates_when_suppression_removes as (Hjs & Hzx).
  split; [exact moodyDetector_strip_run|]. split.
  - destruct (Hjs moodyDetector 1%nat {| vp_width := 75; vp_height := 3 |} stripImage []
                moodyDetector_strip_run) as (n & Hn & _ & _ & Hrun & _).
    exists n. split; [exact Hn|exact Hrun].
  - destruct (Hzx ZXingRun.twoCodesThenError 2 ZXingRun.fillsLeft 1%nat
                {| vp_width := 1200; vp_height := 1600 |}
                {| ZXing.canvas_source := ZXing.RenderedPage samplePage 2;
                   ZXing.canvas_fills := [] |}
                {| ZXing.allQrCodes := []; ZXing.console := [] |}
                (twoCodesThenError_run _)) as (n & Hn & _ & _ & Hrun & _).
    exists n. split; [exact Hn|].
    intros fuel Hfuel. destruct (Hrun fuel Hfuel) as (st' & Hst & Hlen & _).
    exists st'. split; [exact Hst|exact Hlen].
Defined.

(** The ZXing scan of the stand-in page: two records, then the failure
    ends the scan and is printed. *)
Example zxing_scan_ends_on_a_failure :
  option_map (fun r => (length (ZXing.allQrCodes (fst r)), ZXing.console (fst r)))
    (ZXing.scanLoop ZXingRun.twoCodesThenError 2 3 1
       {| vp_width := 1200; vp_height := 1600 |}
       {| ZXing.canvas_source := ZXing.RenderedPage samplePage 2;
          ZXing.canvas_fills := [] |}
       {| ZXing.allQrCodes := []; ZXing.console := [] |})
  = Some (2%nat, ["ChecksumException"]).
Proof. vm_compute. reflexivity. Qed.

End ScanTerminationExamples.

(** ** Replacement: pages of the output document *)
Ltac split_comparisons :=
  repeat match goal with
         | |- context [Nat.leb ?a ?b] => destruct (Nat.leb_spec a b)
         | |- context [Nat.ltb ?a ?b] => destruct (Nat.ltb_spec a b)
         | |- context [Nat.eqb ?a ?b] => destruct (Nat.eqb_spec a b)
         end;
  cbn [andb negb app]; try reflexivity; try lia.

Section ReplaceOutput.

Import Replace ReplaceFacts.

Variable QRCode : option (string -> QrOptions -> Completion string).
Variable imageLoads : string -> bool.

Lemma addImage_snoc (newPdf : list OutputPage) (pg : OutputPage) (img : AddedImage) :
  addImage (newPdf ++ [pg]) img
  = newPdf ++ [ {| format := format pg; orientation := orientation pg;
                   images := images pg ++ [img] |} ].
Proof.
  induction newPdf as [|pg0 rest IH]; [reflexivity|].
  change ((pg0 :: rest) ++ [pg]) with (pg0 :: (rest ++ [pg])).
  destruct (rest ++ [pg]) as [|pg1 more] eqn:E.
  - now destruct rest.
  - change (addImage (pg0 :: pg1 :: more) img) with (pg0 :: addImage (pg1 :: more) img).
    rewrite IH. reflexivity.
Qed.

(** From the second round on: the loop fails when the page of the code is
    among the pages left and the new code image does not load; otherwise
    it adds one page per page of the input. *)
Lemma replaceLoop_later (pages : list PdfPage) :
  forall (i : nat) (qr : QrCodeInfo) (url : string) (c : Json)
         (newPdf : list OutputPage),
  (1 < i)%nat ->
  replaceLoop imageLoads i pages qr url c newPdf
  = if ((i <=? pageNumber qr) && (pageNumber qr <? i + length pages)
        && negb (imageLoads url))%nat
    then Throw "error event"
    else Normal (newPdf ++ laterPages qr url c i pages).
Proof.
  induction pages as [|page rest IH]; intros i qr url c newPdf Hi;
    cbn [replaceLoop laterPages length].
  - rewrite app_nil_r. split_comparisons.
  - destruct (Nat.ltb_spec 1 i) as [_|?]; [|lia].
    unfold loadImage, roundImage.
    destruct (Nat.eqb_spec i (pageNumber qr)) as [E|E].
    + destruct (imageLoads url) eqn:Hload; cbn [bind].
      * rewrite IH by lia. rewrite Hload. rewrite !andb_false_r.
        unfold addPage. rewrite addImage_snoc.
        cbn [format orientation images app]. rewrite <- app_assoc. reflexivity.
      * split_comparisons.
    + cbn [bind]. rewrite IH by lia.
      unfold addPage. rewrite addImage_snoc.
      cbn [format orientation images app]. rewrite <- app_assoc.
      destruct (imageLoads url); [now rewrite !andb_false_r|].
      rewrite !andb_true_r. split_comparisons.
Qed.

(** The outcome of [replaceQrCodeInPdf]: the failure of the generator, or
    the failure to load the new code image when the page of the code is a
    page of the document, or the output, page by page. *)
Lemma replaceQrCodeInPdf_closed_form (page : PdfPage) (rest : list PdfPage)
  (qr : QrCodeInfo) (newUrl : string) (c : Json) :
  replaceQrCodeInPdf QRCode imageLoads (page :: rest) qr newUrl c
  = bind (generateQrCodeDataUrl QRCode newUrl c 2)
      (fun url =>
         if ((1 <=? pageNumber qr) && (pageNumber qr <=? length (page :: rest))
             && negb (imageLoads url))%nat
         then Throw "error event"
         else Normal
                ({| format := (pageWidth qr, pageHeight qr);
                    orientation := orientationOf (pageWidth qr) (pageHeight qr);
                    images := [roundImage qr url c 1 page] |}
                 :: laterPages qr url c 2 rest)).
Proof.
  unfold replaceQrCodeInPdf.
  destruct (generateQrCodeDataUrl QRCode newUrl c 2) as [url|e]; [|reflexivity].
  cbn [bind replaceLoop]. change (1 <? 1)%nat with false. cbv iota.
  unfold loadImage, roundImage, jsPDF.
  destruct (Nat.eqb_spec 1 (pageNumber qr)) as [E|E].
  - destruct (imageLoads url) eqn:Hload; cbn [bind].
    + rewrite replaceLoop_later by lia. rewrite Hload, !andb_false_r.
      cbn [addImage format orientation images app]. reflexivity.
    + rewrite <- E. cbn [length negb]. split_comparisons.
  - cbn [bind]. rewrite replaceLoop_later by lia.
    cbn [addImage format orientation images app length].
    destruct (imageLoads url); [now rewrite !andb_false_r|].
    rewrite !andb_true_r. split_comparisons.
Qed.

(** What an output that is returned looks like. *)
Lemma replaceQrCodeInPdf_returned (page : PdfPage) (rest : list PdfPage)
  (qr : QrCodeInfo) (newUrl : string) (c : Json) (out : list OutputPage) :
  replaceQrCodeInPdf QRCode imageLoads (page :: rest) qr newUrl c = Normal out ->
  exists url,
    generateQrCodeDataUrl QRCode newUrl c 2 = Normal url
    /\ ((1 <= pageNumber qr <= length (page :: rest))%nat -> imageLoads url = true)
    /\ out = {| format := (pageWidth qr, pageHeight qr);
                orientation := orientationOf (pageWidth qr) (pageHeight qr);
                images := [roundImage qr url c 1 page] |}
             :: laterPages qr url c 2 rest.
Proof.
  rewrite replaceQrCodeInPdf_closed_form.
  destruct (generateQrCodeDataUrl QRCode newUrl c 2) as [url|e]; [|discriminate].
  cbn [bind]. destruct (imageLoads url) eqn:Hload.
  - rewrite !andb_false_r. intros [= <-]. exists url.
    split; [reflexivity|]. split; [now intros _|reflexivity].
  - rewrite andb_true_r.
    destruct ((1 <=? pageNumber qr) && (pageNumber qr <=? length (page :: rest)))%nat
      eqn:Hrange; [discriminate|].
    intros [= <-]. exists url. split; [reflexivity|]. split; [|reflexivity].
    intros [H1 H2].
    apply andb_false_iff in Hrange as [Hr|Hr]; apply Nat.leb_gt in Hr; lia.
Qed.

(** When the generator resolves and the new code image loads, the
    output is returned. *)
Lemma replaceQrCodeInPdf_returns (page : PdfPage) (rest : list PdfPage)
  (qr : QrCodeInfo) (newUrl : string) (c : Json) (url : string) :
  generateQrCodeDataUrl QRCode newUrl c 2 = Normal url ->
  imageLoads url = true ->
  replaceQrCodeInPdf QRCode imageLoads (page :: rest) qr newUrl c
  = Normal ({| format := (pageWidth qr, pageHeight qr);
               orientation := orientationOf (pageWidth qr) (pageHeight qr);
               images := [roundImage qr url c 1 page] |}
            :: laterPages qr url c 2 rest).
Proof.
  intros Hgen Hload. rewrite replaceQrCodeInPdf_closed_form, Hgen. cbn [bind].
  now rewrite Hload, !andb_false_r.
Qed.

Lemma gt_scale1 (a b : Q) : gt (a * 1.0) (b * 1.0) = gt a b.
Proof.
  unfold gt. f_equal. apply eq_true_iff_eq. rewrite !Qle_bool_iff.
  assert (Ha : a * 1.0 == a) by field. assert (Hb : b * 1.0 == b) by field.
  now rewrite Ha, Hb.
Qed.

(** A page added by the loop has the native size and the orientation of
    its input page. *)
Lemma viewportShape_native (page : PdfPage) (out : OutputPage) :
  shape out = viewportShape page -> sameSizeAndOrientation out page.
Proof.
  unfold shape, viewportShape, sameSizeAndOrientation, orientationOf. simpl.
  intros [= Hf Ho]. rewrite Hf, Ho; simpl. rewrite gt_scale1.
  repeat split; field.
Qed.

Lemma laterPages_lookup (qr : QrCodeInfo) (url : string) (c : Json)
  (pages : list PdfPage) :
  forall (i k : nat) (page : PdfPage) (out : OutputPage),
  pages !! k = Some page -> laterPages qr url c i pages !! k = Some out ->
  images out = [roundImage qr url c (i + k) page]
  /\ sameSizeAndOrientation out page.
Proof.
  induction pages as [|page0 rest IH]; intros i [|k] page out; simpl;
    try discriminate.
  - intros [= <-] [= <-]. rewrite Nat.add_0_r. split; [reflexivity|].
    now apply viewportShape_native.
  - intros Hp Ho. replace (i + S k)%nat with (S i + k)%nat by lia. now apply IH.
Qed.

Lemma laterPages_length (qr : QrCodeInfo) (url : string) (c : Json)
  (pages : list PdfPage) :
  forall i, length (laterPages qr url c i pages) = length pages.
Proof. induction pages as [|page rest IH]; intros i; simpl; [reflexivity|now rewrite IH]. Qed.

Lemma roundImage_overlay (qr : QrCodeInfo) (url : string) (c : Json) (i : nat)
  (page : PdfPage) :
  omap (fun img => pc_overlay (ai_canvas img)) [roundImage qr url c i page]
  = if (i =? pageNumber qr)%nat then [replacementDraw qr url c] else [].
Proof. unfold roundImage. simpl. now destruct (i =? pageNumber qr)%nat. Qed.

Lemma laterPages_overlays (qr : QrCodeInfo) (url : string) (c : Json)
  (pages : list PdfPage) :
  forall i,
  overlayList (laterPages qr url c i pages)
  = if ((i <=? pageNumber qr) && (pageNumber qr <? i + length pages))%nat
    then [replacementDraw qr url c] else [].
Proof.
  induction pages as [|page rest IH]; intros i.
  - cbn [laterPages overlayList map concat length]. split_comparisons.
  - change (overlayList (laterPages qr url c i (page :: rest)))
      with (omap (fun img => pc_overlay (ai_canvas img)) [roundImage qr url c i page]
            ++ overlayList (laterPages qr url c (S i) rest)).
    rewrite IH, roundImage_overlay. cbn [length]. split_comparisons.
Qed.

(** The replacements drawn in an output that is returned: one, on the
    page of the code, when that page is a page of the document, and none
    otherwise. *)
Lemma overlayList_returned (page : PdfPage) (rest : list PdfPage)
  (qr : QrCodeInfo) (c : Json) (url : string) :
  overlayList ({| format := (pageWidth qr, pageHeight qr);
                  orientation := orientationOf (pageWidth qr) (pageHeight qr);
                  images := [roundImage qr url c 1 page] |}
               :: laterPages qr url c 2 rest)
  = if ((1 <=? pageNumber qr) && (pageNumber qr <=? length (page :: rest)))%nat
    then [replacementDraw qr url c]
    else [].
Proof.
  change (overlayList (?first :: ?later))
    with (omap (fun img => pc_overlay (ai_canvas img)) (images first) ++ overlayList later).
  rewrite laterPages_overlays.
  change (images _) with [roundImage qr url c 1 page].
  rewrite roundImage_overlay. cbn [length]. split_comparisons.
Qed.

(** C8 at a two-page document, portrait then landscape, with the code on
    page 2: whenever the output is returned it has two pages; its first
    page is 800 x 600 landscape, the size of page 2, and not the
    600 x 800 portrait of page 1; its second page has the size and
    orientation of page 2. The output is returned when the generator
    resolves and the new code image loads. *)
Theorem first_output_page_sized_by_code_page :
  (forall out,
     replaceQrCodeInPdf QRCode imageLoads mixedDocument codeOnSecondPage
       "https://new.example/target" defaultCustomization = Normal out ->
     exists first second,
       out = [first; second]
       /\ format first = (800, 600)
       /\ orientation first = Landscape
       /\ ~ sameSizeAndOrientation first samplePage
       /\ sameSizeAndOrientation second landscapePage)
  /\ exists out,
       replaceQrCodeInPdf workingQRCode everyImageLoads mixedDocument codeOnSecondPage
         "https://new.example/target" defaultCustomization = Normal out.
Proof.
  split.
  - intros out Hout. apply replaceQrCodeInPdf_returned in Hout as (url & _ & _ & ->).
    eexists _, _. split; [reflexivity|]. split; [reflexivity|]. split; [reflexivity|].
    split.
    + intros (Hw & _). simpl in Hw. vm_compute in Hw. discriminate.
    + repeat split.
  - eexists. reflexivity.
Qed.

End ReplaceOutput.

(** ** Strings *)
Section Strings.

Import App AppFacts.

Lemma append_cons (c : ascii) (a b : string) :
  (String c a ++ b)%string = String c (a ++ b)%string.
Proof. reflexivity. Qed.

Lemma append_nil (b : string) : (EmptyString ++ b)%string = b.
Proof. reflexivity. Qed.

Lemma string_app_assoc (a b c : string) :
  ((a ++ b) ++ c)%string = (a ++ (b ++ c))%string.
Proof.
  induction a as [|ch a IH]; [reflexivity|]. now rewrite !append_cons, IH.
Qed.

Lemma string_app_nil_r (a : string) : (a ++ "")%string = a.
Proof. induction a as [|ch a IH]; [reflexivity|]. now rewrite append_cons, IH. Qed.

Lemma rev_app_append (s acc : string) :
  String.rev_app s acc = (String.rev s ++ acc)%string.
Proof.
  unfold String.rev. revert acc.
  induction s as [|c s IH]; intros acc; [reflexivity|].
  cbn [String.rev_app]. rewrite (IH (String c acc)), (IH (String c "")).
  now rewrite string_app_assoc.
Qed.

Lemma rev_append (a b : string) :
  String.rev (a ++ b) = (String.rev b ++ String.rev a)%string.
Proof.
  induction a as [|c a IH].
  - now rewrite append_nil, string_app_nil_r.
  - rewrite append_cons. unfold String.rev at 1 3. cbn [String.rev_app].
    rewrite !rev_app_append, IH. now rewrite string_app_assoc.
Qed.

Lemma rev_involutive (s : string) : String.rev (String.rev s) = s.
Proof.
  induction s as [|c s IH]; [reflexivity|].
  unfold String.rev at 2. cbn [String.rev_app]. rewrite rev_app_append, rev_append, IH.
  reflexivity.
Qed.

(** [trim] leaves alone a string that neither starts nor ends with a
    blank. *)
Lemma trim_inked (s : string) (c d : ascii) (s' r' : string) :
  s = String c s' -> Ascii.is_space c = false ->
  String.rev s = String d r' -> Ascii.is_space d = false ->
  trim s = s.
Proof.
  intros Es Hc Er Hd. unfold trim.
  assert (E1 : trimStart s = s) by (rewrite Es; cbn [trimStart]; now rewrite Hc).
  rewrite E1.
  assert (E2 : trimStart (String.rev s) = String.rev s)
    by (rewrite Er; cbn [trimStart]; now rewrite Hd).
  rewrite E2. apply rev_involutive.
Qed.

(** [trim] removes the blank that ends a sentence. *)
Lemma trim_sentence (s : string) (c : ascii) (s' : string) :
  s = String c s' -> Ascii.is_space c = false ->
  trim (s ++ ". ") = (s ++ ".")%string.
Proof.
  intros Es Hc. unfold trim.
  assert (E1 : trimStart (s ++ ". ") = (s ++ ". ")%string)
    by (rewrite Es, append_cons; cbn [trimStart]; now rewrite Hc).
  rewrite E1, rev_append.
  change (String.rev ". ") with (" " ++ ".")%string.
  rewrite string_app_assoc.
  change (trimStart (" " ++ "." ++ String.rev s)) with ("." ++ String.rev s)%string.
  rewrite rev_append, rev_involutive. reflexivity.
Qed.

Lemma includes_refl (s : string) : includes s s.
Proof. exists ""%string, ""%string. now rewrite append_nil, string_app_nil_r. Qed.

Lemma includes_app (s sub before after : string) :
  includes s sub -> includes (before ++ s ++ after) sub.
Proof.
  intros (b & a & ->). exists (before ++ b)%string, (a ++ after)%string.
  now rewrite !string_app_assoc.
Qed.

Lemma concat_includes (sep : string) (l : list string) (m : string) :
  m ∈ l -> includes (String.concat sep l) m.
Proof.
  induction l as [|x l IH]; intros Hm; [now apply elem_of_nil in Hm|].
  destruct l as [|y r].
  - apply list_elem_of_singleton in Hm as ->. apply includes_refl.
  - change (String.concat sep (x :: y :: r))
      with (x ++ sep ++ String.concat sep (y :: r))%string.
    apply elem_of_cons in Hm as [->|Hm].
    + exists ""%string, (sep ++ String.concat sep (y :: r))%string. reflexivity.
    + specialize (IH Hm). destruct IH as (b & a & E). rewrite E.
      exists (x ++ sep ++ b)%string, a. now rewrite !string_app_assoc.
Qed.

End Strings.

(** ** App: batches of files *)
Section AppBatch.

Import App.

Variable fromPdf : File -> Settled (list QrCodeInfo).
Variable fromImage : File -> Settled (list QrCodeInfo).

Lemma collectStep_fold (fileList : list File) :
  forall (done : list ProcessedFile) (failed : list string),
  fold_left collectStep (combine (map (processPromise fromPdf fromImage) fileList) fileList) (done, failed)
  = (done ++ omap (fun f => fulfilledValue ((processPromise fromPdf fromImage) f)) fileList,
     failed ++ omap (fun f => failureEntry f ((processPromise fromPdf fromImage) f)) fileList).
Proof.
  induction fileList as [|f fileList IH]; intros done failed; simpl.
  - now rewrite !app_nil_r.
  - unfold collectStep at 2; simpl.
    destruct ((processPromise fromPdf fromImage) f) as [v|r]; simpl; rewrite IH; now rewrite <- app_assoc.
Qed.

(** Each file contributes on its own: its result if its promise was
    fulfilled, its message if it was rejected. *)
Lemma successfulFiles_omap (fileList : list File) :
  (successfulFiles fromPdf fromImage) fileList = omap (fun f => fulfilledValue ((processPromise fromPdf fromImage) f)) fileList.
Proof.
  unfold successfulFiles, collected, settledResults. now rewrite collectStep_fold.
Qed.

Lemma failedFileMessages_omap (fileList : list File) :
  (failedFileMessages fromPdf fromImage) fileList
  = omap (fun f => failureEntry f ((processPromise fromPdf fromImage) f)) fileList.
Proof.
  unfold failedFileMessages, collected, settledResults. now rewrite collectStep_fold.
Qed.

Lemma successfulFiles_app (l1 l2 : list File) :
  (successfulFiles fromPdf fromImage) (l1 ++ l2) = (successfulFiles fromPdf fromImage) l1 ++ (successfulFiles fromPdf fromImage) l2.
Proof. rewrite !successfulFiles_omap. apply omap_app. Qed.

Lemma failedFileMessages_app (l1 l2 : list File) :
  (failedFileMessages fromPdf fromImage) (l1 ++ l2) = (failedFileMessages fromPdf fromImage) l1 ++ (failedFileMessages fromPdf fromImage) l2.
Proof. rewrite !failedFileMessages_omap. apply omap_app. Qed.

Lemma every_file_counted (fileList : list File) :
  (length ((successfulFiles fromPdf fromImage) fileList) + length ((failedFileMessages fromPdf fromImage) fileList)
   = length fileList)%nat.
Proof.
  rewrite successfulFiles_omap, failedFileMessages_omap.
  induction fileList as [|f fileList IH]; [reflexivity|].
  unfold omap in *. simpl.
  destruct ((processPromise fromPdf fromImage) f); simpl; lia.
Qed.

Lemma hasInk_trimStart (s : string) : hasInk s = true -> hasInk (trimStart s) = true.
Proof.
  induction s as [|c s IH]; simpl; [discriminate|].
  destruct (Ascii.is_space c) eqn:Hc; simpl; [exact IH|]. now rewrite Hc.
Qed.

Lemma hasInk_rev_app (s : string) :
  forall acc, hasInk s || hasInk acc = true -> hasInk (String.rev_app s acc) = true.
Proof.
  induction s as [|c s IH]; intros acc; simpl; [easy|].
  intros H. apply IH. simpl. destruct (Ascii.is_space c), (hasInk s), (hasInk acc); easy.
Qed.

Lemma hasInk_trim (s : string) : hasInk s = true -> hasInk (trim s) = true.
Proof.
  intros H. unfold trim, String.rev.
  apply hasInk_rev_app. rewrite orb_true_iff. left.
  apply hasInk_trimStart, hasInk_rev_app. rewrite orb_true_iff. left.
  now apply hasInk_trimStart.
Qed.

Lemma hasInk_nonempty (s : string) : hasInk s = true -> String.eqb s "" = false.
Proof. destruct s; [discriminate|reflexivity]. Qed.

(** With at least one failure the message is not blank. *)
Lemma currentError_hasInk (done : list ProcessedFile) (failed : list string) :
  failed <> [] -> hasInk (currentError done failed) = true.
Proof.
  intros Hf. unfold currentError.
  destruct failed as [|m failed]; [congruence|].
  change (0 <? length (m :: failed))%nat with true. cbv iota.
  destruct (_ && _)%bool; [reflexivity|]. destruct (_ && _)%bool; reflexivity.
Qed.

(** With at least one failure, the message shown is made of the list of
    the failure entries, joined by "; ", between the words that introduce
    it and a full stop; a sentence may precede it and another follow. *)
Lemma currentError_trimmed (done : list ProcessedFile) (failed : list string) :
  failed <> [] ->
  exists head tail,
    trim (currentError done failed)
    = (head ++ "Не вдалося обробити деякі файли: " ++ String.concat "; " failed
         ++ "." ++ tail)%string.
Proof.
  intros Hf. unfold currentError.
  destruct failed as [|m failed]; [congruence|].
  change (0 <? length (m :: failed))%nat with true. cbv iota.
  set (J := String.concat "; " (m :: failed)).
  rewrite andb_true_r.
  destruct (length done =? 0)%nat.
  - exists "Не вдалося обробити жодного з вибраних файлів. "%string, ""%string.
    rewrite <- !string_app_assoc.
    erewrite trim_sentence; [|reflexivity|reflexivity].
    now rewrite !string_app_assoc.
  - cbn [andb].
    destruct ((0 <? length done)%nat
              && forallb (fun res => (length (qrCodes res) =? 0)%nat) done)%bool.
    + exists ""%string,
        " QR-кодів не знайдено в жодному з успішно оброблених файлів."%string.
      erewrite trim_inked;
        [|reflexivity|reflexivity|rewrite rev_append; reflexivity|reflexivity].
      now rewrite !string_app_assoc.
    + exists ""%string, ""%string.
      rewrite <- !string_app_assoc.
      erewrite trim_sentence; [|reflexivity|reflexivity].
      now rewrite !string_app_assoc.
Qed.

(** C6. In a batch in which the promise of file [f] is rejected (its type
    is not supported, or its extraction failed), the files before and
    after [f] are processed as they are without it: the results kept are
    the results of the other files, in order; the failure messages are
    those of the other files with one entry for [f], naming it, in its
    place; every file is counted once; every file whose promise was
    fulfilled has its result in the state; and the failure is reported in
    [error], which lists the failure entries and holds the entry of [f],
    while the handler ends normally. *)
Theorem batch_failure_is_isolated (st : AppState) (pre post : list File)
  (f : File) (r : Reason) :
  (processPromise fromPdf fromImage) f = rejected r ->
  let files := pre ++ f :: post in
  let st' := (handleFileChange fromPdf fromImage) st files in
  processedFiles st' = (successfulFiles fromPdf fromImage) pre ++ (successfulFiles fromPdf fromImage) post
  /\ (failedFileMessages fromPdf fromImage) files
     = (failedFileMessages fromPdf fromImage) pre ++ [(name f ++ ": " ++ messageOr r)%string]
         ++ (failedFileMessages fromPdf fromImage) post
  /\ (length (processedFiles st') + length ((failedFileMessages fromPdf fromImage) files)
      = length files)%nat
  /\ (forall g v, g ∈ pre ++ post -> (processPromise fromPdf fromImage) g = fulfilled v ->
        v ∈ processedFiles st')
  /\ (exists e, error st' = Some e
                /\ e = trim (currentError (processedFiles st') ((failedFileMessages fromPdf fromImage) files))
                /\ (exists head tail,
                      e = (head ++ "Не вдалося обробити деякі файли: "
                             ++ String.concat "; "
                                  ((failedFileMessages fromPdf fromImage) files)
                             ++ "." ++ tail)%string)
                /\ AppFacts.includes e (name f ++ ": " ++ messageOr r))
  /\ isLoading st' = false
  /\ customization st' = customization st.
Proof.
  intros Hf files st'.
  assert (Hfiles : exists g rest, files = g :: rest).
  { unfold files. destruct pre; simpl; eauto. }
  destruct Hfiles as (g0 & rest0 & Hfiles).
  assert (Hdone : processedFiles st' = (successfulFiles fromPdf fromImage) files).
  { unfold st', handleFileChange. now rewrite Hfiles. }
  assert (Hsucc : (successfulFiles fromPdf fromImage) files = (successfulFiles fromPdf fromImage) pre ++ (successfulFiles fromPdf fromImage) post).
  { unfold files. rewrite successfulFiles_app.
    change (f :: post) with ([f] ++ post). rewrite successfulFiles_app.
    rewrite (successfulFiles_omap [f]). simpl. now rewrite Hf. }
  assert (Hfail : (failedFileMessages fromPdf fromImage) files
                  = (failedFileMessages fromPdf fromImage) pre ++ [(name f ++ ": " ++ messageOr r)%string]
                      ++ (failedFileMessages fromPdf fromImage) post).
  { unfold files. rewrite failedFileMessages_app.
    change (f :: post) with ([f] ++ post). rewrite failedFileMessages_app.
    rewrite (failedFileMessages_omap [f]). simpl. now rewrite Hf. }
  assert (Hne : (failedFileMessages fromPdf fromImage) files <> []).
  { rewrite Hfail. destruct ((failedFileMessages fromPdf fromImage) pre); discriminate. }
  split; [now rewrite Hdone|]. split; [exact Hfail|].
  split; [rewrite Hdone; apply every_file_counted|].
  split.
  { intros g v Hg Hv. rewrite Hdone, Hsucc, <- successfulFiles_app, successfulFiles_omap.
    apply list_elem_of_omap. exists g. split; [exact Hg|]. now rewrite Hv. }
  split; [|split; unfold st', handleFileChange; now rewrite Hfiles].
  assert (Hink : hasInk (trim (currentError ((successfulFiles fromPdf fromImage) files)
                                             ((failedFileMessages fromPdf fromImage) files))) = true)
    by (apply hasInk_trim, currentError_hasInk; exact Hne).
  exists (trim (currentError ((successfulFiles fromPdf fromImage) files) ((failedFileMessages fromPdf fromImage) files))).
  split.
  { unfold st', handleFileChange. rewrite Hfiles. rewrite <- Hfiles. simpl.
    now rewrite (hasInk_nonempty _ Hink). }
  split; [now rewrite Hdone|].
  destruct (currentError_trimmed ((successfulFiles fromPdf fromImage) files)
              ((failedFileMessages fromPdf fromImage) files) Hne) as (head & tail & Hform).
  split; [exists head, tail; exact Hform|].
  rewrite Hform, <- (string_app_assoc head).
  apply includes_app, concat_includes. rewrite Hfail.
  apply elem_of_app. right. apply elem_of_app. left. apply list_elem_of_singleton.
  reflexivity.
Qed.

End AppBatch.

Section AppBatchExamples.

Import App.

Lemma batch_failure_is_isolated_witness :
  processPromise extractStandIn extractStandIn notesTxt
  = rejected {| message := Some "Непідтримуваний тип файлу: notes.txt" |}
  /\ processedFiles
       (handleFileChange extractStandIn extractStandIn initialState
          ([reportPdf] ++ notesTxt :: [photoPng]))
     = [ {| file := reportPdf; qrCodes := [foundCode];
            pf_id := ("report.PDF", 1700000000000%Z) |};
         {| file := photoPng; qrCodes := [foundCode];
            pf_id := ("photo.png", 1700000000002%Z) |} ]
  /\ failedFileMessages extractStandIn extractStandIn
       ([reportPdf] ++ notesTxt :: [photoPng])
     = ["notes.txt: Непідтримуваний тип файлу: notes.txt"]
  /\ exists e,
       error (handleFileChange extractStandIn extractStandIn initialState
                ([reportPdf] ++ notesTxt :: [photoPng])) = Some e
       /\ AppFacts.includes e "notes.txt: Непідтримуваний тип файлу: notes.txt".
Proof.
  split; [reflexivity|].
  destruct (batch_failure_is_isolated extractStandIn extractStandIn initialState
              [reportPdf] [photoPng] notesTxt
              {| message := Some "Непідтримуваний тип файлу: notes.txt" |} eq_refl)
    as (Hdone & Hfailed & _ & _ & (e & He & _ & _ & Hin) & _).
  split; [exact Hdone|]. split; [exact Hfailed|].
  exists e. split; [exact He|exact Hin].
Defined.

(** The state after the batch of the three files: the two results, and
    the failure of the second file in the message. *)
Example three_file_batch_state :
  let st' := handleFileChange extractStandIn extractStandIn initialState
               [reportPdf; notesTxt; photoPng] in
  map (fun pf => name (file pf)) (processedFiles st') = ["report.PDF"; "photo.png"]
  /\ error st'
     = Some "Не вдалося обробити деякі файли: notes.txt: Непідтримуваний тип файлу: notes.txt."
  /\ isLoading st' = false.
Proof. vm_compute. repeat split. Qed.

End AppBatchExamples.

(** ** App: settings import *)
Section AppSettings.

Import App.

Variable JSON_parse : string -> option Json.

(** C7. Importing a settings record that has no [size] of type number, or
    no [color], or no [backgroundColor], is rejected with the
    settings-format message, and nothing of the state but [error]
    changes: the customization in memory stays as it was. *)
Theorem import_rejects_malformed_settings (st : AppState) (text : string)
  (fields : list (string * Json)) :
  JSON_parse text = Some (JObject fields) ->
  (forall n, lookupField "size" fields <> Some (JNumber n))
  \/ lookupField "color" fields = None
  \/ lookupField "backgroundColor" fields = None ->
  let st' := onload JSON_parse st (Some text) in
  customization st' = customization st
  /\ error st' = Some "Невірний формат файлу налаштувань."
  /\ processedFiles st' = processedFiles st
  /\ selectedQr st' = selectedQr st.
Proof.
  intros Hparse Hbad. unfold onload. rewrite Hparse.
  assert (Hcond : settingsCondition (JObject fields) = Normal false).
  { unfold settingsCondition; simpl.
    destruct Hbad as [Hsize|[Hcolor|Hbg]].
    - destruct (truthy (lookupField "color" fields)); [|reflexivity].
      destruct (truthy (lookupField "backgroundColor" fields)); [|reflexivity].
      destruct (lookupField "size" fields) as [[| | n | | |]|]; try reflexivity.
      now destruct (Hsize n).
    - now rewrite Hcolor.
    - rewrite Hbg. now destruct (truthy (lookupField "color" fields)). }
  rewrite Hcond. repeat split.
Qed.

(** C10. The import accepts every record whose [color] and
    [backgroundColor] are truthy and whose [size] is a number, whatever
    the number (zero, negative, NaN included): the record, as parsed and
    with any further field, becomes the customization and no error is
    set. With this customization, whenever [replaceQrCodeInPdf] returns an
    output for a code whose page is a page of the document, exactly one
    replacement is drawn in it, at the stored position, and that number is
    its width and its height as handed to [drawImage]; and the output is
    returned whenever the generator resolves and the new code image
    loads. *)
Theorem import_accepts_any_number_as_size (st : AppState) (text : string)
  (fields : list (string * Json)) (c b : Json) (n : JsNumber) :
  JSON_parse text = Some (JObject fields) ->
  lookupField "color" fields = Some c -> truthy (Some c) = true ->
  lookupField "backgroundColor" fields = Some b -> truthy (Some b) = true ->
  lookupField "size" fields = Some (JNumber n) ->
  let st' := onload JSON_parse st (Some text) in
  customization st' = JObject fields
  /\ error st' = error st
  /\ forall (QRCode : option (string -> Replace.QrOptions -> Completion string))
            (imageLoads : string -> bool) (page : PdfPage) (rest : list PdfPage)
            (qrToReplace : QrCodeInfo) (newUrl : string),
       (1 <= pageNumber qrToReplace <= length (page :: rest))%nat ->
       (forall out,
          Replace.replaceQrCodeInPdf QRCode imageLoads (page :: rest) qrToReplace newUrl
            (customization st') = Normal out ->
          exists d,
            ReplaceFacts.overlayList out = [d]
            /\ Replace.di_width d = Some (JNumber n)
            /\ Replace.di_height d = Some (JNumber n)
            /\ Replace.di_x d = x (location qrToReplace)
            /\ Replace.di_y d = y (location qrToReplace))
       /\ (forall url,
             Replace.generateQrCodeDataUrl QRCode newUrl (customization st') 2
             = Normal url ->
             imageLoads url = true ->
             exists out,
               Replace.replaceQrCodeInPdf QRCode imageLoads (page :: rest) qrToReplace
                 newUrl (customization st') = Normal out).
Proof.
  intros Hparse Hc Hct Hb Hbt Hn. unfold onload. rewrite Hparse.
  assert (Hcond : settingsCondition (JObject fields) = Normal true).
  { unfold settingsCondition; simpl. now rewrite Hc, Hct, Hb, Hbt, Hn. }
  rewrite Hcond. split; [reflexivity|]. split; [reflexivity|].
  cbn [customization setCustomization].
  intros QRCode imageLoads page rest qrToReplace newUrl [Hlo Hhi]. split.
  - intros out Hout.
    apply replaceQrCodeInPdf_returned in Hout as (url & _ & _ & ->).
    rewrite overlayList_returned.
    destruct (Nat.leb_spec 1 (pageNumber qrToReplace)) as [_|?]; [|lia].
    destruct (Nat.leb_spec (pageNumber qrToReplace) (length (page :: rest))) as [_|?];
      [|lia].
    cbn [andb]. eexists. split; [reflexivity|].
    unfold Replace.replacementDraw, Replace.field.
    cbn [Replace.di_width Replace.di_height Replace.di_x Replace.di_y getProp].
    rewrite Hn. repeat split.
  - intros url Hgen Hload. eexists.
    now apply replaceQrCodeInPdf_returns with (url := url).
Qed.

(** Anything else that [JSON.parse] can return is turned down as well:
    [null] raises inside the [try] and the other values have no [color]. *)
Lemma import_rejects_non_objects (st : AppState) (text : string) (settings : Json) :
  JSON_parse text = Some settings ->
  (forall fields, settings <> JObject fields) ->
  customization (onload JSON_parse st (Some text)) = customization st
  /\ exists e, error (onload JSON_parse st (Some text)) = Some e.
Proof.
  intros Hparse Hno. unfold onload. rewrite Hparse.
  destruct settings; simpl; eauto. now destruct (Hno fields).
Qed.

End AppSettings.

Section AppSettingsExamples.

Import App.

Lemma import_rejects_malformed_settings_witness :
  parseStandIn settingsWithoutSize
  = Some (JObject [("color", JString "#111111"); ("backgroundColor", JString "#eeeeee")])
  /\ ((forall n, lookupField "size"
                   [("color", JString "#111111"); ("backgroundColor", JString "#eeeeee")]
                 <> Some (JNumber n))
      \/ lookupField "color"
           [("color", JString "#111111"); ("backgroundColor", JString "#eeeeee")] = None
      \/ lookupField "backgroundColor"
           [("color", JString "#111111"); ("backgroundColor", JString "#eeeeee")] = None)
  /\ customization (onload parseStandIn initialState (Some settingsWithoutSize))
     = customization initialState
  /\ error (onload parseStandIn initialState (Some settingsWithoutSize))
     = Some "Невірний формат файлу налаштувань.".
Proof.
  assert (Hsize : forall n,
             lookupField "size"
               [("color", JString "#111111"); ("backgroundColor", JString "#eeeeee")]
             <> Some (JNumber n)).
  { intros n. vm_compute. discriminate. }
  split; [reflexivity|]. split; [left; exact Hsize|].
  destruct (import_rejects_malformed_settings parseStandIn initialState
              settingsWithoutSize
              [("color", JString "#111111"); ("backgroundColor", JString "#eeeeee")]
              eq_refl (or_introl Hsize))
    as (Hcust & Herr & _).
  split; [exact Hcust|exact Herr].
Defined.

Lemma import_accepts_any_number_as_size_witness :
  parseStandIn settingsWithNegativeSize
  = Some (JObject [("color", JString "#111111"); ("backgroundColor", JString "#eeeeee");
                   ("size", JNumber (Finite (-5))); ("note", JString "kept")])
  /\ customization (onload parseStandIn initialState (Some settingsWithNegativeSize))
     = JObject [("color", JString "#111111"); ("backgroundColor", JString "#eeeeee");
                ("size", JNumber (Finite (-5))); ("note", JString "kept")]
  /\ exists out d,
       Replace.replaceQrCodeInPdf Replace.workingQRCode Replace.everyImageLoads
         [samplePage] foundCode "https://new.example/target"
         (customization (onload parseStandIn initialState (Some settingsWithNegativeSize)))
       = Normal out
       /\ ReplaceFacts.overlayList out = [d]
       /\ Replace.di_width d = Some (JNumber (Finite (-5)))
       /\ Replace.di_height d = Some (JNumber (Finite (-5))).
Proof.
  split; [reflexivity|].
  destruct (import_accepts_any_number_as_size parseStandIn initialState
              settingsWithNegativeSize
              [("color", JString "#111111"); ("backgroundColor", JString "#eeeeee");
               ("size", JNumber (Finite (-5))); ("note", JString "kept")]
              (JString "#111111") (JString "#eeeeee") (Finite (-5))
              eq_refl eq_refl eq_refl eq_refl eq_refl eq_refl)
    as (Hcust & _ & Hdraw).
  split; [exact Hcust|].
  assert (Hrange : (1 <= pageNumber foundCode <= length [samplePage])%nat)
    by (cbn; lia).
  destruct (Hdraw Replace.workingQRCode Replace.everyImageLoads samplePage []
              foundCode "https://new.example/target" Hrange) as (Hsize & Hreturns).
  destruct (Hreturns "data:image/png;qr=https://new.example/target"%string
              eq_refl eq_refl) as (out & Hout).
  destruct (Hsize out Hout) as (d & Hd & Hw & Hh & _).
  exists out, d. split; [exact Hout|]. split; [exact Hd|]. split; [exact Hw|exact Hh].
Defined.

(** The condition of the import on records with a zero size and with a
    NaN size: both pass. *)
Example settingsCondition_zero_and_nan :
  settingsCondition (JObject [("color", JString "#111111");
                              ("backgroundColor", JString "#eeeeee");
                              ("size", JNumber (Finite 0))]) = Normal true
  /\ settingsCondition (JObject [("color", JString "#111111");
                                 ("backgroundColor", JString "#eeeeee");
                                 ("size", JNumber NaN)]) = Normal true
  /\ settingsCondition (JObject [("color", JString "#111111");
                                 ("backgroundColor", JString "#eeeeee");
                                 ("size", JString "100")]) = Normal false.
Proof. repeat split. Qed.

(** The replacement drawn after the import of the negative size, and
    the outcome when the text is too long for the generator. *)
Example negative_size_is_drawn :
  exists page d,
    Replace.replaceQrCodeInPdf Replace.workingQRCode Replace.everyImageLoads
      [samplePage] foundCode "https://new.example/target"
      (customization (onload parseStandIn initialState (Some settingsWithNegativeSize)))
    = Normal [page]
    /\ map (fun img => Replace.pc_overlay (Replace.ai_canvas img)) (Replace.images page)
       = [Some d]
    /\ Replace.di_width d = Some (JNumber (Finite (-5)))
    /\ Replace.di_height d = Some (JNumber (Finite (-5)))
    /\ Replace.di_x d = 50 /\ Replace.di_y d = 50.
Proof. eexists _, _. repeat split. Qed.

End AppSettingsExamples.

(** ** Further properties: the suppression of the jsQR service *)
Section SuppressionFacts.

Import JsQr Facts.

Lemma insert_white_cases (i : nat) (d : list Z) (j : nat) :
  <[i := 255%Z]> d !! j = d !! j \/ (<[i := 255%Z]> d !! j = Some 255%Z /\ j = i).
Proof.
  destruct (decide (i = j)) as [->|Hne].
  - destruct (decide (j < length d)%nat) as [Hlt|Hge].
    + right. split; [now apply list_lookup_insert_eq|reflexivity].
    + left. rewrite list_insert_ge; [reflexivity|lia].
  - left. now apply list_lookup_insert_ne.
Qed.

Lemma setWhite_cases (idx : Z) (d : list Z) (j : nat) :
  setWhite idx d !! j = d !! j
  \/ (setWhite idx d !! j = Some 255%Z
      /\ exists c, (0 <= c <= 2)%Z /\ j = Z.to_nat (idx + c)).
Proof.
  unfold setWhite.
  destruct (insert_white_cases (Z.to_nat (idx + 2))
              (<[Z.to_nat (idx + 1) := 255%Z]> (<[Z.to_nat idx := 255%Z]> d)) j)
    as [E2|[E2 ->]]; [|right; split; [exact E2|exists 2%Z; split; [lia|reflexivity]]].
  rewrite E2.
  destruct (insert_white_cases (Z.to_nat (idx + 1)) (<[Z.to_nat idx := 255%Z]> d) j)
    as [E1|[E1 ->]]; [|right; split; [exact E1|exists 1%Z; split; [lia|reflexivity]]].
  rewrite E1.
  destruct (insert_white_cases (Z.to_nat idx) d j) as [E0|[E0 ->]]; [now left|].
  right; split; [exact E0|]. exists 0%Z. split; [lia|]. now rewrite Z.add_0_r.
Qed.

Lemma whiteOutPixel_cases (w h yP : Z) (d : list Z) (xP : Z) (j : nat) :
  whiteOutPixel w h yP d xP !! j = d !! j
  \/ (whiteOutPixel w h yP d xP !! j = Some 255%Z
      /\ (0 <= xP < w)%Z /\ (0 <= yP < h)%Z
      /\ exists c, (0 <= c <= 2)%Z /\ j = Z.to_nat ((yP * w + xP) * 4 + c)).
Proof.
  unfold whiteOutPixel.
  destruct (_ || _)%bool eqn:Hb; [now left|].
  rewrite !orb_false_iff, !Z.ltb_ge, !Z.geb_leb, !Z.leb_gt in Hb.
  destruct (setWhite_cases ((yP * w + xP) * 4) d j) as [E|[E Hc]]; [now left|].
  right. repeat split; try lia; assumption.
Qed.

(** A loop whose every round leaves channel [j] alone or makes it white
    for a reason [C] does so as a whole. *)
Lemma fold_left_cases {B : Type} (f : list Z -> B -> list Z) (C : B -> nat -> Prop)
  (bs : list B) :
  (forall d b j, b ∈ bs -> f d b !! j = d !! j \/ (f d b !! j = Some 255%Z /\ C b j)) ->
  (forall d b, stays d (f d b)) ->
  forall d j,
    fold_left f bs d !! j = d !! j
    \/ (fold_left f bs d !! j = Some 255%Z /\ exists b, b ∈ bs /\ C b j).
Proof.
  intros Hstep Hstay. induction bs as [|b0 bs IH]; intros d j; simpl; [now left|].
  destruct IH with (d := f d b0) (j := j) as [E|[E (b & Hb & HC)]].
  - intros d' b j' Hb. apply Hstep. now apply list_elem_of_further.
  - rewrite E. destruct (Hstep d b0 j (list_elem_of_here _ _)) as [E0|[E0 HC]];
      [now left|right]. split; [exact E0|]. exists b0. split; [apply list_elem_of_here|exact HC].
  - right. split; [exact E|]. exists b. split; [now apply list_elem_of_further|exact HC].
Qed.

Lemma whiteOut_cases (imageData : ImageData) (l : Location) (j : nat) :
  img_data (whiteOut imageData l) !! j = img_data imageData !! j
  \/ (img_data (whiteOut imageData l) !! j = Some 255%Z /\ coveredIndex imageData l j).
Proof.
  unfold whiteOut; simpl.
  set (w := img_width imageData). set (h := img_height imageData).
  destruct (fold_left_cases (whiteOutRow w h l)
              (fun yP j => exists xP c, (minX l <= xP < maxX l)%Z /\ (0 <= xP < w)%Z
                                        /\ (0 <= yP < h)%Z /\ (0 <= c <= 2)%Z
                                        /\ j = Z.to_nat ((yP * w + xP) * 4 + c))
              (forRange (minY l) (maxY l))) with (d := img_data imageData) (j := j)
    as [E|[E (yP & HyP & xP & c & Hx & Hxb & Hyb & Hc & Hj)]].
  - intros d yP j' _. unfold whiteOutRow.
    destruct (fold_left_cases (whiteOutPixel w h yP)
                (fun xP j => (0 <= xP < w)%Z /\ (0 <= yP < h)%Z
                             /\ exists c, (0 <= c <= 2)%Z
                                          /\ j = Z.to_nat ((yP * w + xP) * 4 + c))
                (forRange (minX l) (maxX l))) with (d := d) (j := j')
      as [E|[E (xP & HxP & Hxb & Hyb & c & Hc & Hj)]].
    + intros d' xP j'' _. apply whiteOutPixel_cases.
    + intros d' xP. apply stays_whiteOutPixel.
    + now left.
    + right. split; [exact E|]. exists xP, c. apply elem_of_forRange in HxP.
      repeat split; try lia; assumption.
  - intros d yP. apply stays_whiteOutRow.
  - now left.
  - right. split; [exact E|]. exists xP, yP, c. apply elem_of_forRange in HyP.
    repeat split; try lia; assumption.
Qed.

Lemma coveredIndex_white (imageData : ImageData) (l : Location) (j : nat) :
  coveredIndex imageData l j -> (j < length (img_data imageData))%nat ->
  img_data (whiteOut imageData l) !! j = Some 255%Z.
Proof.
  intros (xP & yP & c & Hx & Hy & Hxb & Hyb & Hc & ->) Hlen.
  now apply whiteOut_covers_padded_box.
Qed.

Lemma coveredIndex_whiteOut (imageData : ImageData) (l l' : Location) (j : nat) :
  coveredIndex (whiteOut imageData l') l j <-> coveredIndex imageData l j.
Proof. reflexivity. Qed.

(** The position of a channel in the data determines its pixel. *)
Lemma pixel_index_inj (w x1 y1 c1 x2 y2 c2 : Z) :
  (0 <= x1 < w)%Z -> (0 <= x2 < w)%Z -> (0 <= y1)%Z -> (0 <= y2)%Z ->
  (0 <= c1 <= 3)%Z -> (0 <= c2 <= 3)%Z ->
  Z.to_nat ((y1 * w + x1) * 4 + c1) = Z.to_nat ((y2 * w + x2) * 4 + c2) ->
  x1 = x2 /\ y1 = y2 /\ c1 = c2.
Proof.
  intros Hx1 Hx2 Hy1 Hy2 Hc1 Hc2 E.
  assert (E' : ((y1 * w + x1) * 4 + c1 = (y2 * w + x2) * 4 + c2)%Z) by nia.
  assert (Hp : (y1 * w + x1 = y2 * w + x2)%Z) by lia.
  assert (Hy : y1 = y2) by nia.
  subst. repeat split; lia.
Qed.

Lemma ImageData_eq (a b : ImageData) :
  img_data a = img_data b -> img_width a = img_width b ->
  img_height a = img_height b -> a = b.
Proof. destruct a, b; simpl. now intros -> -> ->. Qed.

End SuppressionFacts.

Section SuppressionTheorems.

Import JsQr Facts.

(** X1. In a well-formed image (four bytes per pixel), the suppression
    sets to 255 the three colour channels of every pixel of the image that
    lies in the bounding box of the four corners extended by [padding] on
    each side. *)
Theorem suppression_whitens_padded_box (imageData : ImageData) (l : Location)
  (xP yP c : Z) :
  length (img_data imageData) = Z.to_nat (4 * img_width imageData * img_height imageData) ->
  (minX l <= xP < maxX l)%Z -> (minY l <= yP < maxY l)%Z ->
  (0 <= xP < img_width imageData)%Z -> (0 <= yP < img_height imageData)%Z ->
  (0 <= c <= 2)%Z ->
  img_data (whiteOut imageData l) !! Z.to_nat ((yP * img_width imageData + xP) * 4 + c)
  = Some 255%Z.
Proof.
  intros Hlen Hx Hy Hxb Hyb Hc.
  apply whiteOut_covers_padded_box; try assumption.
  rewrite Hlen. apply Z2Nat.inj_lt; nia.
Qed.

Lemma suppression_whitens_padded_box_witness :
  length (img_data stripImage)
  = Z.to_nat (4 * img_width stripImage * img_height stripImage)
  /\ img_data (whiteOut stripImage (code_location (pointCode 0 0)))
       !! Z.to_nat ((0 * img_width stripImage + 5) * 4 + 1)
     = Some 255%Z.
Proof.
  split; [reflexivity|].
  apply suppression_whitens_padded_box; [reflexivity|..]; vm_compute;
    (split; congruence).
Defined.

(** X2. The suppression touches nothing else: the image keeps its size
    and the length of its data; a byte that is not a colour channel of an
    in-image pixel of the padded box keeps its value; so does every alpha
    byte, and every channel of a pixel outside the padded box. *)
Theorem suppression_frame (imageData : ImageData) (l : Location) :
  img_width (whiteOut imageData l) = img_width imageData
  /\ img_height (whiteOut imageData l) = img_height imageData
  /\ length (img_data (whiteOut imageData l)) = length (img_data imageData)
  /\ (forall j, ~ coveredIndex imageData l j ->
        img_data (whiteOut imageData l) !! j = img_data imageData !! j)
  /\ (forall xP yP,
        (0 <= xP < img_width imageData)%Z -> (0 <= yP)%Z ->
        img_data (whiteOut imageData l)
          !! Z.to_nat ((yP * img_width imageData + xP) * 4 + 3)
        = img_data imageData !! Z.to_nat ((yP * img_width imageData + xP) * 4 + 3))
  /\ (forall xP yP c,
        (0 <= xP < img_width imageData)%Z -> (0 <= yP)%Z -> (0 <= c <= 3)%Z ->
        ~ ((minX l <= xP < maxX l)%Z /\ (minY l <= yP < maxY l)%Z) ->
        img_data (whiteOut imageData l)
          !! Z.to_nat ((yP * img_width imageData + xP) * 4 + c)
        = img_data imageData !! Z.to_nat ((yP * img_width imageData + xP) * 4 + c)).
Proof.
  assert (Hframe : forall j, ~ coveredIndex imageData l j ->
             img_data (whiteOut imageData l) !! j = img_data imageData !! j).
  { intros j Hno. destruct (whiteOut_cases imageData l j) as [E|[_ Hc]];
      [exact E|contradiction]. }
  split; [reflexivity|]. split; [reflexivity|].
  split; [apply stays_whiteOut|]. split; [exact Hframe|]. split.
  - intros xP yP Hx Hy. apply Hframe.
    intros (x' & y' & c' & _ & _ & Hx' & Hy' & Hc' & E).
    apply pixel_index_inj in E; lia.
  - intros xP yP c Hx Hy Hc Hout. apply Hframe.
    intros (x' & y' & c' & Hbx & Hby & Hx' & Hy' & Hc' & E).
    apply pixel_index_inj in E; [destruct E as (-> & -> & _); now apply Hout|lia..].
Qed.

(** X3. Suppressing the same location twice is suppressing it once. *)
Theorem suppression_idempotent (imageData : ImageData) (l : Location) :
  whiteOut (whiteOut imageData l) l = whiteOut imageData l.
Proof.
  assert (E : img_data (whiteOut (whiteOut imageData l) l) = img_data (whiteOut imageData l)).
  { apply list_eq. intros j.
    destruct (whiteOut_cases (whiteOut imageData l) l j) as [E|[E Hc]]; [exact E|].
    rewrite E. symmetry. apply coveredIndex_white.
    - now apply (coveredIndex_whiteOut imageData l l j).
    - apply lookup_lt_Some in E.
      destruct (stays_whiteOut (whiteOut imageData l) l) as [L1 _].
      destruct (stays_whiteOut imageData l) as [L2 _]. lia. }
  now apply ImageData_eq.
Qed.

(** X4. The suppression never darkens the buffer: a channel at 255 stays
    at 255, the number of channel values that are not 255 does not grow,
    and it stays the same only when the buffer is unchanged. *)
Theorem suppression_never_darkens (imageData : ImageData) (l : Location) :
  (forall j, img_data imageData !! j = Some 255%Z ->
             img_data (whiteOut imageData l) !! j = Some 255%Z)
  /\ (nonWhite (img_data (whiteOut imageData l)) <= nonWhite (img_data imageData))%nat
  /\ (nonWhite (img_data (whiteOut imageData l)) = nonWhite (img_data imageData) ->
      whiteOut imageData l = imageData).
Proof.
  split; [apply stays_whiteOut|].
  destruct (whitened_whiteOut imageData l) as [E|Hlt].
  - split; [rewrite E; lia|]. intros _. now apply ImageData_eq.
  - split; [lia|lia].
Qed.

End SuppressionTheorems.

(** ** Further properties: the records of an extraction *)
Section GroupingFacts.

Import Facts.

Lemma viewport_native (page : PdfPage) (scale : Q) :
  0 < scale ->
  vp_width (getViewport page scale) / scale == view_width page
  /\ vp_height (getViewport page scale) / scale == view_height page.
Proof. intros Hs. simpl. split; now apply Qmult_div_cancel. Qed.


End GroupingFacts.

Section JsQrRecords.

Import JsQr Facts.

Variable jsQR : list Z -> Z -> Z -> option Code.
Variable getImageData : PdfPage -> Q -> ImageData.




End JsQrRecords.

Section JsQrRecordsExample.

Import JsQr Facts.


End JsQrRecordsExample.

Section ZXingRecords.

Import ZXing Facts.

Variable decodeFromCanvas : Canvas -> DecodeOutcome.
Variable scale : Q.
Hypothesis scale_positive : 0 < scale.

(** What a page scan leaves behind: new records of that page, each with a
    box that is the bounding box of result points; one white fill per new
    record, of that box, in the same order; at most one console line; and
    a canvas on which the decoder no longer returns a result. *)
Lemma zxing_scanLoop_records (fuel : nat) :
  forall (i : nat) (page : PdfPage) (canvas canvas' : Canvas) (st st' : ExtractState),
  scanLoop decodeFromCanvas scale fuel i (getViewport page scale) canvas st
  = Some (st', canvas') ->
  exists found,
    allQrCodes st' = allQrCodes st ++ found
    /\ Forall (fun info => recordOfPage scale i page info
                           /\ exists text p ps,
                                data info = text /\ imageDataUrl info = boundingBox p ps)
              found
    /\ canvas_fills canvas'
       = canvas_fills canvas ++ map (fun info => ("white", imageDataUrl info)) found
    /\ canvas_source canvas' = canvas_source canvas
    /\ ((console st' = console st /\ decodeFromCanvas canvas' = NotFoundException)
        \/ exists err, console st' = console st ++ [err]
                       /\ decodeFromCanvas canvas' = UnexpectedError err).
Proof.
  induction fuel as [|fuel IH]; intros i page canvas canvas' st st'; simpl;
    [discriminate|].
  destruct (decodeFromCanvas canvas) as [text p ps| |err] eqn:Hd.
  - intros H. apply IH in H as (found & Hall & Hrec & Hfills & Hsrc & Hend).
    simpl in Hall, Hfills, Hsrc, Hend.
    exists (pdfQrCodeInfo scale i (getViewport page scale) text (boundingBox p ps) :: found).
    split; [now rewrite Hall, <- app_assoc|]. split.
    { constructor; [|exact Hrec].
      destruct (viewport_native page scale scale_positive) as [Hw Hh].
      split; [repeat split; assumption|]. now exists text, p, ps. }
    split; [rewrite Hfills, <- app_assoc; reflexivity|]. split; [exact Hsrc|exact Hend].
  - intros [= <- <-]. exists []. rewrite !app_nil_r.
    repeat split; [constructor|]. now left.
  - intros [= <- <-]. exists []. rewrite !app_nil_r.
    repeat split; [constructor|]. right. now exists err.
Qed.




(** X7. A page scan that returns has filled with white exactly the boxes
    of the records it added, once each and in the order of the records,
    has left what was drawn on the canvas first in place, and stops on a
    canvas on which the decoder does not return a result. *)
Theorem zxing_fills_are_the_record_boxes (fuel i : nat) (page : PdfPage)
  (canvas canvas' : Canvas) (st st' : ExtractState) :
  scanLoop decodeFromCanvas scale fuel i (getViewport page scale) canvas st
  = Some (st', canvas') ->
  exists found,
    allQrCodes st' = allQrCodes st ++ found
    /\ canvas_fills canvas'
       = canvas_fills canvas ++ map (fun info => ("white", imageDataUrl info)) found
    /\ canvas_source canvas' = canvas_source canvas
    /\ forall text p ps, decodeFromCanvas canvas' <> Result text p ps.
Proof.
  intros H. apply zxing_scanLoop_records in H as (found & Hall & _ & Hfills & Hsrc & Hend).
  exists found. repeat split; try assumption.
  intros text p ps. destruct Hend as [[_ E]|(err & _ & E)]; rewrite E; discriminate.
Qed.

End ZXingRecords.

Section ZXingRecordsExamples.

Import ZXing Facts.


Lemma zxing_fills_are_the_record_boxes_witness :
  0 < 2.0
  /\ exists st' canvas',
       scanLoop oneCodeDecoder 2.0 2 1 (getViewport samplePage 2.0)
         {| canvas_source := RenderedPage samplePage 2.0; canvas_fills := [] |}
         {| allQrCodes := []; console := [] |}
       = Some (st', canvas')
       /\ exists found,
            allQrCodes st' = [] ++ found
            /\ canvas_fills canvas'
               = [] ++ map (fun info => ("white", imageDataUrl info)) found
            /\ canvas_source canvas' = RenderedPage samplePage 2.0
            /\ forall text p ps, oneCodeDecoder canvas' <> Result text p ps.
Proof.
  split; [reflexivity|]. eexists _, _. split; [vm_compute; reflexivity|].
  apply (zxing_fills_are_the_record_boxes oneCodeDecoder 2.0 eq_refl 2 1 samplePage
           {| canvas_source := RenderedPage samplePage 2.0; canvas_fills := [] |} _
           {| allQrCodes := []; console := [] |} _).
  vm_compute. reflexivity.
Defined.

End ZXingRecordsExamples.

Section ZXingImageRecords.

Import ZXing.

Variable decodeFromCanvas : Canvas -> DecodeOutcome.

Lemma imageScanLoop_records (fuel : nat) :
  forall (image : Image) (canvas canvas' : Canvas) (st st' : ExtractState),
  imageScanLoop decodeFromCanvas fuel image canvas st = Some (st', canvas') ->
  exists found,
    allQrCodes st' = allQrCodes st ++ found
    /\ Forall (fun info =>
                 pageNumber info = 1%nat
                 /\ pageWidth info = image_width image
                 /\ pageHeight info = image_height image
                 /\ location info = imageDataUrl info
                 /\ id info = (1%nat, x (location info), y (location info))
                 /\ 0 <= width (location info) /\ 0 <= height (location info))
              found
    /\ canvas_fills canvas'
       = canvas_fills canvas ++ map (fun info => ("white", location info)) found
    /\ (length (console st') <= S (length (console st)))%nat.
Proof.
  induction fuel as [|fuel IH]; intros image canvas canvas' st st'; simpl;
    [discriminate|].
  destruct (decodeFromCanvas canvas) as [text p ps| |err] eqn:Hd.
  - intros H. apply IH in H as (found & Hall & Hrec & Hfills & Hcon).
    simpl in Hall, Hfills, Hcon.
    exists (imageQrCodeInfo image text (boundingBox p ps) :: found).
    split; [now rewrite Hall, <- app_assoc|]. split; [|split].
    + constructor; [|exact Hrec].
      destruct (boundingBox_nonneg p ps) as [Hw Hh]. repeat split; assumption.
    + rewrite Hfills, <- app_assoc. reflexivity.
    + exact Hcon.
  - intros [= <- <-]. exists []. rewrite !app_nil_r. repeat split; [constructor|lia].
  - intros [= <- <-]. exists []. rewrite !app_nil_r. repeat split; [constructor|].
    simpl. rewrite length_app. simpl. lia.
Qed.

(** X8. Every record that the extraction of a standalone image returns is
    on page 1, carries the width and height of the image, has as geometry
    the raw pixel box that was cropped (no scale applied), a width and a
    height that are not negative, and an id made of 1 and its position; at
    most one failure is printed on the console. *)
Theorem image_extraction_records (fuel : nat) (image : Image) (st : ExtractState) :
  extractQrCodesFromImage decodeFromCanvas fuel image = Some st ->
  Forall (fun info =>
            pageNumber info = 1%nat
            /\ pageWidth info = image_width image
            /\ pageHeight info = image_height image
            /\ location info = imageDataUrl info
            /\ id info = (1%nat, x (location info), y (location info))
            /\ 0 <= width (location info) /\ 0 <= height (location info))
         (allQrCodes st)
  /\ (length (console st) <= 1)%nat.
Proof.
  unfold extractQrCodesFromImage.
  destruct (imageScanLoop _ _ _ _ _) as [[st1 c1]|] eqn:Hscan; [|discriminate].
  intros [= <-]. apply imageScanLoop_records in Hscan as (found & Hall & Hrec & _ & Hcon).
  simpl in Hall, Hcon. rewrite Hall. now split.
Qed.

End ZXingImageRecords.

Section ZXingImageRecordsExample.

Import ZXing.

Lemma image_extraction_records_witness :
  exists st,
    extractQrCodesFromImage failingDecoder 2
      {| image_width := 640; image_height := 480; image_content := 7 |} = Some st
    /\ length (allQrCodes st) = 1%nat
    /\ Forall (fun info =>
                 pageNumber info = 1%nat
                 /\ pageWidth info = 640
                 /\ pageHeight info = 480
                 /\ location info = imageDataUrl info
                 /\ id info = (1%nat, x (location info), y (location info))
                 /\ 0 <= width (location info) /\ 0 <= height (location info))
              (allQrCodes st)
    /\ (length (console st) <= 1)%nat.
Proof.
  eexists. split; [vm_compute; reflexivity|]. split; [reflexivity|].
  apply (image_extraction_records failingDecoder 2
           {| image_width := 640; image_height := 480; image_content := 7 |}).
  vm_compute. reflexivity.
Defined.

End ZXingImageRecordsExample.

(** ** Further properties: bounding boxes and the output document *)
Section BoxTightness.

Import ZXing.


End BoxTightness.

Section ReplaceClosedForm.

Import Replace ReplaceFacts.

Variable QRCode : option (string -> QrOptions -> Completion string).
Variable imageLoads : string -> bool.

(** X10. Whenever [replaceQrCodeInPdf] returns an output, the output has
    one page per input page; each output page holds exactly one image, the
    canvas of its own input page rendered at scale 1.0, put at the origin
    with the size of that page, and carrying the replacement (the image
    loaded from the data URL that the generator resolved with) exactly
    when the page is the page of the code; every page after the first has
    the native size and the orientation of its input page, and the first
    has the size recorded in the code. *)
Theorem replace_output_page_by_page (page : PdfPage) (rest : list PdfPage)
  (qr : QrCodeInfo) (newUrl : string) (c : Json) (out : list OutputPage) :
  replaceQrCodeInPdf QRCode imageLoads (page :: rest) qr newUrl c = Normal out ->
  exists url,
    generateQrCodeDataUrl QRCode newUrl c 2 = Normal url
    /\ length out = length (page :: rest)
    /\ (forall k pg outp, (page :: rest) !! k = Some pg -> out !! k = Some outp ->
          images outp = [roundImage qr url c (S k) pg]
          /\ ((1 <= k)%nat -> sameSizeAndOrientation outp pg)
          /\ (k = 0%nat ->
              format outp = (pageWidth qr, pageHeight qr)
              /\ orientation outp = orientationOf (pageWidth qr) (pageHeight qr))).
Proof.
  intros Hout. apply replaceQrCodeInPdf_returned in Hout as (url & Hgen & _ & ->).
  exists url. split; [exact Hgen|]. split.
  - simpl. now rewrite laterPages_length.
  - intros [|k] pg outp; simpl.
    + intros [= <-] [= <-]. split; [reflexivity|]. split; [intros ?; lia|intros _; now split].
    + intros Hp Ho. destruct (laterPages_lookup _ _ _ _ 2 k pg outp Hp Ho) as [Hi Hs].
      split; [exact Hi|]. split; [now intros _|discriminate].
Qed.

(** X11. The outcome of [replaceQrCodeInPdf] on a document. It fails as
    the generator fails; when the generator resolves, it fails only if the
    page of the code is a page of the document and the new code image does
    not load. An output that is returned holds the replacement once when
    the page number of the code is a page of the document, and not at all
    otherwise: with a page number out of range the output is a plain copy,
    and the new code image is not even loaded. *)
Theorem replace_draws_the_code_once (page : PdfPage) (rest : list PdfPage)
  (qr : QrCodeInfo) (newUrl : string) (c : Json) :
  let inRange :=
    ((1 <=? pageNumber qr) && (pageNumber qr <=? length (page :: rest)))%nat in
  (forall e,
     generateQrCodeDataUrl QRCode newUrl c 2 = Throw e ->
     replaceQrCodeInPdf QRCode imageLoads (page :: rest) qr newUrl c = Throw e)
  /\ (forall url,
        generateQrCodeDataUrl QRCode newUrl c 2 = Normal url ->
        (inRange && negb (imageLoads url) = true ->
         replaceQrCodeInPdf QRCode imageLoads (page :: rest) qr newUrl c
         = Throw "error event")
        /\ (inRange && negb (imageLoads url) = false ->
            exists out,
              replaceQrCodeInPdf QRCode imageLoads (page :: rest) qr newUrl c = Normal out
              /\ overlayList out
                 = if inRange then [replacementDraw qr url c] else [])).
Proof.
  intros inRange. split.
  - intros e Hgen. now rewrite replaceQrCodeInPdf_closed_form, Hgen.
  - intros url Hgen. rewrite replaceQrCodeInPdf_closed_form, Hgen. cbn [bind].
    fold inRange. split; intros Hcase; rewrite Hcase; [reflexivity|].
    eexists. split; [reflexivity|]. apply overlayList_returned.
Qed.

End ReplaceClosedForm.

Section ReplaceExamples.

Import Replace ReplaceFacts.

Lemma replace_output_page_by_page_witness :
  replaceQrCodeInPdf workingQRCode everyImageLoads mixedDocument codeOnSecondPage
    "https://new.example/target" defaultCustomization
  = Normal
      [ {| format := (800, 600); orientation := Landscape;
           images := [roundImage codeOnSecondPage
                        "data:image/png;qr=https://new.example/target"
                        defaultCustomization 1 samplePage] |};
        {| format := (800 * 1.0, 600 * 1.0); orientation := Landscape;
           images := [roundImage codeOnSecondPage
                        "data:image/png;qr=https://new.example/target"
                        defaultCustomization 2 landscapePage] |} ]
  /\ exists url,
       generateQrCodeDataUrl workingQRCode "https://new.example/target"
         defaultCustomization 2 = Normal url
       /\ length
            [ {| format := (800, 600); orientation := Landscape;
                 images := [roundImage codeOnSecondPage
                              "data:image/png;qr=https://new.example/target"
                              defaultCustomization 1 samplePage] |};
              {| format := (800 * 1.0, 600 * 1.0); orientation := Landscape;
                 images := [roundImage codeOnSecondPage
                              "data:image/png;qr=https://new.example/target"
                              defaultCustomization 2 landscapePage] |} ]
          = length mixedDocument.
Proof.
  assert (Hout : replaceQrCodeInPdf workingQRCode everyImageLoads mixedDocument
                   codeOnSecondPage "https://new.example/target" defaultCustomization
                 = Normal
                     [ {| format := (800, 600); orientation := Landscape;
                          images := [roundImage codeOnSecondPage
                                       "data:image/png;qr=https://new.example/target"
                                       defaultCustomization 1 samplePage] |};
                       {| format := (800 * 1.0, 600 * 1.0); orientation := Landscape;
                          images := [roundImage codeOnSecondPage
                                       "data:image/png;qr=https://new.example/target"
                                       defaultCustomization 2 landscapePage] |} ])
    by reflexivity.
  split; [exact Hout|].
  destruct (replace_output_page_by_page workingQRCode everyImageLoads samplePage
              [landscapePage] codeOnSecondPage "https://new.example/target"
              defaultCustomization _ Hout) as (url & Hgen & Hlen & _).
  exists url. split; [exact Hgen|exact Hlen].
Defined.

(** A text that the generator refuses makes the replacement fail, also
    when the page number of the code is out of range; with a text that it
    accepts, an out-of-range page number gives a plain copy. *)
Example replace_outcomes :
  replaceQrCodeInPdf boundedQRCode everyImageLoads [samplePage]
    {| id := (7%nat, 0, 0); data := ""; imageDataUrl := location codeOnSecondPage;
       location := location codeOnSecondPage; pageNumber := 7;
       pageWidth := 600; pageHeight := 800 |}
    (String.concat "" (replicate 1001 "a"%string)) defaultCustomization
  = Throw "The amount of data is too big to be stored in a QR Code"
  /\ option_map overlayList
       (match replaceQrCodeInPdf boundedQRCode everyImageLoads [samplePage]
                {| id := (7%nat, 0, 0); data := ""; imageDataUrl := location codeOnSecondPage;
                   location := location codeOnSecondPage; pageNumber := 7;
                   pageWidth := 600; pageHeight := 800 |}
                "https://new.example/target" defaultCustomization with
        | Normal out => Some out
        | Throw _ => None
        end)
     = Some [].
Proof. split; vm_compute; reflexivity. Qed.

End ReplaceExamples.
(** ** Further properties: previews *)
Section PreviewFacts.

Import Replace ReplaceFacts Preview.

Variable QRCode : option (string -> QrOptions -> Completion string).
Variable imageLoads : string -> bool.
Variable stringToNumber : string -> JsNumber.
Variable arrayToNumber : list Json -> JsNumber.
Variable loadImageFromFile : App.File -> Completion ZXing.Image.
Variable canvasSize : JsNumber -> Z.

Lemma getPage_in_range (pdfDoc : list PdfPage) (n : nat) (page : PdfPage) :
  getPage pdfDoc n = Normal page <->
  (1 <= n <= length pdfDoc)%nat /\ pdfDoc !! (n - 1)%nat = Some page.
Proof.
  unfold getPage. destruct n as [|k].
  - split; [discriminate|intros [? _]; lia].
  - replace (S k - 1)%nat with k by lia.
    destruct (pdfDoc !! k) as [pg|] eqn:Hk.
    + apply lookup_lt_Some in Hk as Hlt. split.
      * intros [= <-]. split; [lia|reflexivity].
      * now intros [_ [= <-]].
    + split; [discriminate|now intros [_ ?]].
Qed.

(** The outcome of the page preview, case by case. *)
Lemma generatePreviewPageAsDataUrl_cases (pdfDoc : list PdfPage) (qr : QrCodeInfo)
  (newUrl : string) (c : Json) :
  generatePreviewPageAsDataUrl QRCode imageLoads stringToNumber arrayToNumber
    pdfDoc qr newUrl c
  = match QRCode with
    | None => Throw "PDF processing libraries (pdf.js or QRCode) not loaded."
    | Some _ =>
        if (length pdfDoc <? pageNumber qr)%nat
        then Throw "Page number is out of bounds."
        else
          match generateQrCodeDataUrl QRCode newUrl c 2 with
          | Throw e => Throw e
          | Normal url =>
              match getPage pdfDoc (pageNumber qr) with
              | Throw e => Throw e
              | Normal page =>
                  if imageLoads url
                  then Normal {| pv_page := page; pv_scale := 1.5;
                                 pv_draw :=
                                   {| sd_image := url;
                                      sd_rect := drawnRect stringToNumber arrayToNumber
                                                   qr c 1.5 |} |}
                  else Throw "error event"
              end
          end
    end.
Proof.
  unfold generatePreviewPageAsDataUrl, loadImage.
  destruct QRCode as [toDataURL|]; [|reflexivity].
  destruct (length pdfDoc <? pageNumber qr)%nat; [reflexivity|].
  destruct (generateQrCodeDataUrl _ _ _ _) as [url|e]; [|reflexivity]. cbn [bind].
  destruct (getPage pdfDoc (pageNumber qr)) as [page|e]; [|reflexivity]. cbn [bind].
  now destruct (imageLoads url).
Qed.

(** A page preview is returned exactly when the generator resolves, the
    page number is a page of the document and the new code image loads. *)
Lemma page_preview_returned (pdfDoc : list PdfPage) (qr : QrCodeInfo)
  (newUrl : string) (c : Json) (pv : PagePreview) :
  generatePreviewPageAsDataUrl QRCode imageLoads stringToNumber arrayToNumber
    pdfDoc qr newUrl c = Normal pv <->
  exists url page,
    generateQrCodeDataUrl QRCode newUrl c 2 = Normal url
    /\ (1 <= pageNumber qr <= length pdfDoc)%nat
    /\ pdfDoc !! (pageNumber qr - 1)%nat = Some page
    /\ imageLoads url = true
    /\ pv = {| pv_page := page; pv_scale := 1.5;
               pv_draw := {| sd_image := url;
                             sd_rect := drawnRect stringToNumber arrayToNumber
                                          qr c 1.5 |} |}.
Proof.
  rewrite generatePreviewPageAsDataUrl_cases. split.
  - destruct QRCode as [toDataURL|] eqn:Hlib; [|discriminate].
    destruct (Nat.ltb_spec (length pdfDoc) (pageNumber qr)); [discriminate|].
    destruct (generateQrCodeDataUrl (Some toDataURL) newUrl c 2) as [url|e];
      [|discriminate].
    destruct (getPage pdfDoc (pageNumber qr)) as [page|e] eqn:Hpage; [|discriminate].
    destruct (imageLoads url) eqn:Hload; [|discriminate].
    intros [= <-]. apply getPage_in_range in Hpage as [Hrange Hlookup].
    exists url, page. repeat split; try assumption; lia.
  - intros (url & page & Hgen & Hrange & Hlookup & Hload & ->).
    destruct QRCode as [toDataURL|] eqn:Hlib; [|discriminate].
    destruct (Nat.ltb_spec (length pdfDoc) (pageNumber qr)); [lia|].
    rewrite Hgen.
    assert (Hpage : getPage pdfDoc (pageNumber qr) = Normal page)
      by (apply getPage_in_range; split; [lia|exact Hlookup]).
    now rewrite Hpage, Hload.
Qed.

(** X12. The outcome of the page preview. Without the generator it fails
    with the message on the libraries, whatever the page number; with a
    page number above the last page it fails with "Page number is out of
    bounds." before the generator is asked; a preview is returned exactly
    when the generator resolves, the page number is a page of the
    document and the new code image loads; and a preview that is returned
    shows the page of the code, rendered with the viewport of scale 1.5,
    with the image loaded from the data URL of the generator. *)
Theorem page_preview_outcome (pdfDoc : list PdfPage) (qr : QrCodeInfo)
  (newUrl : string) (c : Json) :
  let preview :=
    generatePreviewPageAsDataUrl QRCode imageLoads stringToNumber arrayToNumber
      pdfDoc qr newUrl c in
  (QRCode = None ->
   preview = Throw "PDF processing libraries (pdf.js or QRCode) not loaded.")
  /\ (QRCode <> None -> (length pdfDoc < pageNumber qr)%nat ->
      preview = Throw "Page number is out of bounds.")
  /\ (forall pv,
        preview = Normal pv <->
        exists url page,
          generateQrCodeDataUrl QRCode newUrl c 2 = Normal url
          /\ (1 <= pageNumber qr <= length pdfDoc)%nat
          /\ pdfDoc !! (pageNumber qr - 1)%nat = Some page
          /\ imageLoads url = true
          /\ pv = {| pv_page := page; pv_scale := 1.5;
                     pv_draw := {| sd_image := url;
                                   sd_rect := drawnRect stringToNumber arrayToNumber
                                                qr c 1.5 |} |}).
Proof.
  intros preview. unfold preview. split; [|split].
  - intros Hlib. rewrite generatePreviewPageAsDataUrl_cases. now rewrite Hlib.
  - intros Hlib Hhigh. rewrite generatePreviewPageAsDataUrl_cases.
    destruct QRCode as [toDataURL|]; [|congruence].
    destruct (Nat.ltb_spec (length pdfDoc) (pageNumber qr)); [reflexivity|lia].
  - intros pv. apply page_preview_returned.
Qed.

(** X13. The page preview and the output agree. With the same arguments,
    when a preview is returned the output is returned too, and conversely
    when the page number of the code is a page of the document; the two
    show the same generated image, and the rectangle drawn on the preview
    is the rectangle of the replacement in the output (stored position,
    [size] by [size]) mapped to pixels at the render scale 1.5 in
    binary64: mapped back, it is the rectangle of the output up to two
    roundings wherever the coordinates are in range. *)
Theorem page_preview_matches_output (page : PdfPage) (rest : list PdfPage)
  (qr : QrCodeInfo) (newUrl : string) (c : Json) (pv : PagePreview) :
  generatePreviewPageAsDataUrl QRCode imageLoads stringToNumber arrayToNumber
    (page :: rest) qr newUrl c = Normal pv ->
  exists out d,
    replaceQrCodeInPdf QRCode imageLoads (page :: rest) qr newUrl c = Normal out
    /\ overlayList out = [d]
    /\ sd_image (pv_draw pv) = di_image d
    /\ sd_rect (pv_draw pv)
       = Binary64.toPixelsAtScale
           {| Binary64.rx := Finite (di_x d);
              Binary64.ry := Finite (di_y d);
              Binary64.rwidth :=
                toNumber stringToNumber arrayToNumber (di_width d);
              Binary64.rheight :=
                toNumber stringToNumber arrayToNumber (di_height d) |}
           (Finite 1.5)
    /\ (forall size,
          di_width d = Some (JNumber (Finite size)) ->
          Binary64.rectInRange
            {| x := di_x d; y := di_y d; width := size; height := size |} 1.5 ->
          Binary64.rectWithin Binary64.tolerance
            (Binary64.toNative (sd_rect (pv_draw pv)) (Finite 1.5))
            (Binary64.ofLocation
               {| x := di_x d; y := di_y d; width := size; height := size |})).
Proof.
  intros Hpv. apply page_preview_returned in Hpv
    as (url & pg & Hgen & Hrange & Hlookup & Hload & ->).
  exists ({| format := (pageWidth qr, pageHeight qr);
             orientation := orientationOf (pageWidth qr) (pageHeight qr);
             images := [roundImage qr url c 1 page] |}
          :: laterPages qr url c 2 rest), (replacementDraw qr url c).
  split; [now apply replaceQrCodeInPdf_returns|].
  split.
  { rewrite overlayList_returned.
    destruct (Nat.leb_spec 1 (pageNumber qr)) as [_|?]; [|lia].
    destruct (Nat.leb_spec (pageNumber qr) (length (page :: rest))) as [_|?]; [|lia].
    reflexivity. }
  split; [reflexivity|]. split; [reflexivity|].
  intros size Hsize (Hx & Hy & Hw & Hh).
  cbn [pv_draw sd_rect]. unfold drawnRect, sizeOf.
  cbn [replacementDraw di_width di_x di_y x y width height] in Hsize, Hx, Hy, Hw, Hh.
  rewrite Hsize. cbn [toNumber].
  unfold Binary64.rectWithin, Binary64.toNative, Binary64.toPixelsAtScale,
    Binary64.ofLocation.
  cbn [Binary64.rx Binary64.ry Binary64.rwidth Binary64.rheight replacementDraw
       di_x di_y x y width height].
  repeat split; now apply round_trip_field.
Qed.

Lemma modifyImage_cases (file : App.File) (qr : QrCodeInfo) (newUrl : string)
  (c : Json) (scale : Q) :
  modifyImage QRCode imageLoads stringToNumber arrayToNumber loadImageFromFile
    canvasSize file qr newUrl c scale
  = match QRCode with
    | None => Throw "QRCode generation library not loaded."
    | Some _ =>
        match loadImageFromFile file with
        | Throw e => Throw e
        | Normal image =>
            match generateQrCodeDataUrl QRCode newUrl c 2 with
            | Throw e => Throw e
            | Normal url =>
                if imageLoads url
                then Normal
                       {| ic_image := image;
                          ic_width :=
                            canvasSize (Binary64.mul (Finite (ZXing.image_width image))
                                                     (Finite scale));
                          ic_height :=
                            canvasSize (Binary64.mul (Finite (ZXing.image_height image))
                                                     (Finite scale));
                          ic_draw :=
                            {| sd_image := url;
                               sd_rect := drawnRect stringToNumber arrayToNumber
                                            qr c scale |} |}
                else Throw "error event"
            end
        end
    end.
Proof.
  unfold modifyImage, loadImage.
  destruct QRCode as [toDataURL|]; [|reflexivity].
  destruct (loadImageFromFile file) as [image|e]; [|reflexivity]. cbn [bind].
  destruct (generateQrCodeDataUrl _ _ _ _) as [url|e]; [|reflexivity]. cbn [bind].
  now destruct (imageLoads url).
Qed.

(** A binary64 value times 1 is itself. *)
Lemma mul_one (v : Q) :
  Binary64.representable v ->
  Binary64.sameNumber (Binary64.mul (Finite v) (Finite 1.0)) (Finite v) = true.
Proof.
  unfold Binary64.representable. intros Hv. cbn [Binary64.mul].
  assert (E : v * 1.0 == v) by field.
  pose proof (round64_comp (v * 1.0) v E) as Hc.
  destruct (Binary64.round64 (v * 1.0)) as [r| | |],
           (Binary64.round64 v) as [r'| | |]; try discriminate.
  cbn in *. apply Qeq_bool_iff in Hc, Hv. apply Qeq_bool_iff. now rewrite Hc.
Qed.

(** X14. The preview of a standalone image and its output are the same
    [modifyImage], at the scales 1.5 and 1.0: they fail for the same
    reasons (no generator, the image of the file does not load, the
    generator rejects, the new code image does not load), so that one is
    returned exactly when the other is, and the output fails in addition
    when no blob is created. When both are returned they show the same
    image with the same generated code over it; the preview draws the
    code on the rectangle of the replacement (stored position, [size] by
    [size]) mapped to pixels at scale 1.5, the output on that rectangle
    times 1.0, which is the rectangle itself when its numbers are binary64
    values. *)
Theorem image_preview_is_scaled_output (file : App.File) (qr : QrCodeInfo)
  (newUrl : string) (c : Json) (blobCreated : bool) :
  let preview :=
    generatePreviewImageAsDataUrl QRCode imageLoads stringToNumber arrayToNumber
      loadImageFromFile canvasSize file qr newUrl c in
  let output :=
    replaceQrCodeInImage QRCode imageLoads stringToNumber arrayToNumber
      loadImageFromFile canvasSize blobCreated file qr newUrl c in
  let rect :=
    {| Binary64.rx := Finite (x (location qr));
       Binary64.ry := Finite (y (location qr));
       Binary64.rwidth := sizeOf stringToNumber arrayToNumber c;
       Binary64.rheight := sizeOf stringToNumber arrayToNumber c |} in
  ((exists cv, preview = Normal cv) <->
   exists image url,
     QRCode <> None /\ loadImageFromFile file = Normal image
     /\ generateQrCodeDataUrl QRCode newUrl c 2 = Normal url
     /\ imageLoads url = true)
  /\ ((exists cv, output = Normal cv) <->
      (exists cv, preview = Normal cv) /\ blobCreated = true)
  /\ (forall cv cv',
        preview = Normal cv -> output = Normal cv' ->
        ic_image cv = ic_image cv'
        /\ sd_image (ic_draw cv) = sd_image (ic_draw cv')
        /\ sd_rect (ic_draw cv) = Binary64.toPixelsAtScale rect (Finite 1.5)
        /\ sd_rect (ic_draw cv') = Binary64.toPixelsAtScale rect (Finite 1.0)
        /\ (forall size,
              sizeOf stringToNumber arrayToNumber c = Finite size ->
              Binary64.representable (x (location qr)) ->
              Binary64.representable (y (location qr)) ->
              Binary64.representable size ->
              Binary64.rectSame (sd_rect (ic_draw cv')) rect)
        /\ ic_width cv
           = canvasSize (Binary64.mul (Finite (ZXing.image_width (ic_image cv)))
                                      (Finite 1.5))
        /\ ic_width cv'
           = canvasSize (Binary64.mul (Finite (ZXing.image_width (ic_image cv)))
                                      (Finite 1.0))).
Proof.
  intros preview output rect.
  unfold preview, output, generatePreviewImageAsDataUrl, replaceQrCodeInImage.
  rewrite !modifyImage_cases.
  destruct QRCode as [toDataURL|] eqn:Hlib.
  2:{ split; [|split].
      - split; [intros [cv H]; discriminate|intros (? & ? & H & _); congruence].
      - split; [intros [cv H]; discriminate|intros [[cv H] _]; discriminate].
      - intros cv cv' H. discriminate. }
  destruct (loadImageFromFile file) as [image|e].
  2:{ split; [|split].
      - split; [intros [cv H]; discriminate|intros (? & ? & _ & H & _); discriminate].
      - split; [intros [cv H]; discriminate|intros [[cv H] _]; discriminate].
      - intros cv cv' H. discriminate. }
  destruct (generateQrCodeDataUrl (Some toDataURL) newUrl c 2) as [url|e].
  2:{ split; [|split].
      - split; [intros [cv H]; discriminate|intros (? & ? & _ & _ & H & _); discriminate].
      - split; [intros [cv H]; discriminate|intros [[cv H] _]; discriminate].
      - intros cv cv' H. discriminate. }
  destruct (imageLoads url) eqn:Hload.
  2:{ split; [|split].
      - split; [intros [cv H]; discriminate|].
        intros (? & url' & _ & _ & [= <-] & H). congruence.
      - split; [intros [cv H]; discriminate|intros [[cv H] _]; discriminate].
      - intros cv cv' H. discriminate. }
  cbn [bind]. split; [|split].
  - split; [|eauto]. intros _. exists image, url. repeat split; congruence.
  - destruct blobCreated; split.
    + intros _. split; [eauto|reflexivity].
    + intros _. eauto.
    + intros [cv H]. discriminate.
    + intros [_ H]. discriminate.
  - intros cv cv' [= <-]. destruct blobCreated; [|discriminate]. intros [= <-].
    cbn [ic_image ic_draw sd_image sd_rect ic_width].
    split; [reflexivity|]. split; [reflexivity|]. split; [reflexivity|].
    split; [reflexivity|]. split; [|split; reflexivity].
    intros size Hsize Hx Hy Hs.
    unfold drawnRect, rect, Binary64.rectSame, Binary64.toPixelsAtScale.
    rewrite Hsize. cbn [Binary64.rx Binary64.ry Binary64.rwidth Binary64.rheight].
    repeat split; now apply mul_one.
Qed.

End PreviewFacts.

Section PreviewExamples.

Import Replace ReplaceFacts Preview.

Lemma page_preview_matches_output_witness :
  generatePreviewPageAsDataUrl workingQRCode everyImageLoads noStrings noArrays
    mixedDocument codeOnSecondPage "https://new.example/target" defaultCustomization
  = Normal {| pv_page := landscapePage; pv_scale := 1.5;
              pv_draw :=
                {| sd_image := "data:image/png;qr=https://new.example/target";
                   sd_rect := {| Binary64.rx := Binary64.round64 (50 * 1.5);
                                 Binary64.ry := Binary64.round64 (50 * 1.5);
                                 Binary64.rwidth := Binary64.round64 (100 * 1.5);
                                 Binary64.rheight := Binary64.round64 (100 * 1.5) |} |} |}
  /\ exists out d,
       replaceQrCodeInPdf workingQRCode everyImageLoads mixedDocument codeOnSecondPage
         "https://new.example/target" defaultCustomization = Normal out
       /\ overlayList out = [d]
       /\ di_image d = "data:image/png;qr=https://new.example/target"%string.
Proof.
  assert (Hpv : generatePreviewPageAsDataUrl workingQRCode everyImageLoads noStrings
                  noArrays mixedDocument codeOnSecondPage "https://new.example/target"
                  defaultCustomization
                = Normal {| pv_page := landscapePage; pv_scale := 1.5;
                            pv_draw :=
                              {| sd_image := "data:image/png;qr=https://new.example/target";
                                 sd_rect :=
                                   {| Binary64.rx := Binary64.round64 (50 * 1.5);
                                      Binary64.ry := Binary64.round64 (50 * 1.5);
                                      Binary64.rwidth := Binary64.round64 (100 * 1.5);
                                      Binary64.rheight := Binary64.round64 (100 * 1.5) |} |} |})
    by reflexivity.
  split; [exact Hpv|].
  destruct (page_preview_matches_output workingQRCode everyImageLoads noStrings noArrays
              samplePage [landscapePage] codeOnSecondPage "https://new.example/target"
              defaultCustomization _ Hpv) as (out & d & Hout & Hd & Himg & _).
  exists out, d. split; [exact Hout|]. split; [exact Hd|]. now rewrite <- Himg.
Defined.

(** Page previews that fail: the page number is checked first, then the
    generator is asked. *)
Example page_preview_failures :
  generatePreviewPageAsDataUrl boundedQRCode everyImageLoads noStrings noArrays
    [samplePage] codeOnSecondPage (String.concat "" (replicate 1001 "a"%string))
    defaultCustomization
  = Throw "Page number is out of bounds."
  /\ generatePreviewPageAsDataUrl boundedQRCode everyImageLoads noStrings noArrays
       mixedDocument codeOnSecondPage (String.concat "" (replicate 1001 "a"%string))
       defaultCustomization
     = Throw "The amount of data is too big to be stored in a QR Code"
  /\ generatePreviewPageAsDataUrl None everyImageLoads noStrings noArrays
       [samplePage] codeOnSecondPage "https://new.example/target" defaultCustomization
     = Throw "PDF processing libraries (pdf.js or QRCode) not loaded.".
Proof. repeat split; vm_compute; reflexivity. Qed.

End PreviewExamples.

(** ** Further properties: the file-batch handler *)
Section BatchFacts.

Import App.

Variable fromPdf : File -> Settled (list QrCodeInfo).
Variable fromImage : File -> Settled (list QrCodeInfo).

Lemma trim_empty : trim "" = ""%string.
Proof. reflexivity. Qed.

Lemma currentError_no_failure (done : list ProcessedFile) :
  currentError done []
  = if ((0 <? length done)%nat
        && forallb (fun res => (length (qrCodes res) =? 0)%nat) done)
    then "QR-кодів не знайдено в жодному з успішно оброблених файлів."%string
    else ""%string.
Proof.
  unfold currentError. cbn [length Nat.ltb Nat.leb].
  rewrite andb_false_r. now destruct (_ && _)%bool.
Qed.

Lemma forallb_no_codes (done : list ProcessedFile) :
  forallb (fun res => (length (qrCodes res) =? 0)%nat) done = false
  <-> Exists (fun pf => qrCodes pf <> []) done.
Proof.
  induction done as [|pf done IH]; simpl.
  - split; [discriminate|intros H; inversion H].
  - rewrite andb_false_iff, IH, Exists_cons.
    destruct (qrCodes pf) as [|q qs]; simpl.
    + split; intros [H|H]; try discriminate; try congruence; now right.
    + split; intros _; left; [discriminate|reflexivity].
Qed.

(** X16. After a batch of at least one file the handler has dropped the
    selection and the download link, kept the customization, stored the
    results of the files that were processed and left the loading state;
    and it reports nothing exactly when no file failed and at least one
    processed file holds a code. *)
Theorem file_batch_reports_nothing_iff (st : AppState) (files : list File) :
  files <> [] ->
  let st' := handleFileChange fromPdf fromImage st files in
  processedFiles st' = successfulFiles fromPdf fromImage files
  /\ selectedQr st' = None /\ modifiedFileUrl st' = None /\ isLoading st' = false
  /\ customization st' = customization st
  /\ (error st' = None
      <-> failedFileMessages fromPdf fromImage files = []
          /\ Exists (fun pf => qrCodes pf <> []) (successfulFiles fromPdf fromImage files)).
Proof.
  intros Hne st'. destruct files as [|f files]; [congruence|].
  unfold st', handleFileChange.
  set (done := successfulFiles fromPdf fromImage (f :: files)).
  set (failed := failedFileMessages fromPdf fromImage (f :: files)).
  cbn [processedFiles selectedQr modifiedFileUrl isLoading customization error
       setIsLoading setError setProcessedFiles resetState].
  do 5 (split; [reflexivity|]). split.
  - destruct (String.eqb_spec (trim (currentError done failed)) "") as [E|E];
      [intros _|discriminate].
    destruct failed as [|m failed'] eqn:Hfailed.
    + split; [reflexivity|]. rewrite currentError_no_failure in E.
      assert (Hcount := every_file_counted fromPdf fromImage (f :: files)).
      fold done failed in Hcount. rewrite Hfailed in Hcount. simpl in Hcount.
      destruct (Nat.ltb_spec 0 (length done)) as [_|?]; [|lia]. simpl in E.
      destruct (forallb _ done) eqn:Hall; [discriminate|].
      now apply forallb_no_codes.
    + exfalso. assert (Hink : hasInk (trim (currentError done (m :: failed'))) = true)
        by (apply hasInk_trim, currentError_hasInk; discriminate).
      rewrite E in Hink. discriminate.
  - intros [Hfailed Hcodes]. rewrite Hfailed, currentError_no_failure.
    apply forallb_no_codes in Hcodes. rewrite Hcodes, andb_false_r. reflexivity.
Qed.

Lemma toLowerCase_app (a b : string) :
  toLowerCase (a ++ b) = (toLowerCase a ++ toLowerCase b)%string.
Proof. induction a as [|c a IH]; simpl; [reflexivity|now rewrite IH]. Qed.

Lemma string_length_app (a b : string) :
  String.length (a ++ b) = (String.length a + String.length b)%nat.
Proof. induction a as [|c a IH]; simpl; [reflexivity|now rewrite IH]. Qed.

Lemma substring_all (s : string) : String.substring 0 (String.length s) s = s.
Proof. induction s as [|c s IH]; simpl; [reflexivity|now rewrite IH]. Qed.

Lemma substring_skip (a s : string) :
  String.substring (String.length a) (String.length s) (a ++ s) = s.
Proof. induction a as [|c a IH]; simpl; [apply substring_all|exact IH]. Qed.

Lemma endsWith_app (a s : string) : endsWith (a ++ s) s = true.
Proof.
  unfold endsWith. rewrite string_length_app.
  destruct (Nat.leb_spec (String.length s) (String.length a + String.length s)); [|lia].
  replace (String.length a + String.length s - String.length s)%nat
    with (String.length a) by lia.
  rewrite substring_skip. apply String.eqb_refl.
Qed.

(** X17. How a file of a batch is routed. A name that ends in [.pdf] in
    any letter case, or the type [application/pdf], sends the file to the
    PDF extraction, even when its type says image; otherwise a type that
    starts with [image/] sends it to the image extraction; any other file
    is rejected, with a message that names it, without any extraction
    being consulted. A result always carries the file it came from and the
    id made of its name and modification time. *)
Theorem file_routing (f : File) :
  (forall base ext, name f = (base ++ ext)%string -> toLowerCase ext = ".pdf"%string ->
     isPdf f = true)
  /\ (type f = "application/pdf"%string -> isPdf f = true)
  /\ (isPdf f = true ->
      processPromise fromPdf fromImage f
      = then_ (fromPdf f)
          (fun qrs => {| file := f; qrCodes := qrs; pf_id := (name f, lastModified f) |}))
  /\ (isPdf f = false -> isImage f = true ->
      processPromise fromPdf fromImage f
      = then_ (fromImage f)
          (fun qrs => {| file := f; qrCodes := qrs; pf_id := (name f, lastModified f) |}))
  /\ (isPdf f = false -> isImage f = false ->
      processPromise fromPdf fromImage f
      = rejected {| message := Some ("Непідтримуваний тип файлу: " ++ name f)%string |})
  /\ (forall v, processPromise fromPdf fromImage f = fulfilled v ->
      file v = f /\ pf_id v = (name f, lastModified f)).
Proof.
  unfold processPromise. split; [|split; [|split; [|split; [|split]]]].
  - intros base ext Hname Hext. unfold isPdf. rewrite Hname, toLowerCase_app, Hext.
    rewrite endsWith_app. apply orb_true_r.
  - intros Htype. unfold isPdf. rewrite Htype. reflexivity.
  - now intros ->.
  - now intros -> ->.
  - now intros -> ->.
  - intros v. destruct (isPdf f); [|destruct (isImage f)]; try discriminate;
      [destruct (fromPdf f)|destruct (fromImage f)]; simpl; try discriminate;
      now intros [= <-].
Qed.

End BatchFacts.

Section BatchFactsExamples.

Import App.

Lemma file_batch_reports_nothing_iff_witness :
  [reportPdf; photoPng] <> []
  /\ error (handleFileChange extractStandIn extractStandIn initialState
              [reportPdf; photoPng]) = None
  /\ processedFiles (handleFileChange extractStandIn extractStandIn initialState
                       [reportPdf; photoPng])
     = successfulFiles extractStandIn extractStandIn [reportPdf; photoPng].
Proof.
  split; [discriminate|].
  assert (Hne : [reportPdf; photoPng] <> []) by discriminate.
  destruct (file_batch_reports_nothing_iff extractStandIn extractStandIn initialState
              [reportPdf; photoPng] Hne)
    as (Hdone & _ & _ & _ & _ & Herr).
  split; [|exact Hdone].
  apply Herr. split; [reflexivity|]. apply Exists_cons. left. discriminate.
Defined.

(** A PDF by its extension only, in upper case, with an image type. *)
Example upper_case_pdf_with_image_type :
  isPdf {| name := "SCAN.PDF"; type := "image/png"; lastModified := 0;
           file_content := 0 |} = true
  /\ isPdf photoPng = false /\ isImage photoPng = true
  /\ isPdf notesTxt = false /\ isImage notesTxt = false.
Proof. repeat split. Qed.

End BatchFactsExamples.

(** ** Further properties: the settings import as a whole *)
Section ImportFacts.

Import App AppFacts.

Variable JSON_parse : string -> option Json.

Lemma settingsCondition_true (settings : Json) :
  settingsCondition settings = Normal true <-> acceptable settings.
Proof.
  split.
  - destruct settings as [| | | | |fields]; try discriminate.
    unfold settingsCondition; simpl.
    destruct (lookupField "color" fields) as [c|] eqn:Hc; [|discriminate].
    destruct (truthy (Some c)) eqn:Hct; [|discriminate].
    destruct (lookupField "backgroundColor" fields) as [b|] eqn:Hb; [|discriminate].
    destruct (truthy (Some b)) eqn:Hbt; [|discriminate].
    destruct (lookupField "size" fields) as [[| |n| | |]|] eqn:Hn; try discriminate.
    intros _. now exists fields, c, b, n.
  - intros (fields & c & b & n & -> & Hc & Hct & Hb & Hbt & Hn).
    unfold settingsCondition; simpl. now rewrite Hc, Hct, Hb, Hbt, Hn.
Qed.

(** X18. The import is all or nothing. Whatever the file holds, the
    handler touches only [customization] and [error]; either the text
    parses to an acceptable record, which then becomes the customization
    as a whole while [error] is left as it was (an earlier message is not
    cleared), or the customization is left as it was and an error is set.
    An acceptable customization therefore stays acceptable. *)
Theorem settings_import_all_or_nothing (st : AppState) (result : option string) :
  let st' := onload JSON_parse st result in
  processedFiles st' = processedFiles st /\ selectedQr st' = selectedQr st
  /\ isLoading st' = isLoading st /\ modifiedFileUrl st' = modifiedFileUrl st
  /\ ((exists text settings,
         result = Some text /\ JSON_parse text = Some settings /\ acceptable settings
         /\ customization st' = settings /\ error st' = error st)
      \/ (customization st' = customization st
          /\ (exists e, error st' = Some e)
          /\ ~ exists text settings,
                 result = Some text /\ JSON_parse text = Some settings
                 /\ acceptable settings))
  /\ (acceptable (customization st) -> acceptable (customization st')).
Proof.
  intros st'. unfold st', onload.
  destruct result as [text|].
  - destruct (JSON_parse text) as [settings|] eqn:Hparse.
    + destruct (settingsCondition settings) as [[|]|e] eqn:Hcond.
      * apply settingsCondition_true in Hcond.
        do 4 (split; [reflexivity|]). split; [|now intros _].
        left. now exists text, settings.
      * do 4 (split; [reflexivity|]). split; [|now intros H].
        right. split; [reflexivity|]. split; [eauto|].
        intros (text' & settings' & [= <-] & Hp & Hacc).
        rewrite Hparse in Hp. injection Hp as <-.
        apply settingsCondition_true in Hacc. congruence.
      * do 4 (split; [reflexivity|]). split; [|now intros H].
        right. split; [reflexivity|]. split; [eauto|].
        intros (text' & settings' & [= <-] & Hp & Hacc).
        rewrite Hparse in Hp. injection Hp as <-.
        apply settingsCondition_true in Hacc. congruence.
    + do 4 (split; [reflexivity|]). split; [|now intros H].
      right. split; [reflexivity|]. split; [eauto|].
      intros (text' & settings' & [= <-] & Hp & _). congruence.
  - do 4 (split; [reflexivity|]). split; [|now intros H].
    right. split; [reflexivity|]. split; [eauto|].
    intros (text' & settings' & Hr & _). discriminate.
Qed.

End ImportFacts.

(** ** Further properties: the name of the downloaded file *)
Section DownloadFacts.

Import Download.

Lemma afterLastDot_none (s : string) :
  hasChar "." s = false -> afterLastDot s = None.
Proof.
  induction s as [|c s IH]; cbn [hasChar afterLastDot]; [reflexivity|].
  rewrite orb_false_iff. intros [Hc Hs]. rewrite (IH Hs).
  rewrite Ascii.eqb_sym in Hc. now rewrite Hc.
Qed.

Lemma beforeLastDot_none (s : string) :
  hasChar "." s = false -> beforeLastDot s = s.
Proof.
  induction s as [|c s IH]; cbn [hasChar beforeLastDot]; [reflexivity|].
  rewrite orb_false_iff. intros [Hc Hs]. rewrite (afterLastDot_none s Hs), (IH Hs).
  rewrite Ascii.eqb_sym in Hc. now rewrite Hc.
Qed.

Lemma afterLastDot_split (base ext : string) :
  hasChar "." ext = false ->
  afterLastDot (base ++ "." ++ ext) = Some ext.
Proof.
  intros Hext. induction base as [|c base IH].
  - rewrite append_nil, append_cons, append_nil. cbn [afterLastDot].
    now rewrite (afterLastDot_none ext Hext).
  - rewrite append_cons. cbn [afterLastDot]. now rewrite IH.
Qed.

Lemma beforeLastDot_split (base ext : string) :
  hasChar "." ext = false ->
  beforeLastDot (base ++ "." ++ ext) = base.
Proof.
  intros Hext. induction base as [|c base IH].
  - rewrite append_nil, append_cons, append_nil. cbn [beforeLastDot].
    now rewrite (afterLastDot_none ext Hext).
  - rewrite append_cons. cbn [beforeLastDot].
    now rewrite (afterLastDot_split base ext Hext), IH.
Qed.

(** X19. The name under which the modified file is downloaded. For a
    name with an ordinary extension (not empty, without ['/']) it is
    [modified_] followed by the name itself. A name without any dot gets
    itself as extension ([README] gives [modified_README.README]), the
    empty name gives [modified_.file], and a name that ends in a dot keeps
    the dot and gets the extension [file]. *)
Theorem download_filename :
  (forall base ext,
     ext <> ""%string -> hasChar "." ext = false -> hasChar "/" ext = false ->
     filename (base ++ "." ++ ext) = ("modified_" ++ base ++ "." ++ ext)%string)
  /\ (forall name,
        name <> ""%string -> hasChar "." name = false ->
        filename name = ("modified_" ++ name ++ "." ++ name)%string)
  /\ filename "" = "modified_.file"%string
  /\ (forall base,
        filename (base ++ ".") = ("modified_" ++ base ++ "..file")%string).
Proof.
  unfold filename, withoutExtension, extension.
  split; [|split; [|split]].
  - intros base ext Hne Hdot Hslash.
    rewrite (afterLastDot_split base ext Hdot), (beforeLastDot_split base ext Hdot).
    rewrite Hslash. destruct (String.eqb_spec ext "") as [E|_]; [congruence|].
    reflexivity.
  - intros name Hne Hdot. rewrite (afterLastDot_none name Hdot).
    destruct (String.eqb_spec name "") as [E|_]; [congruence|]. reflexivity.
  - reflexivity.
  - intros base.
    assert (H := afterLastDot_split base "" eq_refl).
    change (base ++ "." ++ "")%string with (base ++ ".")%string in H.
    rewrite H. cbn [String.eqb orb]. f_equal.
    now rewrite string_app_assoc.
Qed.

Lemma download_filename_witness :
  "pdf"%string <> ""%string /\ hasChar "." "pdf" = false /\ hasChar "/" "pdf" = false
  /\ filename ("report" ++ "." ++ "pdf") = ("modified_" ++ "report" ++ "." ++ "pdf")%string.
Proof.
  assert (Hne : "pdf"%string <> ""%string) by discriminate.
  split; [exact Hne|]. split; [reflexivity|]. split; [reflexivity|].
  destruct download_filename as (Hext & _).
  exact (Hext "report"%string "pdf"%string Hne eq_refl eq_refl).
Defined.

(** Names met in practice. *)
Example download_filename_examples :
  filename "report.pdf" = "modified_report.pdf"%string
  /\ filename "scan.final.PNG" = "modified_scan.final.PNG"%string
  /\ filename "README" = "modified_README.README"%string
  /\ filename "a.b/c" = "modified_a.b/c.b/c"%string.
Proof. repeat split. Qed.

End DownloadFacts.

(** ** Further properties: the first revision of the service *)
Section FirstServiceFacts.

Import FirstService Facts.

Variable jsQR : list Z -> Z -> Z -> option JsQr.Code.
Variable getImageData : PdfPage -> Q -> JsQr.ImageData.

Lemma first_pagesLoop_grouped (pages : list PdfPage) :
  forall (i : nat) (qrCodes : list QrCodeInfo),
  exists groups,
    pagesLoop jsQR getImageData i pages qrCodes = qrCodes ++ concat groups
    /\ length groups = length pages
    /\ (length (concat groups) <= length pages)%nat
    /\ forall k page group, pages !! k = Some page -> groups !! k = Some group ->
         Forall (recordOfPage scale (i + k) page) group
         /\ (length group <= 1)%nat
         /\ (group = [] <->
             JsQr.detect jsQR (getImageData page 2) = None).
Proof.
  induction pages as [|page rest IH]; intros i qrCodes; simpl.
  - exists []. rewrite app_nil_r. repeat split; try (simpl; lia); intros;
      now rewrite lookup_nil in *.
  - fold (JsQr.detect jsQR (getImageData page 2)).
    destruct (JsQr.detect jsQR (getImageData page 2)) as [code|] eqn:Hd.
    + destruct (IH (S i) (qrCodes ++ [qrCodeInfo i (getViewport page 2) code]))
        as (groups & Hrun & Hlen & Hcount & Hgroups).
      exists ([qrCodeInfo i (getViewport page 2) code] :: groups).
      split; [rewrite Hrun; simpl; now rewrite <- app_assoc|].
      split; [simpl; now rewrite Hlen|]. split; [simpl; lia|].
      intros [|k] pg group; simpl.
      * intros [= <-] [= <-]. rewrite Nat.add_0_r, Hd. split; [|split; [simpl; lia|easy]].
        constructor; [|constructor].
        destruct (viewport_native page 2 eq_refl) as [Hw Hh].
        repeat split; assumption.
      * intros Hp Hg. replace (i + S k)%nat with (S i + k)%nat by lia. now apply Hgroups.
    + destruct (IH (S i) qrCodes) as (groups & Hrun & Hlen & Hcount & Hgroups).
      exists ([] :: groups). split; [exact Hrun|]. split; [simpl; now rewrite Hlen|].
      split; [simpl; lia|].
      intros [|k] pg group; simpl.
      * intros [= <-] [= <-]. rewrite Hd. split; [constructor|]. split; [simpl; lia|easy].
      * intros Hp Hg. replace (i + S k)%nat with (S i + k)%nat by lia. now apply Hgroups.
Qed.

(** X20. The first revision of the extraction returns at most one record
    per page, in page order: the record of page [n] exists exactly when
    the one call of the detector on that page finds a code, and it carries
    the page number, the native size of the page and the pixel box divided
    by the scale 2. A page with several codes yields one. *)
Theorem first_service_one_code_per_page (pdf : list PdfPage) :
  exists groups,
    extractQrCodesFromPdf jsQR getImageData pdf = concat groups
    /\ length groups = length pdf
    /\ (forall k page group, pdf !! k = Some page -> groups !! k = Some group ->
          Forall (recordOfPage scale (S k) page) group
          /\ (length group <= 1)%nat
          /\ (group = [] <-> JsQr.detect jsQR (getImageData page 2) = None))
    /\ (length (extractQrCodesFromPdf jsQR getImageData pdf) <= length pdf)%nat.
Proof.
  destruct (first_pagesLoop_grouped pdf 1 [])
    as (groups & Hrun & Hlen & Hcount & Hgroups).
  exists groups. split; [exact Hrun|]. split; [exact Hlen|]. split; [exact Hgroups|].
  unfold extractQrCodesFromPdf. now rewrite Hrun.
Qed.

End FirstServiceFacts.
(** ** Further properties: the first revision of the App *)
Section FirstAppFacts.

Import App FirstApp.

Variable header : File -> option string.
Variable extractQrCodesFromPdf : File -> Settled (list QrCodeInfo).

Lemma filter_twice {A : Type} (f : A -> bool) (l : list A) :
  List.filter f (List.filter f l) = List.filter f l.
Proof.
  induction l as [|a l IH]; [reflexivity|].
  simpl. destruct (f a) eqn:Hfa; [|exact IH].
  simpl. now rewrite Hfa, IH.
Qed.

Lemma first_collected_acc (l : list File) (a : list ProcessedFile) (b : list File) :
  fold_left FirstApp.collectStep
    (combine (map (outcome extractQrCodesFromPdf) l) l) (a, b)
  = (a ++ omap fulfilledValue (map (outcome extractQrCodesFromPdf) l),
     b ++ List.filter (fun f => isRejected (outcome extractQrCodesFromPdf f)) l).
Proof.
  revert a b. induction l as [|f l IH]; intros a b.
  - simpl. now rewrite !app_nil_r.
  - cbn [map combine fold_left List.filter].
    destruct (outcome extractQrCodesFromPdf f) as [v|r].
    + change (FirstApp.collectStep (a, b) (fulfilled v, f)) with (a ++ [v], b).
      rewrite IH. cbn. now rewrite <- app_assoc.
    + change (FirstApp.collectStep (a, b) (rejected r, f)) with (a, b ++ [f]).
      rewrite IH. cbn. now rewrite <- app_assoc.
Qed.

Lemma first_collected (l : list File) :
  FirstApp.collected extractQrCodesFromPdf l
  = (omap fulfilledValue (map (outcome extractQrCodesFromPdf) l),
     List.filter (fun f => isRejected (outcome extractQrCodesFromPdf f)) l).
Proof. unfold FirstApp.collected. now rewrite first_collected_acc. Qed.

Lemma first_outcomes_split (l : list File) :
  (length (omap fulfilledValue (map (outcome extractQrCodesFromPdf) l))
   + length (List.filter (fun f => isRejected (outcome extractQrCodesFromPdf f)) l)
   = length l)%nat.
Proof.
  induction l as [|f l IH]; [reflexivity|].
  cbn [map List.filter]. unfold omap in *. cbn [list_omap].
  destruct (outcome extractQrCodesFromPdf f) as [v|r]; cbn; lia.
Qed.

(** X21. The first revision of the App keeps the PDF files of a selection
    and drops the others without a message: a non-empty selection is
    handled as its PDF files alone would be. The files processed are those
    PDF files whose extraction is fulfilled, in order; no error is shown
    exactly when there is a PDF file and no extraction is rejected; when
    some but not all extractions are rejected the message gives only the
    number of rejected files. The customization survives. *)
Theorem first_app_batch (st : AppState) (files : list File) :
  let st' := FirstApp.handleFileChange header extractQrCodesFromPdf st files in
  let pdfFiles := List.filter (isPdfFile header) files in
  let failed :=
    List.filter (fun f => isRejected (outcome extractQrCodesFromPdf f)) pdfFiles in
  files <> [] ->
  isLoading st' = false
  /\ processedFiles st'
     = omap fulfilledValue (map (outcome extractQrCodesFromPdf) pdfFiles)
  /\ (error st' = None <-> pdfFiles <> [] /\ failed = [])
  /\ (processedFiles st' <> [] -> failed <> [] ->
      error st' = Some ("Попередження: Не вдалося обробити "
                          ++ pretty.pretty (length failed) ++ " файл(и).")%string)
  /\ customization st' = customization st
  /\ (pdfFiles <> [] ->
      st' = FirstApp.handleFileChange header extractQrCodesFromPdf st pdfFiles).
Proof.
  intros st' pdfFiles failed Hfiles.
  destruct files as [|f files']; [contradiction|].
  subst st' failed pdfFiles.
  unfold FirstApp.handleFileChange. cbv beta iota zeta.
  pose proof (filter_twice (isPdfFile header) (f :: files')) as Hidem.
  remember (List.filter (isPdfFile header) (f :: files')) as pdfs eqn:Hpdfs.
  pose proof (first_outcomes_split pdfs) as Hsplit.
  rewrite Hidem, !first_collected. cbn [fst snd].
  remember (omap fulfilledValue (map (outcome extractQrCodesFromPdf) pdfs))
    as done eqn:Hdone.
  remember (List.filter (fun f => isRejected (outcome extractQrCodesFromPdf f)) pdfs)
    as failed eqn:Hfailed.
  clear Hpdfs Hidem.
  destruct pdfs as [|p pdfs'].
  - cbn in Hdone, Hfailed. subst done failed.
    cbn. repeat split; try discriminate; try tauto.
  - clear Hdone Hfailed. destruct done as [|v done'].
    + cbn. split; [reflexivity|]. split; [reflexivity|].
      split; [|split; [tauto|split; [reflexivity|reflexivity]]].
      split; [discriminate|]. intros [_ Hnone]. rewrite Hnone in Hsplit.
      cbn in Hsplit. lia.
    + cbn [length Nat.eqb].
      destruct failed as [|g failed'].
      * cbn. split; [reflexivity|]. split; [reflexivity|].
        split; [|split; [tauto|split; [reflexivity|reflexivity]]].
        split; [intros _; split; [discriminate|reflexivity]|reflexivity].
      * cbn [length Nat.ltb Nat.leb].
        split; [reflexivity|]. split; [reflexivity|].
        split; [|split; [reflexivity|split; [reflexivity|reflexivity]]].
        cbn [error setIsLoading setError].
        split; [discriminate|]. intros [_ H]. discriminate.
Qed.

End FirstAppFacts.

Section FirstAppExamples.

Import App FirstApp.

Lemma first_app_batch_witness :
  [notesTxt; unnamedPdf; reportPdf] <> []
  /\ map file
       (processedFiles
          (FirstApp.handleFileChange headerStandIn extractStandIn initialState
             [notesTxt; unnamedPdf; reportPdf]))
     = [unnamedPdf; reportPdf]
  /\ error (FirstApp.handleFileChange headerStandIn extractStandIn initialState
              [notesTxt; unnamedPdf; reportPdf]) = None.
Proof.
  split; [discriminate|].
  assert (Hne : [notesTxt; unnamedPdf; reportPdf] <> []) by discriminate.
  destruct (first_app_batch headerStandIn extractStandIn initialState
              [notesTxt; unnamedPdf; reportPdf] Hne)
    as (_ & Hdone & Herr & _).
  split.
  - rewrite Hdone. reflexivity.
  - apply Herr. split; [discriminate|reflexivity].
Defined.

(** A file that only its first bytes show to be a PDF is processed by the
    first revision and refused by the current one. *)
Example pdf_by_header_only :
  isPdfFile headerStandIn unnamedPdf = true
  /\ isPdf unnamedPdf = false
  /\ processPromise extractStandIn extractStandIn unnamedPdf
     = rejected {| message := Some "Непідтримуваний тип файлу: download" |}.
Proof. repeat split. Qed.

End FirstAppExamples.

(** ** Further properties: the customization controls *)
Section CustomizeFacts.

Import App AppFacts Customize.

Variable indexedEntries : Json -> list (string * Json).
Variable parseInt : string -> option Z.
Variable JSON_parse : string -> option Json.
Variable extractQrCodesFromPdf : File -> Settled (list QrCodeInfo).
Variable extractQrCodesFromImage : File -> Settled (list QrCodeInfo).

Lemma lookupField_snoc (k k' : string) (fields : list (string * Json)) (v : Json) :
  lookupField k (fields ++ [(k', v)])
  = if String.eqb k k' then Some v else lookupField k fields.
Proof. unfold lookupField. now rewrite fold_left_app. Qed.

Lemma sizeIsNumber_withField_size (st : AppState) (c : Json) (n : JsNumber) :
  sizeIsNumber (setCustomization st (withField indexedEntries c "size" (JNumber n))).
Proof.
  exists (spread indexedEntries c ++ [("size"%string, JNumber n)]), n.
  split; [reflexivity|]. now rewrite lookupField_snoc.
Qed.

Lemma sizeIsNumber_withField_other (st : AppState) (key : string) (v : Json) :
  String.eqb "size" key = false ->
  sizeIsNumber st ->
  sizeIsNumber (setCustomization st (withField indexedEntries (customization st) key v)).
Proof.
  intros Hkey (fields & n & Hc & Hn).
  exists (fields ++ [(key, v)]), n. split.
  - cbn. unfold withField. now rewrite Hc.
  - now rewrite lookupField_snoc, Hkey.
Qed.

Lemma handleFileChange_customization (st : AppState) (files : list File) :
  customization (handleFileChange extractQrCodesFromPdf extractQrCodesFromImage st files)
  = customization st.
Proof. now destruct files. Qed.

Lemma step_keeps_size_a_number (st st' : AppState) :
  step indexedEntries parseInt JSON_parse extractQrCodesFromPdf extractQrCodesFromImage
    st st' ->
  sizeIsNumber st -> sizeIsNumber st'.
Proof.
  intros Hstep Hst. destruct Hstep as [st value|st value|st value|st value|st info
                                      |st result|st files|st].
  - now apply sizeIsNumber_withField_other.
  - now apply sizeIsNumber_withField_other.
  - apply sizeIsNumber_withField_size.
  - unfold onSizeNumberChange. destruct (parseInt value) as [newSize|]; [|exact Hst].
    destruct (0 <? newSize)%Z; [|exact Hst]. apply sizeIsNumber_withField_size.
  - destruct info as [info|]; [|exact Hst]. apply sizeIsNumber_withField_size.
  - unfold onload. destruct result as [text|]; [|exact Hst].
    destruct (JSON_parse text) as [settings|]; [|exact Hst].
    destruct (settingsCondition settings) as [[|]|e] eqn:Hcond; try exact Hst.
    apply settingsCondition_true in Hcond.
    destruct Hcond as (fields & c & b & n & -> & _ & _ & _ & _ & Hn).
    now exists fields, n.
  - destruct Hst as (fields & n & Hc & Hn). exists fields, n.
    now rewrite handleFileChange_customization.
  - exact Hst.
Qed.

(** X22. Whatever the user does with the colour pickers, the two size
    inputs, the settings import, the file selection and the reset, and
    whenever the effect follows the selected code, the customization stays
    an object whose [size] is of type number (it may be NaN: the range
    input stores whatever [parseInt] gives). *)
Theorem customization_size_stays_a_number (st : AppState) :
  reachable indexedEntries parseInt JSON_parse extractQrCodesFromPdf
    extractQrCodesFromImage st ->
  sizeIsNumber st.
Proof.
  induction 1 as [|st st' _ IH Hstep].
  - exists [("color"%string, JString "#000000");
            ("backgroundColor"%string, JString "#FFFFFF");
            ("size"%string, JNumber (Finite 100))], (Finite 100).
    split; reflexivity.
  - exact (step_keeps_size_a_number st st' Hstep IH).
Qed.

(** X23. Each control changes its own field and no other: after a
    control, reading a key of the customization gives the new value for
    the key of the control and the previous value for every other key.
    The number input does what the range input does when [parseInt] gives
    a positive number, and nothing otherwise. *)
Theorem controls_change_only_their_field (st : AppState)
  (fields : list (string * Json)) (value k : string) :
  customization st = JObject fields ->
  getProp (customization (onColorChange indexedEntries st value)) k
  = Normal (if String.eqb k "color" then Some (JString value) else lookupField k fields)
  /\ getProp (customization (onBackgroundColorChange indexedEntries st value)) k
     = Normal (if String.eqb k "backgroundColor" then Some (JString value)
               else lookupField k fields)
  /\ getProp (customization (onSizeRangeChange indexedEntries parseInt st value)) k
     = Normal (if String.eqb k "size"
               then Some (JNumber (numberOfParse (parseInt value)))
               else lookupField k fields)
  /\ onSizeNumberChange indexedEntries parseInt st value
     = match parseInt value with
       | Some newSize =>
           if (0 <? newSize)%Z
           then onSizeRangeChange indexedEntries parseInt st value
           else st
       | None => st
       end.
Proof.
  intros Hc.
  unfold onColorChange, onBackgroundColorChange, onSizeRangeChange,
    onSizeNumberChange, withField.
  rewrite Hc. cbn [customization setCustomization getProp spread].
  rewrite !lookupField_snoc. repeat split.
  destruct (parseInt value) as [newSize|]; reflexivity.
Qed.

(** X24. When a code becomes the active one, the size becomes the
    integer nearest to the native width of the code (a half rounds up),
    and the other fields are left as they were. A code narrower than half
    a unit thus gives the size 0. *)
Theorem size_follows_selected_code (st : AppState) (fields : list (string * Json))
  (info : QrCodeInfo) (k : string) :
  customization st = JObject fields ->
  let st' := syncSize indexedEntries st (Some info) in
  let w := width (location info) in
  exists z : Z,
    getProp (customization st') "size" = Normal (Some (JNumber (Finite (inject_Z z))))
    /\ w - (1 # 2) < inject_Z z /\ inject_Z z <= w + (1 # 2)
    /\ (0 <= w -> w < 1 # 2 -> z = 0%Z)
    /\ (String.eqb k "size" = false ->
        getProp (customization st') k = getProp (customization st) k).
Proof.
  intros Hc st' w. exists (mathRound w).
  unfold st', syncSize, withField. rewrite Hc.
  cbn [customization setCustomization getProp spread].
  rewrite !lookupField_snoc. split; [reflexivity|].
  unfold mathRound.
  pose proof (Qfloor_le (w + (1 # 2))) as Hle.
  pose proof (Qlt_floor (w + (1 # 2))) as Hlt.
  rewrite inject_Z_plus in Hlt.
  split; [|split; [exact Hle|split]].
  - apply Qplus_lt_l with (z := 1).
    assert (E : w - (1 # 2) + 1 == w + (1 # 2)) by ring.
    rewrite E. exact Hlt.
  - intros H0 Hhalf.
    assert (Hlo : (0 <= Qfloor (w + (1 # 2)))%Z).
    { apply (Qfloor_resp_le 0). change (0 + 0 <= w + (1 # 2)).
      apply Qplus_le_compat; [exact H0|discriminate]. }
    assert (Hhi : (Qfloor (w + (1 # 2)) < 1)%Z).
    { rewrite Zlt_Qlt. apply Qle_lt_trans with (y := w + (1 # 2)); [exact Hle|].
      assert (E : inject_Z 1 == (1 # 2) + (1 # 2)) by reflexivity.
      rewrite E. apply Qplus_lt_l. exact Hhalf. }
    lia.
  - intros Hk. now rewrite Hk.
Qed.

End CustomizeFacts.

Section CustomizeExamples.

Import App Customize.

Lemma customization_size_stays_a_number_witness :
  reachable (fun _ => []) parseIntStandIn parseStandIn extractStandIn extractStandIn
    (onColorChange (fun _ => [])
       (onload parseStandIn initialState (Some settingsWithNegativeSize)) "#ff0000")
  /\ sizeIsNumber
       (onColorChange (fun _ => [])
          (onload parseStandIn initialState (Some settingsWithNegativeSize)) "#ff0000").
Proof.
  assert (H : reachable (fun _ => []) parseIntStandIn parseStandIn extractStandIn
                extractStandIn
                (onColorChange (fun _ => [])
                   (onload parseStandIn initialState (Some settingsWithNegativeSize))
                   "#ff0000")).
  { eapply reach_step; [eapply reach_step; [apply reach_init|apply step_import]|].
    apply step_color. }
  split; [exact H|].
  exact (customization_size_stays_a_number (fun _ => []) parseIntStandIn parseStandIn
           extractStandIn extractStandIn _ H).
Defined.

Lemma controls_change_only_their_field_witness :
  customization initialState
  = JObject [("color"%string, JString "#000000");
             ("backgroundColor"%string, JString "#FFFFFF");
             ("size"%string, JNumber (Finite 100))]
  /\ getProp (customization (onColorChange (fun _ => []) initialState "#ff0000")) "size"
     = Normal (Some (JNumber (Finite 100)))
  /\ onSizeNumberChange (fun _ => []) parseIntStandIn initialState "-7" = initialState.
Proof.
  split; [reflexivity|].
  assert (Hc : customization initialState
               = JObject [("color"%string, JString "#000000");
                          ("backgroundColor"%string, JString "#FFFFFF");
                          ("size"%string, JNumber (Finite 100))]) by reflexivity.
  split.
  - destruct (controls_change_only_their_field (fun _ => []) parseIntStandIn
                initialState _ "#ff0000" "size" Hc) as (Hcolor & _).
    exact Hcolor.
  - destruct (controls_change_only_their_field (fun _ => []) parseIntStandIn
                initialState _ "-7" "size" Hc) as (_ & _ & _ & Hnumber).
    exact Hnumber.
Defined.

Lemma size_follows_selected_code_witness :
  customization initialState
  = JObject [("color"%string, JString "#000000");
             ("backgroundColor"%string, JString "#FFFFFF");
             ("size"%string, JNumber (Finite 100))]
  /\ exists z : Z,
       getProp (customization (syncSize (fun _ => []) initialState (Some foundCode)))
         "size"
       = Normal (Some (JNumber (Finite (inject_Z z))))
       /\ 100 - (1 # 2) < inject_Z z /\ inject_Z z <= 100 + (1 # 2).
Proof.
  split; [reflexivity|].
  assert (Hc : customization initialState
               = JObject [("color"%string, JString "#000000");
                          ("backgroundColor"%string, JString "#FFFFFF");
                          ("size"%string, JNumber (Finite 100))]) by reflexivity.
  destruct (size_follows_selected_code (fun _ => []) initialState _ foundCode "color" Hc)
    as (z & Hsize & Hlo & Hhi & _).
  exists z. split; [exact Hsize|]. split; [exact Hlo|exact Hhi].
Defined.

(** The range input stores NaN when [parseInt] gives NaN; the number
    input then leaves the size alone. *)
Example range_input_stores_nan :
  getProp (customization (onSizeRangeChange (fun _ => []) parseIntStandIn initialState ""))
    "size"
  = Normal (Some (JNumber NaN))
  /\ onSizeNumberChange (fun _ => []) parseIntStandIn initialState "" = initialState.
Proof. split; reflexivity. Qed.

End CustomizeExamples.

(** ** Further properties: termination of the ZXing extraction *)
Section ZXingTermination.

Import ZXing.

Variable decodeFromCanvas : Canvas -> DecodeOutcome.
Variable scale : Q.

(** A quantity of the canvas that every fill after a detection lowers. *)
Variable measure : Canvas -> nat.

Hypothesis fill_lowers_measure :
  forall (canvas : Canvas) (text : string) (p : ResultPoint) (ps : list ResultPoint),
    decodeFromCanvas canvas = Result text p ps ->
    (measure (fillRect canvas "white" (x (boundingBox p ps)) (y (boundingBox p ps))
                (width (boundingBox p ps)) (height (boundingBox p ps)))
     < measure canvas)%nat.

Lemma zxing_scanLoop_returns (fuel : nat) :
  forall (i : nat) (viewport : Viewport) (canvas : Canvas) (st : ExtractState),
    (measure canvas < fuel)%nat ->
    exists st' canvas',
      scanLoop decodeFromCanvas scale fuel i viewport canvas st = Some (st', canvas')
      /\ (length (allQrCodes st') <= length (allQrCodes st) + measure canvas)%nat.
Proof.
  induction fuel as [|fuel IH]; intros i viewport canvas st Hfuel; [lia|].
  cbn [scanLoop].
  destruct (decodeFromCanvas canvas) as [text p ps| |err] eqn:Hd.
  - pose proof (fill_lowers_measure canvas text p ps Hd) as Hlow.
    destruct (IH i viewport
                (fillRect canvas "white" (x (boundingBox p ps)) (y (boundingBox p ps))
                   (width (boundingBox p ps)) (height (boundingBox p ps)))
                (push st (pdfQrCodeInfo scale i viewport text (boundingBox p ps))))
      as (st' & canvas' & Hrun & Hlen); [lia|].
    exists st', canvas'. split; [exact Hrun|].
    cbn [push allQrCodes] in Hlen. rewrite length_app in Hlen. cbn [length] in Hlen. lia.
  - exists st, canvas. split; [reflexivity|lia].
  - exists (consoleError st err), canvas. split; [reflexivity|cbn; lia].
Qed.

Lemma zxing_imageScanLoop_returns (fuel : nat) :
  forall (image : Image) (canvas : Canvas) (st : ExtractState),
    (measure canvas < fuel)%nat ->
    exists st' canvas',
      imageScanLoop decodeFromCanvas fuel image canvas st = Some (st', canvas')
      /\ (length (allQrCodes st') <= length (allQrCodes st) + measure canvas)%nat.
Proof.
  induction fuel as [|fuel IH]; intros image canvas st Hfuel; [lia|].
  cbn [imageScanLoop].
  destruct (decodeFromCanvas canvas) as [text p ps| |err] eqn:Hd.
  - pose proof (fill_lowers_measure canvas text p ps Hd) as Hlow.
    destruct (IH image
                (fillRect canvas "white" (x (boundingBox p ps)) (y (boundingBox p ps))
                   (width (boundingBox p ps)) (height (boundingBox p ps)))
                (push st (imageQrCodeInfo image text (boundingBox p ps))))
      as (st' & canvas' & Hrun & Hlen); [lia|].
    exists st', canvas'. split; [exact Hrun|].
    cbn [push allQrCodes] in Hlen. rewrite length_app in Hlen. cbn [length] in Hlen. lia.
  - exists st, canvas. split; [reflexivity|lia].
  - exists (consoleError st err), canvas. split; [reflexivity|cbn; lia].
Qed.

Lemma zxing_pagesLoop_returns (fuel : nat) (pages : list PdfPage) :
  forall (i : nat) (st : ExtractState),
    (forall page, page ∈ pages ->
       (measure {| canvas_source := RenderedPage page scale; canvas_fills := [] |}
        < fuel)%nat) ->
    exists st',
      pagesLoop decodeFromCanvas scale fuel i pages st = Some st'
      /\ (length (allQrCodes st')
          <= length (allQrCodes st)
             + list_sum
                 (map (fun page =>
                         measure {| canvas_source := RenderedPage page scale;
                                    canvas_fills := [] |}) pages))%nat.
Proof.
  induction pages as [|page rest IH]; intros i st Hfuel.
  - exists st. split; [reflexivity|cbn; lia].
  - cbn [pagesLoop].
    destruct (zxing_scanLoop_returns fuel i (getViewport page scale)
                {| canvas_source := RenderedPage page scale; canvas_fills := [] |} st)
      as (st1 & canvas1 & Hrun & Hlen).
    { apply Hfuel. apply list_elem_of_here. }
    rewrite Hrun.
    destruct (IH (S i) st1) as (st' & Hrest & Hlen').
    { intros page' Hin. apply Hfuel. now apply list_elem_of_further. }
    exists st'. split; [exact Hrest|]. cbn [map].
    match goal with
    | |- context [list_sum (?a :: ?l)] =>
        change (list_sum (a :: l)) with (a + list_sum l)%nat
    end.
    lia.
Qed.

(** X25. The ZXing extraction terminates whenever each fill that follows
    a detection lowers some natural-number measure of the canvas: with a
    bound on the rounds above the measure of every fresh page, the
    extraction of the document returns, with at most as many records as
    the measures of its pages add up to; and likewise the extraction of an
    image. *)
Theorem zxing_extraction_returns (fuel : nat) (pdf : list PdfPage) (image : Image) :
  ((forall page, page ∈ pdf ->
      (measure {| canvas_source := RenderedPage page scale; canvas_fills := [] |}
       < fuel)%nat) ->
   exists st,
     extractQrCodesFromPdf decodeFromCanvas scale fuel pdf = Some st
     /\ (length (allQrCodes st)
         <= list_sum
              (map (fun page =>
                      measure {| canvas_source := RenderedPage page scale;
                                 canvas_fills := [] |}) pdf))%nat)
  /\ ((measure {| canvas_source := DrawnImage image; canvas_fills := [] |} < fuel)%nat ->
      exists st,
        extractQrCodesFromImage decodeFromCanvas fuel image = Some st
        /\ (length (allQrCodes st)
            <= measure {| canvas_source := DrawnImage image; canvas_fills := [] |})%nat).
Proof.
  split.
  - intros Hfuel.
    destruct (zxing_pagesLoop_returns fuel pdf 1 {| allQrCodes := []; console := [] |}
                Hfuel) as (st & Hrun & Hlen).
    exists st. split; [exact Hrun|exact Hlen].
  - intros Hfuel. unfold extractQrCodesFromImage.
    destruct (zxing_imageScanLoop_returns fuel image
                {| canvas_source := DrawnImage image; canvas_fills := [] |}
                {| allQrCodes := []; console := [] |} Hfuel)
      as (st & canvas & Hrun & Hlen).
    rewrite Hrun. exists st. split; [reflexivity|exact Hlen].
Qed.

End ZXingTermination.

Section ZXingTerminationExamples.

Import ZXing ZXingMeasure.

Lemma oneCodeDecoder_fill_lowers :
  forall (canvas : Canvas) (text : string) (p : ResultPoint) (ps : list ResultPoint),
    oneCodeDecoder canvas = Result text p ps ->
    (codesLeft (fillRect canvas "white" (x (boundingBox p ps)) (y (boundingBox p ps))
                  (width (boundingBox p ps)) (height (boundingBox p ps)))
     < codesLeft canvas)%nat.
Proof.
  intros [source fills] text p ps. unfold oneCodeDecoder, codesLeft, fillRect.
  cbn [canvas_fills canvas_source]. destruct fills as [|fill fills]; [|discriminate].
  intros _. cbn. lia.
Qed.

Lemma zxing_extraction_returns_witness :
  (forall (canvas : Canvas) (text : string) (p : ResultPoint) (ps : list ResultPoint),
      oneCodeDecoder canvas = Result text p ps ->
      (codesLeft (fillRect canvas "white" (x (boundingBox p ps)) (y (boundingBox p ps))
                    (width (boundingBox p ps)) (height (boundingBox p ps)))
       < codesLeft canvas)%nat)
  /\ exists st,
       extractQrCodesFromPdf oneCodeDecoder 3 2 [samplePage; samplePage] = Some st
       /\ (length (allQrCodes st) <= 2)%nat.
Proof.
  split; [exact oneCodeDecoder_fill_lowers|].
  destruct (zxing_extraction_returns oneCodeDecoder 3 codesLeft
              oneCodeDecoder_fill_lowers 2 [samplePage; samplePage]
              {| image_width := 1; image_height := 1; image_content := 0 |})
    as (Hpdf & _).
  destruct Hpdf as (st & Hrun & Hlen).
  - intros page _. cbn. lia.
  - exists st. split; [exact Hrun|exact Hlen].
Defined.

End ZXingTerminationExamples.
